(** * Photo retention, registration and recognition of the face-unlock utility

    A shallow embedding of [user_manager.py], [face_recognizer.py],
    [face_trainer.py] and of the registration and recognition callbacks of
    [desbloqueo.py], with the properties of the photo store, the recogniser,
    the trainer and the two controllers. *)

From Stdlib Require Import ZArith String Ascii QArith Lia.
From stdpp Require Import base gmap strings list sorting.

Local Open Scope Z_scope.

(** ** File names *)

Module FileName.

(** [str.lower] on the ASCII range. *)
Definition lower_ascii (c : ascii) : ascii :=
  let n := nat_of_ascii c in
  if ((65 <=? n)%nat && (n <=? 90)%nat)%bool then ascii_of_nat (n + 32) else c.

Fixpoint lower (s : string) : string :=
  match s with
  | EmptyString => EmptyString
  | String c s' => String (lower_ascii c) (lower s')
  end.

(** [str.endswith]. *)
Definition endswith (s suf : string) : bool :=
  let n := String.length s in
  let k := String.length suf in
  (k <=? n)%nat && String.eqb (String.substring (n - k) k s) suf.

(** [f.lower().endswith(('.jpg', '.jpeg', '.png'))] *)
Definition is_photo_name (f : string) : bool :=
  let l := lower f in
  endswith l ".jpg" || endswith l ".jpeg" || endswith l ".png".

(** The name [add_photo_to_user] writes to: [f"face_{timestamp}.jpg"]. *)
Definition photo_name (stamp : string) : string :=
  String.append "face_" (String.append stamp ".jpg").

End FileName.

(** ** [user_manager.py]: the photo store *)

(** A photo file of a user's directory: its name and its creation time.
    [os.path.getctime] gives float seconds since the epoch; creation times
    are taken here in whole microseconds, the resolution of [datetime]. *)
Record file := File { fname : string; fctime : Z }.

(** The time zone of the process.  [datetime.fromtimestamp] turns an
    instant, in microseconds since the epoch, into the naive local datetime
    the wall clock shows at it; naive datetimes are taken in microseconds
    since 1970-01-01 00:00 on the wall clock, so that in UTC nothing
    changes.  The wall clock of a zone may go back: where daylight saving
    time ends an hour is shown twice. *)
Class TimeZone := { fromtimestamp : Z → Z }.

(** The range of [datetime]: from 0001-01-01 00:00:00 to
    9999-12-31 23:59:59.999999; and the most days a [timedelta] holds. *)
Definition DATETIME_MIN : Z := -62135596800000000.
Definition DATETIME_MAX : Z := 253402300799999999.
Definition MAX_TIMEDELTA_DAYS : Z := 999999999.

Global Instance file_eq_dec : EqDecision file.
Proof. solve_decision. Defined.

(** A user's directory, in [os.listdir] order.  The file system keeps the
    names of one directory distinct ([wf_dir]). *)
Abbreviation dir := (list file).

(** [base_dir]: one directory per user name, and nothing else.  A user
    name is a single path component ([plain_name] below):
    [os.path.join(base_dir, name)] is then the entry [name] of [base_dir],
    and the functions on the store are given for such names. *)
Abbreviation store := (gmap string dir).

(** The constructor arguments of [UserManager]. *)
Record policy := Policy {
  max_photos_per_user : Z;
  photo_retention_days : Z;
  min_recent_photos_to_keep : Z
}.

Definition US_PER_DAY : Z := 86400000000.

(** The constants of [desbloqueo.py]. *)
Definition MAX_INITIAL_PHOTOS : Z := 50.
Definition ADDITIONAL_PHOTOS_STEP : Z := 5.
Definition MAX_PHOTOS_PER_USER : Z := 100.
Definition PHOTO_RETENTION_DAYS : Z := 90.
Definition MIN_RECENT_PHOTOS_TO_KEEP : Z := 50.
(** Distances are floats in the source; they are rationals here, compared
    the same way. *)
Definition CONFIDENCE_THRESHOLD : Q := 2000 # 1.

(** The policy [FaceRecognitionApp.__init__] gives its [UserManager]. *)
Definition app_policy : policy :=
  Policy MAX_PHOTOS_PER_USER PHOTO_RETENTION_DAYS MIN_RECENT_PHOTOS_TO_KEEP.

Module UserManager.

(** A name that [os.path.join] takes as one entry of [base_dir]: not
    empty, not [.] or [..], without a slash and without a null character. *)
Definition plain_name (username : string) : bool :=
  negb (String.eqb username "")
  && negb (String.eqb username ".")
  && negb (String.eqb username "..")
  && forallb (λ c, negb (Ascii.eqb c "/"%char) && negb (Ascii.eqb c "000"%char))
             (list_ascii_of_string username).

Definition names (d : list file) : list string := fname <$> d.

Definition wf_dir (d : dir) : Prop := NoDup (names d).

Definition wf_store (fs : store) : Prop :=
  ∀ u d, fs !! u = Some d → wf_dir d.

(** *** The file-system calls, on one directory *)

(** [os.path.exists(os.path.join(user_dir, p))] *)
Definition path_exists (p : string) (d : dir) : bool :=
  bool_decide (p ∈ names d).

(** [os.remove(os.path.join(user_dir, p))] *)
Definition os_remove (p : string) (d : dir) : dir :=
  filter (λ f, fname f ≠ p) d.

(** [cv2.imwrite(path, img)] when the clock reads [t]: a new entry, or the
    entry of that name written again.  A new entry is shown last by the
    next listing; [os.listdir] promises no order, and this is one it may
    give. *)
Definition imwrite (p : string) (t : Z) (d : dir) : dir :=
  if path_exists p d
  then (λ f, if decide (fname f = p) then File p t else f) <$> d
  else d ++ [File p t].

(** *** [photo_files.sort(key=lambda x: x[1])]: a stable sort

    Python's sort is stable: entries with equal creation times keep the order
    of the listing.  So does this insertion sort, which puts an entry before
    the first one that is not earlier. *)

Fixpoint insert_by_ctime (x : file) (l : list file) : list file :=
  match l with
  | [] => [x]
  | y :: l' =>
      if fctime x <=? fctime y then x :: l else y :: insert_by_ctime x l'
  end.

Fixpoint sort_by_ctime (l : list file) : list file :=
  match l with
  | [] => []
  | x :: l' => insert_by_ctime x (sort_by_ctime l')
  end.

(** Ascending by creation time. *)
Definition le_ctime (a b : file) : Prop := fctime a ≤ fctime b.

(** *** [get_user_photo_files], [get_user_photo_count] *)

Definition is_photo (f : file) : Prop := FileName.is_photo_name (fname f).

Definition photo_files (d : dir) : list file :=
  sort_by_ctime (filter is_photo d).

Definition get_user_photo_files (fs : store) (username : string) : list file :=
  match fs !! username with
  | None => []
  | Some d => photo_files d
  end.

Definition get_user_photo_count (fs : store) (username : string) : nat :=
  length (get_user_photo_files fs username).

(** *** [create_user], [delete_user], [add_photo_to_user]

    Each of them works on [os.path.join(self.base_dir, username)].  For a
    plain name that is the entry [username] of [base_dir], which is how
    the three are given here; the empty name, a name with a slash, [.] and
    [..] make the path something else ([base_dir] itself, an entry of a
    user's directory, a directory outside), and what is stated of the
    three below is stated for plain names. *)

Definition create_user (fs : store) (username : string) : store * bool :=
  match fs !! username with
  | None => (<[username := []]> fs, true)
  | Some _ => (fs, false)
  end.

Definition delete_user (fs : store) (username : string) : store * bool :=
  match fs !! username with
  | Some _ => (delete username fs, true)
  | None => (fs, false)
  end.

(** [stamp] is [datetime.now().strftime("%Y%m%d_%H%M%S_%f")] and [t] the
    creation time the file system gives the written file. *)
Definition add_photo_to_user (fs : store) (username stamp : string) (t : Z) : store :=
  let user_dir := default [] (fs !! username) in
  <[username := imwrite (FileName.photo_name stamp) t user_dir]> fs.

(** *** The retention pass of [save_recognition_photo_and_manage_retention] *)

Section Retention.
Context `{tz : !TimeZone}.
Variable pol : policy.
(** What [datetime.now()] reads: a naive local datetime. *)
Variable now : Z.

(** Line 153, [datetime.now() - timedelta(days=self.photo_retention_days)].
    [None] stands for [OverflowError]: [timedelta] raises it for more than
    999999999 days, and the subtraction for a date outside the range of
    [datetime]. *)
Definition oldest_acceptable_date : option Z :=
  let days := photo_retention_days pol in
  let date := now - days * US_PER_DAY in
  if (- MAX_TIMEDELTA_DAYS <=? days) && (days <=? MAX_TIMEDELTA_DAYS)
     && (DATETIME_MIN <=? date) && (date <=? DATETIME_MAX)
  then Some date
  else None.

(** [photo_date < oldest_acceptable_date], where [photo_date] is
    [datetime.fromtimestamp(timestamp)]: a comparison of naive local
    datetimes.  The loop that makes it is not reached when line 153 raised;
    no photo counts as older then. *)
Definition is_older_than_retention (ph : file) : bool :=
  match oldest_acceptable_date with
  | Some date => fromtimestamp (fctime ph) <? date
  | None => false
  end.

(** [(current_total_photos - 1 - i) >= self.min_recent_photos_to_keep] *)
Definition is_not_among_recent_n (current_total_photos : Z) (i : nat) : bool :=
  min_recent_photos_to_keep pol <=? current_total_photos - 1 - Z.of_nat i.

(** [enumerate(user_photos)], counting from [i]. *)
Fixpoint enumerate_from (i : nat) (l : list file) : list (nat * file) :=
  match l with
  | [] => []
  | x :: l' => (i, x) :: enumerate_from (S i) l'
  end.

Definition eligible (current_total_photos : Z) (ip : nat * file) : bool :=
  is_older_than_retention ip.2 && is_not_among_recent_n current_total_photos ip.1.

Definition photos_eligible_for_deletion (user_photos : list file) : list string :=
  let current_total_photos := Z.of_nat (length user_photos) in
  (λ ip, fname ip.2) <$>
    List.filter (eligible current_total_photos) (enumerate_from 0 user_photos).

(** One turn of the loop over [photos_eligible_for_deletion]; the state is
    the directory and [current_total_photos]. *)
Definition age_step (st : dir * Z) (photo_path : string) : dir * Z :=
  if path_exists photo_path st.1
  then (os_remove photo_path st.1, st.2 - 1)
  else st.

(** Lines 146-173: the age-based phase, from the directory as it is after
    the new photo was written. *)
Definition age_phase (d : dir) : dir * Z :=
  let user_photos := photo_files d in
  let current_total_photos := Z.of_nat (length user_photos) in
  foldl age_step (d, current_total_photos)
        (photos_eligible_for_deletion user_photos).

(** The loop [for i in range(num_to_trim)], with its [break]. *)
Fixpoint trim_loop (after : list file) (idxs : list nat) (d : dir) : dir :=
  match idxs with
  | [] => d
  | i :: idxs' =>
      match after !! i with
      | Some ph =>
          trim_loop after idxs'
            (if path_exists (fname ph) d then os_remove (fname ph) d else d)
      | None => d
      end
  end.

(** Lines 176-187: the hard-ceiling phase. *)
Definition ceiling_phase (st : dir * Z) : dir :=
  let current_total_photos := st.2 in
  if max_photos_per_user pol <? current_total_photos then
    let user_photos_after_first_pass := photo_files st.1 in
    let num_to_trim := current_total_photos - max_photos_per_user pol in
    trim_loop user_photos_after_first_pass (seq 0 (Z.to_nat num_to_trim)) st.1
  else st.1.

(** The whole pass.  Every path it touches is [user_dir] joined with a file
    name, so it is a function of the user's directory.  When line 153
    raises, the call ends there: the directory stays as it is with the
    photo written. *)
Definition manage_retention (d : dir) : dir :=
  match oldest_acceptable_date with
  | Some _ => ceiling_phase (age_phase d)
  | None => d
  end.

(** Whether the call ends by the [OverflowError] of line 153 instead of
    returning. *)
Definition raises : bool := bool_decide (oldest_acceptable_date = None).

End Retention.

(** [save_recognition_photo_and_manage_retention]: [t] is the creation time
    of the written file, [now] the clock read for the retention pass.  The
    result is the store the call leaves, whether it returns or [raises]. *)
Definition save_recognition_photo_and_manage_retention `{!TimeZone}
    (pol : policy) (fs : store) (username stamp : string) (t now : Z) : store :=
  let fs1 := add_photo_to_user fs username stamp t in
  match fs1 !! username with
  | Some d => <[username := manage_retention pol now d]> fs1
  | None => fs1
  end.

(** A call of [save_recognition_photo_and_manage_retention] and a run of
    calls, each on the store the one before left. *)
Record call := Call {
  c_user : string; c_stamp : string; c_ctime : Z; c_now : Z
}.

Definition run_call `{!TimeZone} (pol : policy) (fs : store) (c : call) : store :=
  save_recognition_photo_and_manage_retention
    pol fs (c_user c) (c_stamp c) (c_ctime c) (c_now c).

Definition run_calls `{!TimeZone} (pol : policy) (fs : store) (cs : list call) : store :=
  foldl (run_call pol) fs cs.

End UserManager.

(** ** [face_recognizer.py]: the recogniser *)

Module FaceRecognizer.

(** [confidence < self.confidence_threshold] on scores. *)
Definition Qlt_bool (x y : Q) : bool := negb (Qle_bool y x).

(** Python's [l[i]]: a negative index counts from the end; [None] stands
    for [IndexError: list index out of range]. *)
Definition py_index {A} (l : list A) (i : Z) : option A :=
  if 0 <=? i then l !! Z.to_nat i
  else if - Z.of_nat (length l) <=? i then l !! Z.to_nat (Z.of_nat (length l) + i)
  else None.

(** What [self.face_recognizer.predict(face_roi)] does on a face region:
    it returns a label and a distance, or raises. *)
Inductive prediction :=
| Predicted (label : Z) (confidence : Q)
| PredictRaises.

(** The calls [recognize_face] makes on the OpenCV model and on the logger. *)
Inductive rec_event := EvPredict | EvLogError.

Section Recognizer.
Context {face : Type}.

(** The recogniser when [recognize_face] is called: its user list, its
    threshold, whether [os.path.exists(self.model_path)] holds, and the
    loaded OpenCV model as the function it computes. *)
Record recognizer := Recognizer {
  user_list : list string;
  confidence_threshold : Q;
  model_exists : bool;
  predict : face → prediction
}.

(** [recognize_face]: the pair it returns and the calls it made. *)
Definition recognize_face (r : recognizer) (face_roi : face)
    : (option string * Q) * list rec_event :=
  if bool_decide (user_list r = []) || negb (model_exists r) then
    ((None, 0%Q), [])
  else
    match predict r face_roi with
    | Predicted label confidence =>
        if Qlt_bool confidence (confidence_threshold r)
           && (label <? Z.of_nat (length (user_list r))) then
          match py_index (user_list r) label with
          | Some username => ((Some username, confidence), [EvPredict])
          | None => ((None, 0%Q), [EvPredict; EvLogError])
          end
        else ((None, confidence), [EvPredict])
    | PredictRaises => ((None, 0%Q), [EvPredict; EvLogError])
    end.

(** [if username:] *)
Definition truthy (username : option string) : bool :=
  match username with
  | Some s => negb (String.eqb s "")
  | None => false
  end.

(** [process_frame], on the face regions [detect_faces] finds in the
    frame: the list [recognized_users]. *)
Definition process_frame (r : recognizer) (faces : list face) : list (string * Q) :=
  omap (λ face_roi,
          let '(username, confidence) := (recognize_face r face_roi).1 in
          match username with
          | Some s => if truthy username then Some (s, confidence) else None
          | None => None
          end) faces.

End Recognizer.

Global Arguments recognizer : clear implicits.

End FaceRecognizer.

(** ** [face_trainer.py]: the trainer *)

Module FaceTrainer.

(** [train] returns the accuracy or raises. *)
Inductive train_result :=
| TrainReturns (accuracy : Q)
| TrainRaises.

(** The order of [list.sort] on names. *)
Definition string_le (a b : string) : Prop := String.leb a b = true.

Global Instance string_le_dec : RelDecision string_le.
Proof. intros a b. unfold string_le. apply _. Defined.

Section Trainer.
Context {image model : Type}.

(** [cv2.imread(image_path, cv2.IMREAD_GRAYSCALE)], by user and file
    name; [None] when the file cannot be read as an image. *)
Variable imread : string → string → option image.
(** [self.face_recognizer.train(X_train, y_train)] *)
Variable fit : list (image * Z) → model.
(** The label of [self.face_recognizer.predict(X_test[i])]. *)
Variable predict_label : model → image → Z.
(** The permutation [train_test_split] draws with [random_state=42]. *)
Variable shuffle : list (image * Z) → list (image * Z).

(** The images of one user, in [os.listdir] order, with the user's label. *)
Definition load_user (username : string) (d : dir) (label_id : Z) : list (image * Z) :=
  omap (λ f, if FileName.is_photo_name (fname f)
             then (λ img, (img, label_id)) <$> imread username (fname f)
             else None) d.

Fixpoint load_users (fs : store) (users : list string) (label_id : Z) : list (image * Z) :=
  match users with
  | [] => []
  | username :: rest =>
      load_user username (default [] (fs !! username)) label_id
        ++ load_users fs rest (label_id + 1)
  end.

(** [self.user_list]: the user directories, sorted. *)
Definition sorted_users (fs : store) : list string :=
  merge_sort string_le (map_to_list fs).*1.

Definition load_training_data (fs : store) : list (image * Z) :=
  load_users fs (sorted_users fs) 0.

(** scikit-learn's [train_test_split(X, y, test_size=0.2,
    random_state=42)]: [n_test = ceil(0.2 * n)], [n_train = n - n_test];
    it raises [ValueError] when the training set would be empty;
    otherwise the first [n_test] of the shuffled samples are the test
    set, the rest the training set.  The result is (train, test). *)
Definition train_test_split (data : list (image * Z))
    : option (list (image * Z) * list (image * Z)) :=
  let n := length data in
  let n_test := ((n + 4) / 5)%nat in
  let n_train := (n - n_test)%nat in
  if (n_train =? 0)%nat then None
  else
    let p := shuffle data in
    Some (take n_train (drop n_test p), take n_test p).

(** The evaluation loop: the test samples predicted with their label. *)
Definition count_correct (m : model) (test : list (image * Z)) : nat :=
  length (filter (λ s, predict_label m s.1 = s.2) test).

(** [train()], from the store and the model file as it is: the result and
    the model file afterwards. *)
Definition train (fs : store) (model_file : option model)
    : train_result * option model :=
  let data := load_training_data fs in
  if (length data =? 0)%nat then (TrainRaises, model_file)
  else
    match train_test_split data with
    | None => (TrainRaises, model_file)
    | Some (train_set, test_set) =>
        let m := fit train_set in
        let correct := count_correct m test_set in
        let total := length test_set in
        let accuracy :=
          if (0 <? total)%nat
          then (inject_Z (Z.of_nat correct) / inject_Z (Z.of_nat total))%Q
          else 0%Q in
        (TrainReturns accuracy, Some m)
    end.

End Trainer.

End FaceTrainer.

(** ** [desbloqueo.py]: registration and recognition

    The methods of [FaceRecognitionApp] that drive registration and
    recognition, as functions on the state of the application.  Each call
    runs to its end before the next one starts; the threads it starts
    (capture, training, unlock) appear as the calls that start them. *)

Module App.
Import UserManager FaceRecognizer.

(** The closures [start_capture] is given as frame callback. *)
Inductive callback :=
| RegistrationFrame (username : option string) (max_photos_to_take_in_session : Z)
| RecognitionFrame.

(** The calls on the collaborators: the GUI, the camera thread, the
    training thread and the unlock thread. *)
Inductive event :=
| AskString
| AskConfirmation
| UpdateStatus
| ShowMessage
| ShowFrame
| UpdateUserList
| UpdateWelcomeMessage
| StartCapture (cb : callback) (started : bool)
| StopCamera
| TrainModel (show_message_box : bool)
| TryUnlock.

Global Instance callback_eq_dec : EqDecision callback.
Proof. solve_decision. Defined.

Global Instance event_eq_dec : EqDecision event.
Proof. solve_decision. Defined.

(** [CameraManager]: the recording flag and the installed callback. *)
Record camera := Camera {
  is_recording : bool;
  frame_callback : option callback
}.

(** What [start_capture] finds: whether the capture thread is alive and
    whether [initialize_camera] succeeds. *)
Record capture_env := CaptureEnv { thread_alive : bool; camera_ok : bool }.

(** What the operator answers to the prompts of [start_registration]. *)
Record reg_input := RegInput {
  name_answer : option string;
  confirm_answer : bool;
  capture : capture_env
}.

(** What the operator answers to the prompt after a session, and to the
    registration this may start. *)
Record answers := Answers { continue_answer : bool; restart : reg_input }.

Section Model.
Context {face : Type}.
Context `{tz : !TimeZone}.

(** A frame: the face regions [detect_faces] finds in it, the time stamp
    and creation time a photo written during its processing gets, and
    the clock of a retention pass: what [datetime.now()] reads on a
    running system, from which the 90 days of the application's window
    can be subtracted. *)
Record frame := Frame {
  faces : list face;
  stamp : string;
  ctime : Z;
  now : Z
}.

(** [FaceRecognitionApp], with the store and the calls made so far. *)
Record app := MkApp {
  fs : store;
  face_recognizer : recognizer face;
  recognition_active : bool;
  registration_active : bool;
  current_user_registration : option string;
  camera_manager : camera;
  window_exists : bool;
  trace : list event
}.

(** *** State passing *)

Definition action : Type := app → app.

Definition skip : action := λ a, a.
Definition andthen (f g : action) : action := λ a, g (f a).
Definition when (b : bool) (f : action) : action := if b then f else skip.
Definition read {A} (get : app → A) (k : A → action) : action := λ a, k (get a) a.

Declare Scope action_scope.
Delimit Scope action_scope with act.
Bind Scope action_scope with action.
Notation "f ;; g" := (andthen f g%act)
  (at level 100, g at level 200, right associativity) : action_scope.
Local Open Scope action_scope.

Definition emit (e : event) : action := λ a,
  MkApp (fs a) (face_recognizer a) (recognition_active a) (registration_active a)
        (current_user_registration a) (camera_manager a) (window_exists a)
        (trace a ++ [e]).

Definition set_fs (s : store) : action := λ a,
  MkApp s (face_recognizer a) (recognition_active a) (registration_active a)
        (current_user_registration a) (camera_manager a) (window_exists a)
        (trace a).

Definition set_recognition_active (b : bool) : action := λ a,
  MkApp (fs a) (face_recognizer a) b (registration_active a)
        (current_user_registration a) (camera_manager a) (window_exists a)
        (trace a).

Definition set_registration_active (b : bool) : action := λ a,
  MkApp (fs a) (face_recognizer a) (recognition_active a) b
        (current_user_registration a) (camera_manager a) (window_exists a)
        (trace a).

Definition set_current_user_registration (u : option string) : action := λ a,
  MkApp (fs a) (face_recognizer a) (recognition_active a) (registration_active a)
        u (camera_manager a) (window_exists a) (trace a).

Definition set_camera (c : camera) : action := λ a,
  MkApp (fs a) (face_recognizer a) (recognition_active a) (registration_active a)
        (current_user_registration a) c (window_exists a) (trace a).

(** *** The camera *)

(** [CameraManager.start_capture] *)
Definition start_capture (e : capture_env) (cb : callback) : action :=
  read camera_manager (λ c,
    if thread_alive e then emit (StartCapture cb true)
    else if camera_ok e then
      set_camera (Camera true (Some cb)) ;; emit (StartCapture cb true)
    else
      set_camera (Camera false (frame_callback c)) ;; emit (StartCapture cb false)).

(** [CameraManager.stop_camera] *)
Definition stop_camera : action :=
  read camera_manager (λ c,
    set_camera (Camera false (frame_callback c)) ;; emit StopCamera).

(** *** Training and the end of a registration *)

(** [train_model]: the status line and the training thread. *)
Definition train_model (show_message_box : bool) : action :=
  emit UpdateStatus ;; emit (TrainModel show_message_box).

(** The lines [start_registration] runs on each of its three ways to
    training without capture. *)
Definition finish_without_capture : action :=
  emit ShowMessage ;;
  read camera_manager (λ c, when (is_recording c) stop_camera) ;;
  emit UpdateStatus ;;
  set_current_user_registration None ;;
  train_model true ;;
  emit UpdateUserList.

(** [len(existing_photos)] in [start_registration]. *)
Definition existing_photos_count (s : store) (username : string) : Z :=
  match s !! username with
  | Some d => Z.of_nat (length (filter is_photo d))
  | None => 0
  end.

(** *** [start_registration] *)

Definition start_registration (inp : reg_input) (current_photos_count : Z) : action :=
  read registration_active (λ active,
    if negb active then
      emit AskString ;;
      match name_answer inp with
      | None => skip
      | Some username =>
          if String.eqb username "" then skip
          else
            set_current_user_registration (Some username) ;;
            read fs (λ s,
              let existing := existing_photos_count s username in
              if existing =? 0 then
                match s !! username with
                | None =>
                    let '(s', created) := create_user s username in
                    if created then
                      set_fs s' ;; emit UpdateStatus ;;
                      set_registration_active true ;;
                      start_capture (capture inp)
                        (RegistrationFrame (Some username) MAX_INITIAL_PHOTOS)
                    else emit ShowMessage
                | Some _ =>
                    emit UpdateStatus ;;
                    set_registration_active true ;;
                    start_capture (capture inp)
                      (RegistrationFrame (Some username) MAX_INITIAL_PHOTOS)
                end
              else
                emit AskConfirmation ;;
                if confirm_answer inp then
                  let target_photos_in_session :=
                    Z.min (existing + ADDITIONAL_PHOTOS_STEP) MAX_PHOTOS_PER_USER in
                  if target_photos_in_session <=? existing then
                    finish_without_capture
                  else
                    emit UpdateStatus ;;
                    set_registration_active true ;;
                    start_capture (capture inp)
                      (RegistrationFrame (Some username) target_photos_in_session)
                else finish_without_capture)
      end
    else
      read current_user_registration (λ username,
        let target_photos_in_session :=
          Z.min (current_photos_count + ADDITIONAL_PHOTOS_STEP) MAX_PHOTOS_PER_USER in
        if target_photos_in_session <=? current_photos_count then
          finish_without_capture
        else
          emit UpdateStatus ;;
          set_registration_active true ;;
          start_capture (capture inp)
            (RegistrationFrame username target_photos_in_session))).

(** *** [process_registration_frame] *)

Definition photo_count (username : string) (a : app) : Z :=
  Z.of_nat (get_user_photo_count (fs a) username).

(** Lines 338-347: the photo is taken when the frame shows one face and
    the count is below the target of the session. *)
Definition takes_photo (fr : frame) (username : string) (target : Z) (a : app) : bool :=
  (length (faces fr) =? 1)%nat && (photo_count username a <? target).

Definition take_photo (fr : frame) (username : string) : action :=
  read fs (λ s, set_fs (add_photo_to_user s username (stamp fr) (ctime fr))) ;;
  emit UpdateStatus.

(** The state in which the count is compared with the target: after the
    frame was shown and the photo, if any, was taken. *)
Definition after_capture (fr : frame) (username : string) (target : Z) : action :=
  read (takes_photo fr username target) (λ takes,
    emit ShowFrame ;; when takes (take_photo fr username)).

(** Lines 359-403: what follows the end of a session. *)
Definition after_session (ans : answers) (target : Z) (count : Z) : action :=
  if (target =? MAX_INITIAL_PHOTOS) && (MAX_INITIAL_PHOTOS <=? count) then
    set_current_user_registration None ;;
    train_model true ;;
    emit UpdateUserList ;;
    if count <? MAX_PHOTOS_PER_USER then
      emit AskConfirmation ;;
      if continue_answer ans then start_registration (restart ans) count
      else emit ShowMessage
    else emit ShowMessage
  else if MAX_PHOTOS_PER_USER <=? count then
    emit ShowMessage ;;
    set_current_user_registration None ;;
    train_model true ;;
    emit UpdateUserList
  else
    emit AskConfirmation ;;
    if continue_answer ans then start_registration (restart ans) count
    else
      emit ShowMessage ;;
      set_current_user_registration None ;;
      train_model true ;;
      emit UpdateUserList.

Definition process_registration_frame
    (fr : frame) (ans : answers) (username : string)
    (max_photos_to_take_in_session : Z) : action :=
  read registration_active (λ active,
    if negb active then skip
    else
      emit ShowFrame ;;
      read (takes_photo fr username max_photos_to_take_in_session) (λ takes,
        when takes (take_photo fr username) ;;
        read (photo_count username) (λ current_total_photos_for_user,
          if max_photos_to_take_in_session <=? current_total_photos_for_user then
            stop_camera ;;
            set_registration_active false ;;
            emit UpdateStatus ;;
            after_session ans max_photos_to_take_in_session
                          current_total_photos_for_user
          else if negb (length (faces fr) =? 1)%nat then emit UpdateStatus
          else skip))).

(** The frames of one session, through the registration callback. *)
Definition process_registration_frames
    (frs : list frame) (ans : answers) (username : string) (target : Z) : action :=
  λ a, foldl (λ a fr, process_registration_frame fr ans username target a) a frs.

(** *** Recognition *)

(** [stop_recognition] *)
Definition stop_recognition : action :=
  read recognition_active (λ active,
    when active
      (set_recognition_active false ;; stop_camera ;; emit UpdateStatus)).

(** Lines 600-608: the photo of a recognised user, with retention. *)
Definition save_recognition_photo (fr : frame) (username : string) : action :=
  read fs (λ s,
    set_fs (save_recognition_photo_and_manage_retention
              app_policy s username (stamp fr) (ctime fr) (now fr))) ;;
  emit UpdateStatus ;;
  train_model false.

(** [_process_recognition_frame] *)
Definition process_recognition_frame (fr : frame) : action :=
  read recognition_active (λ active,
    if negb active then skip
    else
      read window_exists (λ exists_,
        if negb exists_ then skip
        else
          read face_recognizer (λ r,
            emit ShowFrame ;;
            match process_frame r (faces fr) with
            | (username, confidence) :: _ =>
                emit UpdateStatus ;;
                read (photo_count username) (λ count,
                  when (count <? MAX_PHOTOS_PER_USER)
                    (when (length (faces fr) =? 1)%nat
                       (save_recognition_photo fr username))) ;;
                emit UpdateWelcomeMessage ;;
                emit TryUnlock ;;
                stop_recognition
            | [] =>
                emit UpdateStatus ;;
                emit UpdateWelcomeMessage
            end))).

(** The frames of one activation, through the recognition callback. *)
Definition process_recognition_frames (frs : list frame) : action :=
  λ a, foldl (λ a fr, process_recognition_frame fr a) a frs.

(** The calls made between two states. *)
Definition new_events (a a' : app) : list event :=
  drop (length (trace a)) (trace a').

Definition unlock_attempts (es : list event) : nat :=
  length (filter (λ e, e = TryUnlock) es).

End Model.

Global Arguments frame : clear implicits.
Global Arguments app : clear implicits.
Global Arguments action : clear implicits.

End App.

(** ** [user_manager.py]: the registry of users *)

Module UserRegistry.
Import UserManager.

(** [get_users]: the user directories, in [os.listdir] order. *)
Definition get_users (fs : store) : list string := (map_to_list fs).*1.

(** The count [add_photo_to_user] returns. *)
Definition add_photo_to_user_count (fs : store) (username stamp : string) (t : Z) : nat :=
  get_user_photo_count (add_photo_to_user fs username stamp t) username.

(** [a] comes before [b] in [l]. *)
Definition before (l : list file) (a b : file) : Prop :=
  ∃ l1 l2 l3, l = l1 ++ a :: l2 ++ b :: l3.

End UserRegistry.

(** ** [face_recognizer.py]: loading the model *)

Module ModelLoading.
Import FaceRecognizer FaceTrainer.

Section Loading.
Context {face model : Type}.

(** The function a model read from the file computes on a face region. *)
Variable predict_of : model → face → prediction.

(** [cv2.face.EigenFaceRecognizer_create()]: a model that was not trained;
    its [predict] raises. *)
Definition untrained : face → prediction := λ _, PredictRaises.

(** [load_model], on the store and the model file as they are;
    [read_raises] tells whether [self.face_recognizer.read] raises on the
    file.  The recogniser it leaves and the boolean it returns. *)
Definition load_model (fs : store) (model_file : option model) (read_raises : bool)
    (r : recognizer face) : recognizer face * bool :=
  match model_file with
  | Some m =>
      if read_raises then
        (Recognizer (user_list r) (confidence_threshold r) true untrained, false)
      else
        (Recognizer (sorted_users fs) (confidence_threshold r) true (predict_of m), true)
  | None =>
      (Recognizer (user_list r) (confidence_threshold r) false (predict r), false)
  end.

(** [FaceRecognizer(model_path, base_dir, confidence_threshold)] *)
Definition new_recognizer (fs : store) (model_file : option model) (read_raises : bool)
    (threshold : Q) : recognizer face :=
  (load_model fs model_file read_raises
     (Recognizer [] threshold (bool_decide (is_Some model_file)) untrained)).1.

End Loading.

End ModelLoading.

(** ** [desbloqueo.py]: deleting a user, the capture loop, the recognition
    process and the lock polling *)

Module AppFlows.
Import UserManager UserRegistry FaceRecognizer App.

Section Flows.
Context {face : Type}.
Context `{tz : !TimeZone}.

Declare Scope flow_scope.
Delimit Scope flow_scope with flow.
Notation "f ;; g" := (andthen (face := face) f g%flow)
  (at level 100, g at level 200, right associativity) : flow_scope.
Local Open Scope flow_scope.

(** *** [FaceRecognitionApp.delete_user]

    [selection] is what the combo box holds, [confirm] the operator's
    answer. *)
Definition delete_user (selection : string) (confirm : bool) : action face :=
  read fs (λ s,
    let users := get_users s in
    if bool_decide (users = []) then emit ShowMessage
    else if String.eqb selection "" then emit ShowMessage
    else if negb (bool_decide (selection ∈ users)) then emit ShowMessage
    else
      emit AskConfirmation ;;
      if confirm then
        let '(s', deleted) := UserManager.delete_user s selection in
        if deleted then
          set_fs s' ;; emit ShowMessage ;; emit UpdateUserList ;; train_model true
        else emit ShowMessage
      else skip).

(** *** [CameraManager._capture_loop], on the frames the device gives *)

(** A frame handed to the callback, with what the operator answers should
    the callback ask. *)
Record delivery := Delivery { d_frame : frame face; d_answers : answers }.

(** [self.frame_callback(frame)].  A registration callback made while no
    user name was set shows the frame and then fails on the path of the
    user. *)
Definition run_callback (dl : delivery) : action face :=
  read camera_manager (λ c,
    match frame_callback c with
    | Some (RegistrationFrame (Some username) target) =>
        process_registration_frame (d_frame dl) (d_answers dl) username target
    | Some (RegistrationFrame None _) =>
        read registration_active (λ active, when active (emit ShowFrame))
    | Some RecognitionFrame => process_recognition_frame (d_frame dl)
    | None => skip
    end).

(** Whether the installed callback raises on a frame: the registration
    callback made without a user name does, after it has shown the frame. *)
Definition callback_raises (a : app face) : bool :=
  match frame_callback (camera_manager a) with
  | Some (RegistrationFrame None _) => registration_active a
  | _ => false
  end.

(** One turn of the loop: what [self.cap.read()] gives, and whether
    [initialize_camera] succeeds should the turn call it.  The read fails
    when it returns no frame or raises. *)
Inductive reading :=
| ReadFails
| ReadGives (dl : delivery).

Record turn := Turn { reads : reading; reinit_ok : bool }.

Definition MAX_FAILURES : nat := 5.

(** Lines 173-183, and 191-200 for a raising callback: one more failure;
    at [max_failures] the camera is initialised again and the count starts
    over, or the flag is cleared and the loop left.  [continue_with] is the
    rest of the loop, from the new count. *)
Definition on_failure (t : turn) (consecutive_failures : nat)
    (continue_with : nat → action face) : action face :=
  if (MAX_FAILURES <=? S consecutive_failures)%nat then
    if reinit_ok t then continue_with O
    else read camera_manager (λ c, set_camera (Camera false (frame_callback c)))
  else continue_with (S consecutive_failures).

(** [while self.is_recording and self.cap is not None], over the turns
    made.  The capture device is held exactly while the flag is up: both
    are set by [start_capture] and cleared by [stop_camera] and by a failed
    [initialize_camera]. *)
Fixpoint capture_loop (turns : list turn) (consecutive_failures : nat) : action face :=
  match turns with
  | [] => skip
  | t :: rest =>
      read camera_manager (λ c,
        if negb (is_recording c) then skip
        else
          match reads t with
          | ReadFails => on_failure t consecutive_failures (capture_loop rest)
          | ReadGives dl =>
              read callback_raises (λ raises,
                run_callback dl ;;
                if raises then on_failure t O (capture_loop rest)
                else capture_loop rest O)
          end)
  end.

(** [_capture_loop]: the count starts at zero. *)
Definition _capture_loop (turns : list turn) : action face := capture_loop turns O.

(** *** [_run_recognition_process]

    One turn of its loop: what [start_capture] finds, the failure count of
    the capture loop (zero for a loop just started, any number for one
    that was running), and the turns the capture loop makes while the
    camera is on. *)
Record cycle := Cycle {
  cyc_capture : capture_env;
  cyc_failures : nat;
  cyc_turns : list turn
}.

Definition capture_starts (e : capture_env) : bool := thread_alive e || camera_ok e.

(** The loop [while self.recognition_active] and the lines after it; when
    the turns run out while the flag is up, the process is still going. *)
Fixpoint run_recognition_process (cycles : list cycle) : action face :=
  read recognition_active (λ active,
    if negb active then stop_camera ;; emit UpdateStatus
    else
      match cycles with
      | [] => skip
      | cy :: rest =>
          start_capture (cyc_capture cy) RecognitionFrame ;;
          if negb (capture_starts (cyc_capture cy)) then
            emit UpdateStatus ;; set_recognition_active false
          else
            emit UpdateStatus ;;
            capture_loop (cyc_turns cy) (cyc_failures cy) ;;
            stop_camera ;;
            emit UpdateStatus ;;
            run_recognition_process rest
      end).

(** *** [start_recognition] and [_manage_recognition_state] *)

(** The state of an activation: the application, the local
    [recognition_process_running], the number of managing threads and of
    recognition threads started, and whether the managing loop has ended. *)
Record activation := Activation {
  act_app : app face;
  process_running : bool;
  managers_started : nat;
  processes_started : nat;
  manager_ended : bool
}.

Definition on_app (f : action face) (m : activation) : activation :=
  Activation (f (act_app m)) (process_running m) (managers_started m)
             (processes_started m) (manager_ended m).

(** [start_recognition]; [ready] tells whether the recogniser and the
    trainer are set, [model_file_exists] whether [MODEL_PATH] exists. *)
Definition start_recognition (ready model_file_exists : bool) (m : activation)
    : activation :=
  if recognition_active (act_app m) then on_app (emit UpdateStatus) m
  else if negb ready then on_app (emit ShowMessage) m
  else if negb model_file_exists then on_app (emit ShowMessage) m
  else
    Activation (emit UpdateStatus (set_recognition_active true (act_app m)))
               false (S (managers_started m)) (processes_started m) false.

(** What one turn of the polling loop finds: what the other threads did
    to the application since the last turn, [is_locked()], and whether a
    recognition thread is alive. *)
Record poll := Poll {
  meanwhile : action face;
  locked : bool;
  process_alive : bool
}.

(** One turn of [while self.recognition_active]. *)
Definition manage_turn (p : poll) (m : activation) : activation :=
  if locked p then
    if negb (process_running m) then
      let m := on_app (emit UpdateStatus) m in
      if negb (process_alive p) then
        Activation (act_app m) true (managers_started m)
                   (S (processes_started m)) (manager_ended m)
      else m
    else on_app (emit UpdateStatus) m
  else
    if process_running m then
      let m := on_app (emit UpdateStatus ;; stop_recognition) m in
      Activation (act_app m) false (managers_started m)
                 (processes_started m) (manager_ended m)
    else on_app (emit UpdateStatus) m.

(** The lines after the loop. *)
Definition manage_exit (m : activation) : activation :=
  let m := if process_running m
           then on_app (emit UpdateStatus ;; stop_recognition) m
           else on_app (emit UpdateStatus) m in
  Activation (act_app m) (process_running m) (managers_started m)
             (processes_started m) true.

(** [_manage_recognition_state], over the polls made; when the polls run
    out while the flag is up, the loop is still going. *)
Fixpoint manage_recognition_state (polls : list poll) (m : activation) : activation :=
  match polls with
  | [] => if recognition_active (act_app m) then m else manage_exit m
  | p :: rest =>
      let m := on_app (meanwhile p) m in
      if recognition_active (act_app m)
      then manage_recognition_state rest (manage_turn p m)
      else manage_exit m
  end.

(** The presses of the start button, one after the other. *)
Definition start_recognition_presses (presses : list (bool * bool)) (m : activation)
    : activation :=
  foldl (λ m p, start_recognition p.1 p.2 m) m presses.

End Flows.

Global Arguments delivery : clear implicits.
Global Arguments reading : clear implicits.
Global Arguments turn : clear implicits.
Global Arguments cycle : clear implicits.
Global Arguments activation : clear implicits.
Global Arguments poll : clear implicits.

(** *** [_perform_training_task] and [_reload_recognizer_model]

    The application with the model file [MODEL_PATH]; the calls the
    training thread hands to the GUI thread run when it hands them over. *)
Section Training.
Import FaceTrainer ModelLoading.
Context {face model : Type}.

Variable imread : string → string → option face.
Variable fit : list (face * Z) → model.
Variable predict_label : model → face → Z.
Variable shuffle : list (face * Z) → list (face * Z).
Variable predict_of : model → face → prediction.

Definition reload_recognizer_model (model_file : option model) (read_raises : bool)
    : action face := λ a,
  MkApp (fs a)
        (new_recognizer predict_of (fs a) model_file read_raises CONFIDENCE_THRESHOLD)
        (recognition_active a) (registration_active a)
        (current_user_registration a) (camera_manager a) (window_exists a)
        (trace a).

Definition perform_training_task (show_message_box read_raises : bool)
    (sys : app face * option model) : app face * option model :=
  match train imread fit predict_label shuffle (fs sys.1) sys.2 with
  | (TrainReturns _, model_file) =>
      (andthen (when show_message_box (emit ShowMessage))
         (andthen (reload_recognizer_model model_file read_raises)
                  (emit UpdateStatus)) sys.1,
       model_file)
  | (TrainRaises, model_file) =>
      (andthen (emit ShowMessage) (emit UpdateStatus) sys.1, model_file)
  end.

(** [_post_gui_setup_tasks]: the recogniser is made, and the operator is
    warned unless the model file exists and the recogniser has users. *)
Definition _post_gui_setup_tasks (model_file : option model) (read_raises : bool)
    : action face :=
  andthen (emit UpdateStatus)
    (andthen (reload_recognizer_model model_file read_raises)
       (read face_recognizer (λ r,
          if bool_decide (is_Some model_file)
             && negb (bool_decide (user_list r = []))
          then emit UpdateStatus
          else andthen (emit UpdateStatus) (emit ShowMessage)))).

End Training.

End AppFlows.

(** ** [desbloqueo.py]: [is_locked] *)

Module LockCheck.

(** [str.startswith] *)
Fixpoint startswith (s prefix : string) {struct prefix} : bool :=
  match prefix with
  | EmptyString => true
  | String c prefix' =>
      match s with
      | EmptyString => false
      | String d s' => Ascii.eqb c d && startswith s' prefix'
      end
  end.

(** [needle in s] on strings. *)
Fixpoint contains (s needle : string) : bool :=
  startswith s needle
  || match s with
     | EmptyString => false
     | String _ s' => contains s' needle
     end.

(** [is_locked], on what [loginctl] printed; [None] when [subprocess.run]
    raises. *)
Definition is_locked (stdout : option string) : bool :=
  match stdout with
  | Some out => contains (FileName.lower out) "yes"
  | None => false
  end.

End LockCheck.

(** ** [camera_manager.py]: [initialize_camera] *)

Module CameraManager.

(** What one attempt on a camera index meets: a call on the device
    raises, the device does not open, or it opens and [frames_leidos] of
    the three reads give a frame. *)
Inductive attempt :=
| AttemptRaises
| NotOpened
| Opened (frames_leidos : nat).

(** [self.cap] when it is not [None]: the device of an index, open or not. *)
Record device := Device { dev_index : nat; is_opened : bool }.

Definition camera_indices : list nat := [0; 1; 2]%nat.
Definition max_attempts : nat := 3.

(** The attempts of the two nested loops, in order. *)
Definition schedule : list (nat * nat) :=
  index ← camera_indices; attempt ← seq 0 max_attempts; [(index, attempt)].

(** The attempts left to make; what is held in [self.cap] is released at
    the start of each. *)
Fixpoint try_attempts (probe : nat → nat → attempt) (todo : list (nat * nat))
    (cap : option device) : bool * option device :=
  match todo with
  | [] => (false, cap)
  | (index, attempt) :: rest =>
      match probe index attempt with
      | AttemptRaises => try_attempts probe rest None
      | NotOpened => try_attempts probe rest (Some (Device index false))
      | Opened frames_leidos =>
          if (0 <? frames_leidos)%nat then (true, Some (Device index true))
          else try_attempts probe rest None
      end
  end.

(** [initialize_camera]: what it returns and [self.cap] afterwards. *)
Definition initialize_camera (probe : nat → nat → attempt) (cap : option device)
    : bool * option device :=
  try_attempts probe schedule cap.

End CameraManager.

(** ** Sample data *)

Module Samples.
Import UserManager FaceRecognizer FaceTrainer App.

(** Time stamps, told apart by their length. *)
Fixpoint unary (n : nat) : string :=
  match n with
  | O => EmptyString
  | S k => String "1" (unary k)
  end.

(** A process in UTC. *)
Definition utc : TimeZone := {| fromtimestamp := λ t, t |}.

(** A zone where daylight saving time ends at [CLOCKS_BACK], as on
    2026-10-25 01:00 UTC in Madrid: two hours ahead of UTC before, one hour
    after. *)
Definition HOUR : Z := 3600000000.
Definition CLOCKS_BACK : Z := 1792890000000000.
Definition madrid : TimeZone :=
  {| fromtimestamp := λ t, if t <? CLOCKS_BACK then t + 2 * HOUR else t + HOUR |}.

Definition sample_now : Z := 200 * US_PER_DAY.

(** A photo written in the first second of the epoch, and one written in
    the last millisecond before [sample_now]. *)
Definition old_photo (i : nat) : file :=
  File (FileName.photo_name (unary i)) (Z.of_nat i).
Definition recent_photo (i : nat) : file :=
  File (FileName.photo_name (unary i)) (sample_now - 1000 + Z.of_nat i).

Definition photos (n_old n_recent : nat) : dir :=
  (old_photo <$> seq 0 n_old) ++ (recent_photo <$> seq n_old n_recent).

(** [n] photos written a microsecond apart from [start] on, named from
    [first] on. *)
Definition photo_at (start : Z) (i : nat) : file :=
  File (FileName.photo_name (unary i)) (start + Z.of_nat i).
Definition photos_from (start : Z) (first n : nat) : dir :=
  photo_at start <$> seq first n.

Definition store_of (d : dir) : store := {[ "alice"%string := d ]}.

Definition small_policy : policy := Policy 2 90 1.
Definition wide_policy : policy := Policy 2 90 5.

(** A window of a million days: no date that far before [sample_now] can
    be written as a [datetime]. *)
Definition long_window_policy : policy := Policy 2 1000000 1.

Definition two_calls : list call :=
  [Call "alice" "a" (sample_now - 2) (sample_now - 1);
   Call "alice" "b" (sample_now - 1) sample_now].

(** A recogniser that knows one user and whose model answers label 1 at
    distance 100 on every face. *)
Definition one_user_recognizer : recognizer unit :=
  Recognizer ["alice"%string] CONFIDENCE_THRESHOLD true (λ _, Predicted 1 (100 # 1)).

(** A recogniser that knows two users and whose model answers label 0 at
    distance 100. *)
Definition two_user_recognizer : recognizer unit :=
  Recognizer ["alice"%string; "bob"%string] CONFIDENCE_THRESHOLD true
             (λ _, Predicted 0 (100 # 1)).

(** A store where one user has a single, readable photo. *)
Definition one_photo_store : store :=
  {[ "alice"%string := [File "face_1.jpg" 0] ]}.

Definition two_photo_store : store :=
  {[ "alice"%string := [File "face_1.jpg" 0; File "face_2.jpg" 1] ]}.

Definition read_any : string → string → option unit := λ _ _, Some tt.
Definition fit_unit : list (unit * Z) → unit := λ _, tt.
Definition predict_zero : unit → unit → Z := λ _ _, 0.
Definition no_shuffle : list (unit * Z) → list (unit * Z) := λ l, l.

Definition sample_app (s : store) (registering recognizing : bool) : app unit :=
  MkApp s two_user_recognizer recognizing registering None
        (Camera false None) true [].

Definition one_face : frame unit := Frame [tt] "new" sample_now sample_now.

(** [n] frames with one face each, a microsecond apart. *)
Definition single_face_frames (n : nat) : list (frame unit) :=
  (λ i, Frame [tt] (unary i) (Z.of_nat i) (Z.of_nat i)) <$> seq 0 n.

Definition alice_confirms : reg_input :=
  RegInput (Some "alice"%string) true (CaptureEnv false true).

(** The operator names alice and confirms while no camera can be opened;
    then the Register button is pressed again, with a camera in place. *)
Definition alice_confirms_no_camera : reg_input :=
  RegInput (Some "alice"%string) true (CaptureEnv false false).
Definition register_pressed_again : reg_input :=
  RegInput None false (CaptureEnv false true).

Definition declines : answers := Answers false alice_confirms.

End Samples.

(** ** Sample data for the flows *)

Module FlowSamples.
Import UserManager FaceRecognizer FaceTrainer App AppFlows Samples.

(** An application in which recognition is active and the camera runs
    with the recognition callback. *)
Definition recognizing_app : app unit :=
  MkApp (store_of (photos 0 3)) two_user_recognizer true false None
        (Camera true (Some RecognitionFrame)) true [].

(** An application in which a registration of alice with target 4 is
    active; she has three photos. *)
Definition registering_app : app unit :=
  MkApp (store_of (photos 0 3)) two_user_recognizer false true (Some "alice"%string)
        (Camera true (Some (RegistrationFrame (Some "alice"%string) 4))) true [].

Definition no_face : frame unit := Frame [] "none" sample_now sample_now.

(** The operator goes on after a session, from inside the callback: the
    capture thread is alive. *)
Definition goes_on : answers :=
  Answers true (RegInput (Some "alice"%string) true (CaptureEnv true true)).

Definition empty_turn : turn unit := Turn (ReadGives (Delivery no_face declines)) false.
Definition face_turn : turn unit := Turn (ReadGives (Delivery one_face declines)) false.
Definition failed_turn : turn unit := Turn ReadFails false.

Definition no_camera_cycle : cycle unit := Cycle (CaptureEnv false false) 0 [].

Definition running_activation : activation unit :=
  Activation recognizing_app true 1 1 false.

Definition unlocked_poll : poll unit := Poll skip false true.

Definition predict_of_unit : unit → unit → prediction := λ _ _, Predicted 0 (100 # 1).

(** A camera at index 1 only. *)
Definition second_camera : nat → nat → CameraManager.attempt :=
  λ index _, if (index =? 1)%nat then CameraManager.Opened 3 else CameraManager.NotOpened.

End FlowSamples.

(** * Properties *)

(** ** File names *)

Section FileNameFacts.
Import FileName.

Lemma append_cons c a b :
  String.append (String c a) b = String c (String.append a b).
Proof. reflexivity. Qed.

Lemma lower_app a b : lower (String.append a b) = String.append (lower a) (lower b).
Proof.
  induction a as [|c a IH]; [done|].
  rewrite append_cons. simpl lower. by rewrite append_cons, IH.
Qed.

Lemma string_length_app a b :
  String.length (String.append a b) = (String.length a + String.length b)%nat.
Proof.
  induction a as [|c a IH]; [done|].
  rewrite append_cons. simpl. by rewrite IH.
Qed.

Lemma substring_all s : String.substring 0 (String.length s) s = s.
Proof. induction s as [|c s IH]; simpl; [done | by rewrite IH]. Qed.

Lemma substring_skip a b k :
  String.substring (String.length a) k (String.append a b) = String.substring 0 k b.
Proof.
  induction a as [|c a IH]; [done|].
  rewrite append_cons. simpl. exact IH.
Qed.

Lemma append_assoc' a b c :
  String.append (String.append a b) c = String.append a (String.append b c).
Proof.
  induction a as [|x a IH]; [done|].
  by rewrite !append_cons, IH.
Qed.

Lemma endswith_app a suf : endswith (String.append a suf) suf = true.
Proof.
  unfold endswith. rewrite string_length_app.
  replace (String.length a + String.length suf - String.length suf)%nat
    with (String.length a) by lia.
  rewrite substring_skip, substring_all, String.eqb_refl.
  rewrite andb_true_r. apply Nat.leb_le. lia.
Qed.

Lemma is_photo_name_photo_name stamp : is_photo_name (photo_name stamp) = true.
Proof.
  unfold is_photo_name, photo_name.
  rewrite !lower_app.
  change (lower ".jpg") with ".jpg"%string.
  rewrite <- (append_assoc' (lower "face_") (lower stamp) ".jpg").
  by rewrite endswith_app.
Qed.

End FileNameFacts.

(** ** The stable sort by creation time *)

Section SortFacts.
Import UserManager.
Context `{tz : !TimeZone}.

Lemma insert_by_ctime_perm x l : insert_by_ctime x l ≡ₚ x :: l.
Proof.
  induction l as [|y l IH]; simpl; [done|].
  destruct (fctime x <=? fctime y); [done|].
  rewrite IH. apply Permutation_swap.
Qed.

Lemma sort_by_ctime_perm l : sort_by_ctime l ≡ₚ l.
Proof.
  induction l as [|x l IH]; simpl; [done|].
  by rewrite insert_by_ctime_perm, IH.
Qed.

Lemma length_sort_by_ctime l : length (sort_by_ctime l) = length l.
Proof. by rewrite sort_by_ctime_perm. Qed.

Lemma insert_by_ctime_sorted x l :
  StronglySorted le_ctime l → StronglySorted le_ctime (insert_by_ctime x l).
Proof.
  induction 1 as [|y l Hs IH Hy]; simpl.
  - repeat constructor.
  - destruct (Z.leb_spec (fctime x) (fctime y)) as [Hle|Hgt].
    + constructor; [by constructor|].
      constructor; [done|].
      eapply Forall_impl; [exact Hy|].
      unfold le_ctime. intros z Hz. lia.
    + constructor; [done|].
      rewrite insert_by_ctime_perm. constructor; [|done].
      unfold le_ctime. lia.
Qed.

Lemma sort_by_ctime_sorted l : StronglySorted le_ctime (sort_by_ctime l).
Proof.
  induction l as [|x l IH]; simpl; [constructor|].
  by apply insert_by_ctime_sorted.
Qed.

Lemma insert_by_ctime_least x l :
  Forall (le_ctime x) l → insert_by_ctime x l = x :: l.
Proof.
  destruct 1 as [|y l Hy _]; simpl; [done|].
  unfold le_ctime in Hy.
  destruct (Z.leb_spec (fctime x) (fctime y)); [done | lia].
Qed.

(** Stability: the sort keeps the relative order of the entries it is not
    asked to move, so it commutes with any selection of entries. *)
Lemma filter_insert_by_ctime (P : file → Prop) `{!∀ f, Decision (P f)} x l :
  StronglySorted le_ctime l →
  filter P (insert_by_ctime x l) =
    if decide (P x) then insert_by_ctime x (filter P l) else filter P l.
Proof.
  induction 1 as [|y l Hs IH Hy]; simpl.
  - rewrite filter_cons, filter_nil. by destruct (decide (P x)).
  - destruct (Z.leb_spec (fctime x) (fctime y)) as [Hle|Hgt].
    + rewrite (filter_cons _ x).
      destruct (decide (P x)) as [Hx|Hx]; [|done].
      rewrite insert_by_ctime_least; [done|].
      apply Forall_forall. intros z Hz.
      apply list_elem_of_filter in Hz as [_ Hz].
      apply elem_of_cons in Hz as [->|Hz]; [done|].
      rewrite Forall_forall in Hy. specialize (Hy z Hz).
      unfold le_ctime in *. lia.
    + rewrite !(filter_cons _ y), IH.
      destruct (decide (P y)) as [Hy'|Hy']; [|done].
      destruct (decide (P x)) as [Hx|Hx]; [|done].
      simpl. destruct (Z.leb_spec (fctime x) (fctime y)); [lia | done].
Qed.

Lemma sort_by_ctime_filter (P : file → Prop) `{!∀ f, Decision (P f)} l :
  sort_by_ctime (filter P l) = filter P (sort_by_ctime l).
Proof.
  induction l as [|x l IH]; simpl; [done|].
  rewrite filter_cons, filter_insert_by_ctime by apply sort_by_ctime_sorted.
  destruct (decide (P x)); simpl; by rewrite IH.
Qed.

(** Basic facts on the test of age. *)
Lemma is_older_than_retention_true pol now ph :
  is_older_than_retention pol now ph = true ↔
  ∃ date, oldest_acceptable_date pol now = Some date
          ∧ fromtimestamp (fctime ph) < date.
Proof.
  unfold is_older_than_retention.
  destruct (oldest_acceptable_date pol now) as [date|].
  - rewrite Z.ltb_lt. split; [eauto|]. by intros (? & [= <-] & ?).
  - split; [done|]. by intros (? & [=] & _).
Qed.

Lemma oldest_acceptable_date_Some pol now date :
  oldest_acceptable_date pol now = Some date →
  date = now - photo_retention_days pol * US_PER_DAY.
Proof.
  unfold oldest_acceptable_date. cbv zeta.
  destruct (_ && _); [|done]. by intros [= <-].
Qed.

Lemma raises_false pol now :
  raises pol now = false ↔
  oldest_acceptable_date pol now = Some (now - photo_retention_days pol * US_PER_DAY).
Proof.
  unfold raises. rewrite bool_decide_eq_false. split.
  - intros Hn. destruct (oldest_acceptable_date pol now) as [date|] eqn:Hd; [|done].
    by rewrite (oldest_acceptable_date_Some _ _ _ Hd).
  - by intros ->.
Qed.

Lemma raises_true pol now :
  raises pol now = true ↔ oldest_acceptable_date pol now = None.
Proof. unfold raises. by rewrite bool_decide_eq_true. Qed.

(** In a sorted list every entry before an old photo is old, where the
    wall clock did not go back between the creation times of the list. *)
Lemma sorted_older_prefix pol now l i ph :
  StronglySorted le_ctime l →
  (∀ f g, f ∈ l → g ∈ l → fctime f ≤ fctime g →
          fromtimestamp (fctime f) ≤ fromtimestamp (fctime g)) →
  l !! i = Some ph →
  is_older_than_retention pol now ph = true →
  Forall (λ f, is_older_than_retention pol now f = true) (take (S i) l).
Proof.
  intros Hs. revert i.
  induction Hs as [|y l Hs IH Hy]; intros i Hmono Hi Hold; [done|].
  destruct i as [|i]; simpl in *.
  - injection Hi as ->. rewrite take_0. by constructor.
  - constructor.
    + rewrite Forall_forall in Hy.
      assert (ph ∈ l) as Hph by (eapply list_elem_of_lookup_2; exact Hi).
      assert (le_ctime y ph) as Hle by (by apply Hy).
      apply is_older_than_retention_true in Hold as (date & Hd & Hlt).
      apply is_older_than_retention_true. exists date. split; [done|].
      pose proof (Hmono y ph) as Hm. unfold le_ctime in Hle.
      rewrite !elem_of_cons in Hm. specialize (Hm (or_introl eq_refl) (or_intror Hph) Hle).
      lia.
    + apply IH; [|done..]. intros f g Hf Hg. apply Hmono; apply elem_of_cons; by right.
Qed.

End SortFacts.

(** ** Directories: listing, removal, and the two loops of the retention pass *)

Section DirFacts.
Import UserManager.
Context `{tz : !TimeZone}.

Lemma filter_all {A} (P : A → Prop) `{!∀ x, Decision (P x)} (l : list A) :
  Forall P l → filter P l = l.
Proof.
  induction 1 as [|x l Hx _ IH]; [done|].
  by rewrite filter_cons_True, IH.
Qed.

Lemma filter_ext_in {A} (P Q : A → Prop)
    `{!∀ x, Decision (P x), !∀ x, Decision (Q x)} (l : list A) :
  Forall (λ x, P x ↔ Q x) l → filter P l = filter Q l.
Proof.
  induction 1 as [|x l Hx _ IH]; [done|].
  rewrite !filter_cons, IH.
  destruct (decide (P x)), (decide (Q x)); tauto.
Qed.

Lemma path_exists_true p d : path_exists p d = true ↔ p ∈ names d.
Proof. unfold path_exists. apply bool_decide_eq_true. Qed.

Lemma path_exists_false p d : path_exists p d = false ↔ p ∉ names d.
Proof. unfold path_exists. apply bool_decide_eq_false. Qed.

Lemma names_filter_elem (P : file → Prop) `{!∀ f, Decision (P f)} p d :
  p ∈ names (filter P d) → p ∈ names d.
Proof.
  unfold names. rewrite !list_elem_of_fmap.
  intros (f & -> & Hf). apply list_elem_of_filter in Hf as [_ Hf]. eauto.
Qed.

Lemma os_remove_absent p d : p ∉ names d → os_remove p d = d.
Proof.
  intros Hp. unfold os_remove.
  induction d as [|f d IH]; [done|].
  unfold names in *. rewrite fmap_cons, not_elem_of_cons in Hp.
  destruct Hp as [Hne Hp].
  rewrite filter_cons_True by done. by rewrite IH.
Qed.

(** The guard [if os.path.exists(p): os.remove(p)] is the removal itself. *)
Lemma remove_if_exists p d :
  (if path_exists p d then os_remove p d else d) = os_remove p d.
Proof.
  destruct (path_exists p d) eqn:He; [done|].
  symmetry. by apply os_remove_absent, path_exists_false.
Qed.

Lemma wf_dir_filter (P : file → Prop) `{!∀ f, Decision (P f)} d :
  wf_dir d → wf_dir (filter P d).
Proof.
  unfold wf_dir, names. induction d as [|f d IH]; [done|].
  rewrite fmap_cons, NoDup_cons. intros [Hf Hd].
  rewrite filter_cons. destruct (decide (P f)); [|by apply IH].
  rewrite fmap_cons, NoDup_cons. split; [|by apply IH].
  intros Hin. apply Hf. by eapply (names_filter_elem P).
Qed.

Lemma names_perm (l1 l2 : list file) : l1 ≡ₚ l2 → names l1 ≡ₚ names l2.
Proof. intros H. unfold names. by rewrite H. Qed.

Lemma wf_photo_files d : wf_dir d → NoDup (names (photo_files d)).
Proof.
  intros Hd. unfold photo_files.
  rewrite (names_perm _ _ (sort_by_ctime_perm _)).
  by apply wf_dir_filter.
Qed.

Lemma elem_of_photo_files f d : f ∈ photo_files d ↔ is_photo f ∧ f ∈ d.
Proof.
  unfold photo_files. rewrite sort_by_ctime_perm. apply list_elem_of_filter.
Qed.

Lemma photo_files_filter (P : file → Prop) `{!∀ f, Decision (P f)} d :
  photo_files (filter P d) = filter P (photo_files d).
Proof.
  unfold photo_files.
  rewrite <- sort_by_ctime_filter. f_equal.
  rewrite !list_filter_filter. apply list_filter_iff. tauto.
Qed.

Lemma is_photo_new stamp t : is_photo (File (FileName.photo_name stamp) t).
Proof. unfold is_photo. simpl. by rewrite is_photo_name_photo_name. Qed.

Lemma photo_files_sorted d : StronglySorted le_ctime (photo_files d).
Proof. apply sort_by_ctime_sorted. Qed.

(** Removing one name from a list of distinct names removes one entry. *)
Lemma length_filter_name (l : list file) p :
  NoDup (names l) → p ∈ names l →
  S (length (filter (λ f, fname f ≠ p) l)) = length l.
Proof.
  unfold names. induction l as [|f l IH]; simpl.
  - intros _ H. by apply elem_of_nil in H.
  - rewrite NoDup_cons. intros [Hf Hl] Hp.
    rewrite filter_cons. destruct (decide (fname f ≠ p)) as [Hne|Heq].
    + simpl. f_equal. apply IH; [done|].
      apply elem_of_cons in Hp as [?|?]; [congruence | done].
    + assert (fname f = p) as <- by (by destruct (decide (fname f = p))).
      f_equal.
      change (filter (λ f0, fname f0 ≠ fname f) l) with (os_remove (fname f) l).
      by rewrite os_remove_absent.
Qed.

(** Dropping the names of the first [n] entries drops those entries. *)
Lemma filter_not_in_take (l : list file) n :
  NoDup (names l) →
  filter (λ f, fname f ∉ names (take n l)) l = drop n l.
Proof.
  unfold names. revert n. induction l as [|f l IH]; intros n Hl.
  - by rewrite drop_nil.
  - destruct n as [|n].
    + rewrite take_0, drop_0. simpl.
      apply filter_all. apply Forall_forall. intros x _.
      apply not_elem_of_nil.
    + apply NoDup_cons in Hl as [Hf Hl].
      simpl. rewrite filter_cons_False
        by (intros H; apply H; apply elem_of_cons; by left).
      rewrite <- (IH n Hl). apply filter_ext_in.
      apply Forall_forall. intros x Hx. rewrite not_elem_of_cons.
      split; [tauto|]. intros H. split; [|done].
      intros Heq. apply Hf. rewrite <- Heq.
      apply list_elem_of_fmap. eauto.
Qed.

End DirFacts.

(** ** The retention pass on one directory *)

Section RetentionFacts.
Import UserManager.
Context `{tz : !TimeZone}.
Variable pol : policy.
Variable now : Z.

Lemma age_step_dir st p : (age_step st p).1 = os_remove p st.1.
Proof.
  unfold age_step. rewrite <- (remove_if_exists p st.1).
  by destruct (path_exists p st.1).
Qed.

(** The age loop removes exactly the entries it was given the names of. *)
Lemma age_loop_dir ps st :
  (foldl age_step st ps).1 = filter (λ f, fname f ∉ ps) st.1.
Proof.
  revert st. induction ps as [|p ps IH]; intros st; simpl.
  - symmetry. apply filter_all, Forall_forall. intros f _. apply not_elem_of_nil.
  - rewrite IH, age_step_dir. unfold os_remove.
    rewrite list_filter_filter. apply list_filter_iff.
    intros f. rewrite not_elem_of_cons. tauto.
Qed.

Lemma elem_of_names_photo_files p d :
  p ∈ names d → FileName.is_photo_name p → p ∈ names (photo_files d).
Proof.
  unfold names. rewrite !list_elem_of_fmap. intros (f & -> & Hf) Hp.
  exists f. split; [done|]. apply elem_of_photo_files. by split.
Qed.

(** [current_total_photos] keeps counting the photo files of the directory. *)
Lemma age_step_count st p :
  wf_dir st.1 → FileName.is_photo_name p →
  Z.of_nat (length (photo_files st.1)) = st.2 →
  wf_dir (age_step st p).1 ∧
  Z.of_nat (length (photo_files (age_step st p).1)) = (age_step st p).2.
Proof.
  intros Hwf Hp Hc. unfold age_step.
  destruct (path_exists p st.1) eqn:He; [|done]. simpl.
  split; [by apply wf_dir_filter|].
  apply path_exists_true in He.
  unfold os_remove. rewrite photo_files_filter.
  pose proof (length_filter_name (photo_files st.1) p
                (wf_photo_files _ Hwf)
                (elem_of_names_photo_files _ _ He Hp)).
  lia.
Qed.

Lemma age_loop_count ps st :
  wf_dir st.1 → Forall (λ p, FileName.is_photo_name p) ps →
  Z.of_nat (length (photo_files st.1)) = st.2 →
  wf_dir (foldl age_step st ps).1 ∧
  Z.of_nat (length (photo_files (foldl age_step st ps).1)) = (foldl age_step st ps).2.
Proof.
  intros Hwf Hps. revert st Hwf.
  induction Hps as [|p ps Hp _ IH]; intros st Hwf Hc; simpl; [done|].
  destruct (age_step_count st p Hwf Hp Hc) as [Hwf' Hc'].
  by apply IH.
Qed.

Lemma elem_of_enumerate_from k l i x :
  (i, x) ∈ enumerate_from k l ↔ (k ≤ i)%nat ∧ l !! (i - k)%nat = Some x.
Proof.
  revert k. induction l as [|y l IH]; intros k; simpl.
  - rewrite elem_of_nil. split; [done|]. intros [_ Hl]. by rewrite lookup_nil in Hl.
  - rewrite elem_of_cons, IH. split.
    + intros [Heq|[Hle Hl]].
      * injection Heq as -> ->. split; [lia|]. by rewrite Nat.sub_diag.
      * split; [lia|]. by replace (i - k)%nat with (S (i - S k)) by lia.
    + intros [Hle Hl]. destruct (decide (i = k)) as [->|Hne].
      * rewrite Nat.sub_diag in Hl. left. simpl in Hl. congruence.
      * right. split; [lia|].
        by replace (i - k)%nat with (S (i - S k)) in Hl by lia.
Qed.

(** A name is handed to the age loop iff it is the name of a listed photo
    that is older than the retention window and not among the newest
    [min_recent_photos_to_keep]. *)
Lemma elem_of_photos_eligible l p :
  p ∈ photos_eligible_for_deletion pol now l ↔
  ∃ i ph, l !! i = Some ph ∧ fname ph = p ∧
          is_older_than_retention pol now ph = true ∧
          is_not_among_recent_n pol (Z.of_nat (length l)) i = true.
Proof.
  unfold photos_eligible_for_deletion. rewrite list_elem_of_fmap. split.
  - intros ([i ph] & -> & Hin). apply list_elem_of_In, filter_In in Hin.
    destruct Hin as [Hin Hel]. apply list_elem_of_In in Hin.
    apply elem_of_enumerate_from in Hin as [_ Hl].
    rewrite Nat.sub_0_r in Hl. unfold eligible in Hel.
    apply andb_true_iff in Hel as [Ho Hr]. simpl in *. eauto 10.
  - intros (i & ph & Hl & <- & Ho & Hr). exists (i, ph). split; [done|].
    apply list_elem_of_In, filter_In. split.
    + apply list_elem_of_In, elem_of_enumerate_from.
      split; [lia|]. by rewrite Nat.sub_0_r.
    + unfold eligible. simpl. by rewrite Ho, Hr.
Qed.

Lemma photos_eligible_are_photos d :
  Forall (λ p, FileName.is_photo_name p)
         (photos_eligible_for_deletion pol now (photo_files d)).
Proof.
  apply Forall_forall. intros p Hp.
  apply elem_of_photos_eligible in Hp as (i & ph & Hl & <- & _).
  apply list_elem_of_lookup_2, elem_of_photo_files in Hl as [Hph _]. exact Hph.
Qed.

Lemma age_phase_dir d :
  (age_phase pol now d).1 =
    filter (λ f, fname f ∉ photos_eligible_for_deletion pol now (photo_files d)) d.
Proof. unfold age_phase. by rewrite age_loop_dir. Qed.

(** After the age phase the tracked count is the number of photo files. *)
Lemma age_phase_count d :
  wf_dir d →
  wf_dir (age_phase pol now d).1 ∧
  Z.of_nat (length (photo_files (age_phase pol now d).1)) = (age_phase pol now d).2.
Proof.
  intros Hwf. unfold age_phase.
  apply age_loop_count; [done | apply photos_eligible_are_photos | done].
Qed.

(** The trimming loop removes the entries named by the first [n] photos of
    the list fetched before the loop. *)
Lemma trim_loop_seq after n k d :
  trim_loop after (seq k n) d =
    filter (λ f, fname f ∉ names (take n (drop k after))) d.
Proof.
  revert k d. induction n as [|n IH]; intros k d; simpl.
  - symmetry. apply filter_all, Forall_forall.
    intros f _. apply not_elem_of_nil.
  - destruct (after !! k) as [ph|] eqn:Hk.
    + rewrite remove_if_exists, IH. unfold os_remove.
      rewrite (drop_S _ _ _ Hk). simpl.
      rewrite list_filter_filter. apply list_filter_iff.
      intros f. rewrite not_elem_of_cons. tauto.
    + apply lookup_ge_None in Hk. rewrite drop_ge by done. simpl.
      symmetry. apply filter_all, Forall_forall.
      intros f _. apply not_elem_of_nil.
Qed.

Lemma ceiling_phase_dir st :
  max_photos_per_user pol < st.2 →
  ceiling_phase pol st =
    filter (λ f, fname f ∉
              names (take (Z.to_nat (st.2 - max_photos_per_user pol))
                          (photo_files st.1))) st.1.
Proof.
  intros Hgt. unfold ceiling_phase.
  destruct (Z.ltb_spec (max_photos_per_user pol) st.2); [|lia].
  by rewrite trim_loop_seq, drop_0.
Qed.

Lemma ceiling_phase_skip st :
  st.2 ≤ max_photos_per_user pol → ceiling_phase pol st = st.1.
Proof.
  intros Hle. unfold ceiling_phase.
  destruct (Z.ltb_spec (max_photos_per_user pol) st.2); [lia|done].
Qed.

(** The photos left by the ceiling phase: the list fetched before it, less
    its first [current_total_photos - max_photos_per_user] entries. *)
Lemma ceiling_phase_photo_files st :
  wf_dir st.1 →
  max_photos_per_user pol < st.2 →
  photo_files (ceiling_phase pol st) =
    drop (Z.to_nat (st.2 - max_photos_per_user pol)) (photo_files st.1).
Proof.
  intros Hwf Hgt. rewrite ceiling_phase_dir by done.
  rewrite photo_files_filter.
  by apply filter_not_in_take, wf_photo_files.
Qed.

Lemma wf_ceiling_phase st : wf_dir st.1 → wf_dir (ceiling_phase pol st).
Proof.
  intros Hwf.
  destruct (Z.lt_ge_cases (max_photos_per_user pol) st.2) as [Hgt|Hle].
  - rewrite ceiling_phase_dir by done. by apply wf_dir_filter.
  - by rewrite ceiling_phase_skip.
Qed.

(** The pass when line 153 gives the date, and when it raises. *)
Lemma manage_retention_returns d :
  raises pol now = false →
  manage_retention pol now d = ceiling_phase pol (age_phase pol now d).
Proof.
  intros Hr. apply raises_false in Hr. unfold manage_retention. by rewrite Hr.
Qed.

Lemma manage_retention_raises d :
  raises pol now = true → manage_retention pol now d = d.
Proof.
  intros Hr. apply raises_true in Hr. unfold manage_retention. by rewrite Hr.
Qed.

Lemma raises_cases : raises pol now = false ∨ raises pol now = true.
Proof. destruct (raises pol now); auto. Qed.

Lemma wf_manage_retention d : wf_dir d → wf_dir (manage_retention pol now d).
Proof.
  intros Hwf. destruct raises_cases as [Hr|Hr].
  - rewrite manage_retention_returns by done.
    apply wf_ceiling_phase. by apply age_phase_count.
  - by rewrite manage_retention_raises.
Qed.

(** One retention pass that returns leaves at most [max_photos_per_user]
    photos. *)
Lemma manage_retention_count d :
  wf_dir d → 0 ≤ max_photos_per_user pol →
  raises pol now = false →
  Z.of_nat (length (photo_files (manage_retention pol now d)))
    ≤ max_photos_per_user pol.
Proof.
  intros Hwf Hmax Hr. rewrite manage_retention_returns by done.
  destruct (age_phase_count d Hwf) as [Hwf1 Hc].
  destruct (Z.lt_ge_cases (max_photos_per_user pol) (age_phase pol now d).2)
    as [Hgt|Hle].
  - rewrite ceiling_phase_photo_files, length_drop by done. lia.
  - rewrite ceiling_phase_skip by done. lia.
Qed.

End RetentionFacts.

(** ** The store: one call and runs of calls *)

Section StoreFacts.
Import UserManager.
Context `{tz : !TimeZone}.

Lemma names_imwrite_exists p t d :
  names ((λ f, if decide (fname f = p) then File p t else f) <$> d) = names d.
Proof.
  unfold names. rewrite <- list_fmap_compose. apply list_fmap_ext.
  intros i f _. simpl. by destruct (decide (fname f = p)).
Qed.

Lemma wf_imwrite p t d : wf_dir d → wf_dir (imwrite p t d).
Proof.
  intros Hwf. unfold imwrite, wf_dir.
  destruct (path_exists p d) eqn:He.
  - by rewrite names_imwrite_exists.
  - apply path_exists_false in He. unfold names in *.
    rewrite fmap_app. apply NoDup_app. split; [done|]. split.
    + intros q Hq Hq'. apply list_elem_of_singleton in Hq'. by subst q.
    + apply NoDup_singleton.
Qed.

Lemma imwrite_fresh p t d :
  path_exists p d = false → imwrite p t d = d ++ [File p t].
Proof. intros He. unfold imwrite. by rewrite He. Qed.

Lemma wf_dir_snoc (d : dir) f :
  wf_dir d → path_exists (fname f) d = false → wf_dir (d ++ [f]).
Proof.
  intros Hwf Hf. pose proof (wf_imwrite (fname f) (fctime f) d Hwf) as H.
  rewrite imwrite_fresh in H by done. by destruct f.
Qed.

Lemma add_photo_to_user_lookup (fs : store) u stamp t :
  add_photo_to_user fs u stamp t !! u =
    Some (imwrite (FileName.photo_name stamp) t (default [] (fs !! u))).
Proof. unfold add_photo_to_user. by rewrite lookup_insert_eq. Qed.

(** The directory a call leaves to its user. *)
Lemma save_lookup pol (fs : store) u stamp t now :
  save_recognition_photo_and_manage_retention pol fs u stamp t now !! u =
    Some (manage_retention pol now
            (imwrite (FileName.photo_name stamp) t (default [] (fs !! u)))).
Proof.
  unfold save_recognition_photo_and_manage_retention.
  rewrite add_photo_to_user_lookup. by rewrite lookup_insert_eq.
Qed.

(** A call leaves the directories of the other users alone. *)
Lemma save_lookup_ne pol (fs : store) u v stamp t now :
  u ≠ v →
  save_recognition_photo_and_manage_retention pol fs u stamp t now !! v = fs !! v.
Proof.
  intros Hne. unfold save_recognition_photo_and_manage_retention.
  rewrite add_photo_to_user_lookup. unfold add_photo_to_user.
  by rewrite !lookup_insert_ne.
Qed.

Lemma wf_default_dir (fs : store) u : wf_store fs → wf_dir (default [] (fs !! u)).
Proof.
  intros Hfs. destruct (fs !! u) as [d|] eqn:Hu; simpl.
  - by eapply Hfs.
  - apply NoDup_nil_2.
Qed.

Lemma wf_save pol (fs : store) u stamp t now :
  wf_store fs →
  wf_store (save_recognition_photo_and_manage_retention pol fs u stamp t now).
Proof.
  intros Hfs v d Hv. destruct (decide (u = v)) as [<-|Hne].
  - rewrite save_lookup in Hv. injection Hv as <-.
    by apply wf_manage_retention, wf_imwrite, wf_default_dir.
  - rewrite save_lookup_ne in Hv by done. by eapply Hfs.
Qed.

Lemma wf_run_calls pol (fs : store) cs :
  wf_store fs → wf_store (run_calls pol fs cs).
Proof.
  revert fs. induction cs as [|c cs IH]; intros fs Hfs; simpl; [done|].
  by apply IH, wf_save.
Qed.

Lemma run_calls_snoc pol (fs : store) cs c :
  run_calls pol fs (cs ++ [c]) = run_call pol (run_calls pol fs cs) c.
Proof. unfold run_calls. by rewrite foldl_app. Qed.

(** After one call that returns its user holds at most
    [max_photos_per_user] photos. *)
Lemma save_count pol (fs : store) u stamp t now :
  wf_store fs → 0 ≤ max_photos_per_user pol →
  raises pol now = false →
  Z.of_nat (get_user_photo_count
              (save_recognition_photo_and_manage_retention pol fs u stamp t now) u)
    ≤ max_photos_per_user pol.
Proof.
  intros Hfs Hmax Hr. unfold get_user_photo_count, get_user_photo_files.
  rewrite save_lookup.
  apply manage_retention_count; [|done..].
  by apply wf_imwrite, wf_default_dir.
Qed.

(** A call that raises leaves the store as [add_photo_to_user] made it. *)
Lemma save_raises pol (fs : store) u stamp t now :
  raises pol now = true →
  save_recognition_photo_and_manage_retention pol fs u stamp t now
    = add_photo_to_user fs u stamp t.
Proof.
  intros Hr. unfold save_recognition_photo_and_manage_retention.
  rewrite add_photo_to_user_lookup, manage_retention_raises by done.
  apply insert_id. apply add_photo_to_user_lookup.
Qed.

End StoreFacts.

(** ** The retention pass: ceiling, age phase, ceiling phase, scenarios *)

Section RetentionClaims.
Import UserManager.
Context `{tz : !TimeZone}.

(** A user no call was made for has the directory it had. *)
Lemma run_calls_untouched pol (fs : store) (cs : list call) (u : string) :
  u ∉ c_user <$> cs → run_calls pol fs cs !! u = fs !! u.
Proof.
  induction cs as [|c cs IH] using rev_ind; intros Hu; [done|].
  rewrite fmap_app, not_elem_of_app in Hu. destruct Hu as [Hu Hc].
  rewrite run_calls_snoc. unfold run_call.
  rewrite save_lookup_ne; [by apply IH|].
  intros Heq. apply Hc. rewrite <- Heq. simpl. apply elem_of_cons. by left.
Qed.

Lemma run_calls_app pol (fs : store) cs1 cs2 :
  run_calls pol fs (cs1 ++ cs2) = run_calls pol (run_calls pol fs cs1) cs2.
Proof. unfold run_calls. by rewrite foldl_app. Qed.

(** After a call that returned, and until the next call for its user,
    the user holds at most [max_photos_per_user] photos. *)
Lemma run_calls_ceiling pol (fs : store) (cs1 cs2 : list call) (c : call) :
  wf_store fs →
  0 ≤ max_photos_per_user pol →
  raises pol (c_now c) = false →
  c_user c ∉ c_user <$> cs2 →
  Z.of_nat (get_user_photo_count (run_calls pol fs (cs1 ++ c :: cs2)) (c_user c))
    ≤ max_photos_per_user pol.
Proof.
  intros Hfs Hmax Hr Hu.
  rewrite (run_calls_app pol fs cs1 (c :: cs2)).
  change (run_calls pol (run_calls pol fs cs1) (c :: cs2))
    with (run_calls pol (run_call pol (run_calls pol fs cs1) c) cs2).
  unfold get_user_photo_count, get_user_photo_files.
  rewrite run_calls_untouched by done.
  apply (save_count pol (run_calls pol fs cs1)); [by apply wf_run_calls | done..].
Qed.

(** C1. Retention ceiling.  User names are single path components.  A
    call of [save_recognition_photo_and_manage_retention] returns unless
    line 153 raises.  Along any run of calls, from any store, after each
    call that returns its user holds at most [max_photos_per_user] photos,
    and so until the next call for that user; from the empty store, where
    the calls are the only source of photos, every user does after a run
    in which every call returns.  A call that raises does so after it
    wrote the photo and before it removed any: it leaves the store as
    [add_photo_to_user] made it.  The ceiling is a count, hence not
    negative. *)
Theorem retention_ceiling pol :
  0 ≤ max_photos_per_user pol →
  (∀ (fs : store) (cs : list call) (c : call),
     wf_store fs →
     Forall (λ c, plain_name (c_user c) = true) (cs ++ [c]) →
     raises pol (c_now c) = false →
     Z.of_nat (get_user_photo_count (run_calls pol fs (cs ++ [c])) (c_user c))
       ≤ max_photos_per_user pol)
  ∧ (∀ (fs : store) (cs1 cs2 : list call) (c : call),
       wf_store fs →
       Forall (λ c, plain_name (c_user c) = true) (cs1 ++ c :: cs2) →
       raises pol (c_now c) = false →
       c_user c ∉ c_user <$> cs2 →
       Z.of_nat (get_user_photo_count (run_calls pol fs (cs1 ++ c :: cs2)) (c_user c))
         ≤ max_photos_per_user pol)
  ∧ (∀ (cs : list call) (u : string),
       plain_name u = true →
       Forall (λ c, plain_name (c_user c) = true) cs →
       Forall (λ c, raises pol (c_now c) = false) cs →
       Z.of_nat (get_user_photo_count (run_calls pol ∅ cs) u)
         ≤ max_photos_per_user pol)
  ∧ (∀ (fs : store) (c : call),
       raises pol (c_now c) = true →
       run_call pol fs c
         = add_photo_to_user fs (c_user c) (c_stamp c) (c_ctime c)).
Proof.
  intros Hmax. split; [|split; [|split]].
  - intros fs cs c Hfs _ Hr.
    apply (run_calls_ceiling pol fs cs [] c); try done.
    apply not_elem_of_nil.
  - intros fs cs1 cs2 c Hfs _ Hr Hu. by apply run_calls_ceiling.
  - intros cs u _ _ Hall.
    assert (wf_store (∅ : store)) as Hwf
      by (intros v d Hv; by rewrite lookup_empty in Hv).
    induction cs as [|c cs IH] using rev_ind.
    + unfold get_user_photo_count, get_user_photo_files. simpl.
      rewrite lookup_empty. simpl. lia.
    + apply Forall_app in Hall as [Hall Hc]. apply Forall_cons in Hc as [Hc _].
      destruct (decide (c_user c = u)) as [<-|Hne].
      * apply (run_calls_ceiling pol ∅ cs [] c); try done.
        apply not_elem_of_nil.
      * rewrite run_calls_snoc. unfold run_call.
        unfold get_user_photo_count, get_user_photo_files in *.
        rewrite save_lookup_ne by done. by apply IH.
  - intros fs c Hr. by apply save_raises.
Qed.

(** The photo at position [i] of the fetched list is gone after the age
    phase iff it passed the two tests of the loop. *)
Lemma age_phase_deleted_iff pol now (d : dir) (i : nat) (ph : file) :
  wf_dir d →
  photo_files d !! i = Some ph →
  path_exists (fname ph) (age_phase pol now d).1 = false ↔
  is_older_than_retention pol now ph = true
  ∧ is_not_among_recent_n pol (Z.of_nat (length (photo_files d))) i = true.
Proof.
  intros Hwf Hi. rewrite path_exists_false, age_phase_dir.
  assert (ph ∈ d) as Hph
    by (eapply list_elem_of_lookup_2, elem_of_photo_files in Hi; tauto).
  assert (fname ph ∈ names (filter
            (λ f, fname f ∉ photos_eligible_for_deletion pol now (photo_files d)) d)
          ↔ fname ph ∉ photos_eligible_for_deletion pol now (photo_files d))
    as ->.
  { unfold names. rewrite list_elem_of_fmap. split.
    - intros (f & Heq & Hf). apply list_elem_of_filter in Hf as [Hf _].
      by rewrite Heq.
    - intros Hne. exists ph. split; [done|]. by apply list_elem_of_filter. }
  split.
  - intros Hnn. apply dec_stable, elem_of_photos_eligible in Hnn.
    destruct Hnn as (j & ph' & Hj & Heq & Ho & Hr).
    assert (j = i) as ->.
    { eapply NoDup_lookup; [by apply (wf_photo_files d)| |].
      - unfold names. rewrite list_lookup_fmap, Hj. simpl. by rewrite Heq.
      - unfold names. by rewrite list_lookup_fmap, Hi. }
    assert (ph' = ph) as -> by congruence. done.
  - intros [Ho Hr] Hne. apply Hne, elem_of_photos_eligible. by exists i, ph.
Qed.

(** C2, amended.  The age of a photo is taken on the wall clock: it is the
    naive local datetime of the call less that of the creation of the
    photo.  In a pass in which line 153 gives the date, in the list of [N]
    photos fetched after the new photo was written, the photo at position
    [i] is gone after the age-based phase iff its wall-clock age exceeds
    [photo_retention_days] and [N - 1 - i >= min_recent_photos_to_keep].
    Whatever the policy, the newest [min_recent_photos_to_keep] photos and
    every photo whose wall-clock age does not exceed the retention window
    are still there.  Where the zone is as far from UTC at the call as at
    the creation of the photo, the wall-clock age is the time elapsed. *)
Theorem age_phase_deletes_iff pol now (d : dir) (i : nat) (ph : file) :
  wf_dir d →
  photo_files d !! i = Some ph →
  let N := Z.of_nat (length (photo_files d)) in
  let deleted := path_exists (fname ph) (age_phase pol now d).1 = false in
  let wall_clock_age := now - fromtimestamp (fctime ph) in
  (raises pol now = false →
   (deleted ↔
      photo_retention_days pol * US_PER_DAY < wall_clock_age ∧
      N - 1 - Z.of_nat i >= min_recent_photos_to_keep pol))
  ∧ (N - 1 - Z.of_nat i < min_recent_photos_to_keep pol → ¬ deleted)
  ∧ (wall_clock_age ≤ photo_retention_days pol * US_PER_DAY → ¬ deleted)
  ∧ (∀ called : Z,
       now = fromtimestamp called →
       fromtimestamp called - called = fromtimestamp (fctime ph) - fctime ph →
       wall_clock_age = called - fctime ph).
Proof.
  intros Hwf Hi N deleted wall_clock_age.
  pose proof (age_phase_deleted_iff pol now d i ph Hwf Hi) as Hiff.
  fold deleted in Hiff. fold N in Hiff.
  unfold is_not_among_recent_n in Hiff. rewrite Z.leb_le in Hiff.
  split; [|split; [|split]].
  - intros Hr. apply raises_false in Hr. rewrite Hiff.
    rewrite is_older_than_retention_true, Hr. unfold wall_clock_age. split.
    + intros [(date & [= <-] & Hlt) Hrec]. lia.
    + intros [Hlt Hrec]. split; [|lia]. eexists. split; [done|]. lia.
  - intros Hrec Hd. apply Hiff in Hd. lia.
  - intros Hage Hd. apply Hiff in Hd as [Ho _].
    apply is_older_than_retention_true in Ho as (date & Hd & Hlt).
    apply oldest_acceptable_date_Some in Hd. unfold wall_clock_age in Hage. lia.
  - intros called -> Hoff. unfold wall_clock_age. lia.
Qed.

End RetentionClaims.


Section RaisingCall.
Import UserManager Samples.
Local Existing Instance utc.

(** The error path of C1 at a window of a million days: line 153 raises,
    and the user, who held two photos under a ceiling of two, is left with
    three. *)
Example raising_call_leaves_photo :
  let c := Call "alice" "a" (sample_now - 2) sample_now in
  raises long_window_policy (c_now c) = true
  ∧ get_user_photo_count (store_of (photos 0 2)) "alice" = 2%nat
  ∧ get_user_photo_count
      (run_call long_window_policy (store_of (photos 0 2)) c) "alice" = 3%nat.
Proof. cbv zeta. repeat split; compute_done. Qed.

End RaisingCall.

Section DaylightSaving.
Import UserManager Samples.
Local Existing Instance madrid.

(** C2, as stated: a photo older than [photo_retention_days] that is not
    among the newest [min_recent_photos_to_keep] is deleted by the age-based
    phase.  It fails where daylight saving time ended between the creation
    of the photo and the call.  In the zone [madrid], a photo made the day
    before the clocks went back is 90 days and 30 minutes old at the call;
    it is the older of two photos and the policy keeps the newest one.  On
    the wall clock it is 89 days and 23 and a half hours old, and the
    age-based phase leaves it. *)
Lemma age_phase_keeps_old_photo_across_dst :
  let created := CLOCKS_BACK - US_PER_DAY in
  let called := created + 90 * US_PER_DAY + 30 * 60000000 in
  let old := File "face_a.jpg" created in
  let d := [old; File "face_b.jpg" (called - 1)] in
  let N := Z.of_nat (length (photo_files d)) in
  let deleted :=
    path_exists (fname old) (age_phase small_policy (fromtimestamp called) d).1 = false in
  wf_dir d
  ∧ photo_files d !! 0%nat = Some old
  ∧ raises small_policy (fromtimestamp called) = false
  ∧ ¬ (deleted ↔
         photo_retention_days small_policy * US_PER_DAY < called - fctime old
         ∧ N - 1 - 0 >= min_recent_photos_to_keep small_policy).
Proof.
  cbv zeta. split; [compute_done|]. split; [compute_done|].
  split; [compute_done|]. intros [_ H].
  assert (true = false) as Habs; [|discriminate Habs].
  etransitivity; [|apply H; split; compute_done]. symmetry. compute_done.
Qed.

End DaylightSaving.
(** ** Old photos in a sorted list, and the two retention scenarios *)

Section ScenarioFacts.
Import UserManager.
Context `{tz : !TimeZone}.
Variable pol : policy.
Variable now : Z.

Abbreviation older := (λ f : file, is_older_than_retention pol now f = true).

Lemma length_filter_split {A} (P : A → Prop) `{!∀ x, Decision (P x)} (l : list A) :
  (length (filter P l) + length (filter (λ x, ¬ P x) l) = length l)%nat.
Proof.
  induction l as [|x l IH]; [done|].
  rewrite !filter_cons.
  destruct (decide (P x)), (decide (¬ P x)); simpl; try tauto; lia.
Qed.

Lemma dir_name_inj (d : dir) f g :
  wf_dir d → f ∈ d → g ∈ d → fname f = fname g → f = g.
Proof.
  intros Hwf Hf Hg Heq.
  apply list_elem_of_lookup in Hf as [i Hi].
  apply list_elem_of_lookup in Hg as [j Hj].
  assert (i = j) as ->; [|congruence].
  eapply NoDup_lookup; [exact Hwf| |].
  - unfold names. rewrite list_lookup_fmap, Hi. done.
  - unfold names. rewrite list_lookup_fmap, Hj. simpl. by rewrite Heq.
Qed.

(** An old photo at position [i] of a sorted list has [i] old photos
    before it, where the wall clock did not go back between the creation
    times of the list. *)
Lemma older_index_bound l i ph :
  StronglySorted le_ctime l →
  (∀ f g, f ∈ l → g ∈ l → fctime f ≤ fctime g →
          fromtimestamp (fctime f) ≤ fromtimestamp (fctime g)) →
  l !! i = Some ph → older ph →
  (S i ≤ length (filter older l))%nat.
Proof.
  intros Hs Hmono Hi Ho.
  pose proof (sorted_older_prefix pol now l i ph Hs Hmono Hi Ho) as Hpre.
  rewrite <- (take_drop (S i) l) at 1.
  rewrite filter_app, length_app, (filter_all _ _ Hpre), length_take.
  apply lookup_lt_Some in Hi. lia.
Qed.

(** A photo tests as old only in a pass in which line 153 gave the date. *)
Lemma older_not_raises ph : older ph → raises pol now = false.
Proof.
  intros Ho. apply is_older_than_retention_true in Ho as (date & Hd & _).
  apply raises_false. by rewrite <- (oldest_acceptable_date_Some _ _ _ Hd).
Qed.

Lemma photos_eligible_nil l :
  Forall (λ f, is_older_than_retention pol now f = false) l →
  photos_eligible_for_deletion pol now l = [].
Proof.
  intros Hl.
  destruct (photos_eligible_for_deletion pol now l) as [|p ps] eqn:He; [done|].
  assert (p ∈ photos_eligible_for_deletion pol now l) as Hp
    by (rewrite He; apply elem_of_cons; by left).
  apply elem_of_photos_eligible in Hp as (i & ph & Hi & _ & Ho & _).
  rewrite Forall_forall in Hl.
  apply list_elem_of_lookup_2, Hl in Hi. congruence.
Qed.

(** Where every old photo lies outside the newest
    [min_recent_photos_to_keep], the age phase removes exactly the old
    photos. *)
Lemma age_phase_dir_old (d : dir) :
  wf_dir d →
  (∀ i ph, photo_files d !! i = Some ph → older ph →
           is_not_among_recent_n pol (Z.of_nat (length (photo_files d))) i = true) →
  (age_phase pol now d).1 = filter (λ f, ¬ (is_photo f ∧ older f)) d.
Proof.
  intros Hwf Hrec. rewrite age_phase_dir.
  apply filter_ext_in, Forall_forall. intros f Hf.
  rewrite elem_of_photos_eligible. split.
  - intros Hne [Hph Ho]. apply Hne.
    assert (f ∈ photo_files d) as Hin by (by apply elem_of_photo_files).
    apply list_elem_of_lookup in Hin as [i Hi].
    exists i, f. eauto.
  - intros Hn (i & ph & Hi & Heq & Ho & _). apply Hn.
    pose proof Hi as Hin.
    apply list_elem_of_lookup_2, elem_of_photo_files in Hin as [Hph Hin].
    assert (ph = f) as <- by (by eapply dir_name_inj).
    done.
Qed.

Lemma photo_files_not_old (d : dir) :
  photo_files (filter (λ f, ¬ (is_photo f ∧ older f)) d) =
    filter (λ f, ¬ older f) (photo_files d).
Proof.
  rewrite photo_files_filter. apply filter_ext_in, Forall_forall.
  intros f Hf. apply elem_of_photo_files in Hf as [Hph _]. tauto.
Qed.

Lemma photo_files_snoc (d : dir) f :
  is_photo f → photo_files (d ++ [f]) ≡ₚ f :: photo_files d.
Proof.
  intros Hf. unfold photo_files.
  rewrite !sort_by_ctime_perm, filter_app, filter_cons_True by done.
  rewrite filter_nil. symmetry. apply Permutation_cons_append.
Qed.

End ScenarioFacts.

Section ScenarioClaims.
Import UserManager.
Context `{tz : !TimeZone}.

Lemma app_policy_scenario_counts now (d : dir) (new : file) :
  is_photo new →
  is_older_than_retention app_policy now new = false →
  length (filter (λ f, is_older_than_retention app_policy now f = true)
                 (photo_files d)) = 60%nat →
  length (filter (λ f, is_older_than_retention app_policy now f = false)
                 (photo_files d)) = 50%nat →
  length (photo_files (d ++ [new])) = 111%nat ∧
  length (filter (λ f, is_older_than_retention app_policy now f = true)
                 (photo_files (d ++ [new]))) = 60%nat.
Proof.
  intros Hph Hnew H60 H50.
  pose proof (length_filter_split
    (λ f, is_older_than_retention app_policy now f = true) (photo_files d)) as Hs.
  cbv beta in Hs.
  assert (filter (λ f, ¬ is_older_than_retention app_policy now f = true)
                 (photo_files d)
          = filter (λ f, is_older_than_retention app_policy now f = false)
                   (photo_files d)) as E
    by (apply list_filter_iff; intros f;
        by destruct (is_older_than_retention app_policy now f)).
  rewrite E in Hs.
  rewrite (photo_files_snoc d new Hph). split; [simpl; lia|].
  rewrite filter_cons_False by congruence. done.
Qed.

(** C3, amended.  Age is taken on the wall clock.  Under the policy
    (100, 90 days, 50), for a user whose directory holds 60 photos made, by
    the wall clock, more than 90 days before the call and 50 that were
    not, where the wall clock did not go back between the creation times of
    the photos, one call that writes a photo under a fresh name removes
    exactly the old photos from the directory, leaves 51 photos (those
    that were not old and the new one), and the hard-ceiling phase removes
    nothing: the tracked count is 51 when it starts. *)
Theorem retention_trim_scenario (fs : store) (u stamp : string) (d : dir) (t now : Z) :
  let older := λ f : file, is_older_than_retention app_policy now f in
  let new := File (FileName.photo_name stamp) t in
  let fs' := save_recognition_photo_and_manage_retention app_policy fs u stamp t now in
  let st := age_phase app_policy now (d ++ [new]) in
  fs !! u = Some d →
  wf_dir d →
  length (filter (λ f, older f = true) (photo_files d)) = 60%nat →
  length (filter (λ f, older f = false) (photo_files d)) = 50%nat →
  path_exists (fname new) d = false →
  older new = false →
  (∀ f g, f ∈ photo_files (d ++ [new]) → g ∈ photo_files (d ++ [new]) →
          fctime f ≤ fctime g →
          fromtimestamp (fctime f) ≤ fromtimestamp (fctime g)) →
  (∀ f, older f = true ↔
        PHOTO_RETENTION_DAYS * US_PER_DAY < now - fromtimestamp (fctime f))
  ∧ fs' !! u = Some (filter (λ f, ¬ (is_photo f ∧ older f = true)) (d ++ [new]))
  ∧ get_user_photo_count fs' u = 51%nat
  ∧ (∀ f, f ∈ get_user_photo_files fs' u ↔
          f = new ∨ (f ∈ get_user_photo_files fs u ∧ older f = false))
  ∧ st.2 = 51 ∧ ceiling_phase app_policy st = st.1.
Proof.
  intros older new fs' st Hu Hwf H60 H50 Hfresh Hnew Hmono.
  subst older. cbv beta in *.
  set (older := λ f : file, is_older_than_retention app_policy now f = true) in *.
  assert (is_photo new) as Hph by apply is_photo_new.
  assert (wf_dir (d ++ [new])) as Hwf0 by (by apply wf_dir_snoc).
  destruct (app_policy_scenario_counts now d new Hph Hnew H60 H50) as [HN Hold].
  fold older in Hold.
  assert (raises app_policy now = false) as Hret.
  { destruct (filter older (photo_files d)) as [|f l] eqn:Hf; [done|].
    assert (f ∈ filter older (photo_files d)) as Hin
      by (rewrite Hf; apply elem_of_cons; by left).
    apply list_elem_of_filter in Hin as [Hin _].
    by apply (older_not_raises app_policy now f). }
  assert (st.1 = filter (λ f, ¬ (is_photo f ∧ older f)) (d ++ [new])) as Hage.
  { apply age_phase_dir_old; [done|]. intros i ph Hi Ho.
    pose proof (older_index_bound app_policy now _ i ph
                  (photo_files_sorted _) Hmono Hi Ho) as Hb.
    fold older in Hb. rewrite Hold in Hb.
    unfold is_not_among_recent_n. apply Z.leb_le. simpl.
    rewrite HN. unfold MIN_RECENT_PHOTOS_TO_KEEP. lia. }
  assert (length (photo_files st.1) = 51%nat) as Hlen.
  { rewrite Hage. unfold older. rewrite photo_files_not_old. fold older.
    pose proof (length_filter_split older (photo_files (d ++ [new]))) as Hs.
    rewrite Hold, HN in Hs. unfold older in Hs. cbv beta in Hs. lia. }
  assert (st.2 = 51) as Hc.
  { unfold st. destruct (age_phase_count app_policy now _ Hwf0) as [_ <-].
    fold st. by rewrite Hlen. }
  assert (ceiling_phase app_policy st = st.1) as Hceil.
  { apply ceiling_phase_skip. rewrite Hc. done. }
  assert (fs' !! u = Some (filter (λ f, ¬ (is_photo f ∧ older f)) (d ++ [new])))
    as Hfs'.
  { unfold fs'. rewrite save_lookup, Hu. simpl.
    rewrite (imwrite_fresh (FileName.photo_name stamp) t d Hfresh).
    rewrite manage_retention_returns by done. fold new. fold st.
    by rewrite Hceil, <- Hage. }
  split.
  { intros f. unfold older. rewrite is_older_than_retention_true.
    apply raises_false in Hret. rewrite Hret. simpl. split.
    - intros (date & [= <-] & Hlt). lia.
    - intros Hlt. eexists. split; [done|]. lia. }
  split; [exact Hfs'|]. split.
  { unfold get_user_photo_count, get_user_photo_files. rewrite Hfs', <- Hage.
    exact Hlen. }
  split; [|done].
  intros f. unfold get_user_photo_files. rewrite Hfs', Hu.
  unfold older. rewrite photo_files_not_old, list_elem_of_filter.
  rewrite (photo_files_snoc d new Hph), elem_of_cons.
  split.
  - intros [Hno [->|Hf]]; [by left|right]. split; [done|].
    by destruct (is_older_than_retention app_policy now f).
  - intros [->|[Hf Ho]].
    + split; [|by left]. congruence.
    + split; [|by right]. congruence.
Qed.

Lemma age_phase_nothing pol now (d : dir) :
  Forall (λ f, is_older_than_retention pol now f = false) (photo_files d) →
  age_phase pol now d = (d, Z.of_nat (length (photo_files d))).
Proof.
  intros Hd. unfold age_phase. by rewrite photos_eligible_nil.
Qed.

(** C4. Hard-ceiling phase.  When the count tracked by the age phase still
    exceeds [max_photos_per_user], the ceiling phase removes the first
    [count - max] photos of the list it fetches anew, the oldest ones,
    and nothing else; that many photos are there to remove and exactly
    [max_photos_per_user] are left.  With 100 photos none of which is older
    than the retention window and a new one under a fresh name, in a call
    in which the date of line 153 can be computed, the age phase removes
    nothing and the ceiling phase removes the head of the sorted list and
    only it, leaving 100. *)
Theorem ceiling_phase_trims_oldest :
  (∀ pol now (d : dir),
     let st := age_phase pol now d in
     let n := Z.to_nat (st.2 - max_photos_per_user pol) in
     wf_dir d →
     0 ≤ max_photos_per_user pol →
     max_photos_per_user pol < st.2 →
     (n ≤ length (photo_files st.1))%nat
     ∧ ceiling_phase pol st =
         filter (λ f, fname f ∉ names (take n (photo_files st.1))) st.1
     ∧ photo_files (ceiling_phase pol st) = drop n (photo_files st.1)
     ∧ Z.of_nat (length (photo_files (ceiling_phase pol st)))
         = max_photos_per_user pol)
  ∧
  (∀ pol (fs : store) (u stamp : string) (d : dir) (t now : Z),
     let new := File (FileName.photo_name stamp) t in
     let fs' := save_recognition_photo_and_manage_retention pol fs u stamp t now in
     max_photos_per_user pol = 100 →
     raises pol now = false →
     fs !! u = Some d →
     wf_dir d →
     length (photo_files d) = 100%nat →
     Forall (λ f, is_older_than_retention pol now f = false) (photo_files d) →
     path_exists (fname new) d = false →
     is_older_than_retention pol now new = false →
     age_phase pol now (d ++ [new]) = (d ++ [new], 101)
     ∧ ∃ oldest rest,
         photo_files (d ++ [new]) = oldest :: rest
         ∧ fs' !! u = Some (os_remove (fname oldest) (d ++ [new]))
         ∧ get_user_photo_files fs' u = rest
         ∧ get_user_photo_count fs' u = 100%nat).
Proof.
  split.
  - intros pol now d st n Hwf Hmax Hgt.
    destruct (age_phase_count pol now d Hwf) as [Hwf1 Hc]. fold st in Hwf1, Hc.
    assert (n ≤ length (photo_files st.1))%nat as Hn by (unfold n; lia).
    split; [exact Hn|]. split; [by apply ceiling_phase_dir|].
    split; [by apply ceiling_phase_photo_files|].
    rewrite ceiling_phase_photo_files, length_drop by done. fold n. lia.
  - intros pol fs u stamp d t now new fs' Hmax Hgo Hu Hwf Hlen Hyoung Hfresh Hnew.
    assert (is_photo new) as Hph by apply is_photo_new.
    assert (wf_dir (d ++ [new])) as Hwf0.
    { by apply wf_dir_snoc. }
    assert (length (photo_files (d ++ [new])) = 101%nat) as Hlen0
      by (rewrite (photo_files_snoc d new Hph); simpl; lia).
    assert (age_phase pol now (d ++ [new]) = (d ++ [new], 101)) as Hage.
    { rewrite age_phase_nothing, Hlen0; [done|].
      rewrite (photo_files_snoc d new Hph). by constructor. }
    split; [exact Hage|].
    destruct (photo_files (d ++ [new])) as [|oldest rest] eqn:HL; [done|].
    exists oldest, rest. split; [done|].
    assert (manage_retention pol now (d ++ [new]) = os_remove (fname oldest) (d ++ [new]))
      as Hret.
    { rewrite manage_retention_returns by done.
      rewrite Hage, ceiling_phase_dir by (simpl; lia).
      simpl. rewrite Hmax, HL. simpl. unfold os_remove.
      apply list_filter_iff. intros f.
      rewrite not_elem_of_cons. split; [tauto|]. intros H. split; [done|].
      apply not_elem_of_nil. }
    assert (fs' !! u = Some (os_remove (fname oldest) (d ++ [new]))) as Hfs'.
    { unfold fs'. rewrite save_lookup, Hu. simpl.
      rewrite (imwrite_fresh (FileName.photo_name stamp) t d Hfresh).
      fold new. by rewrite Hret. }
    split; [exact Hfs'|].
    assert (get_user_photo_files fs' u = rest) as Hrest.
    { unfold get_user_photo_files. rewrite Hfs', <- Hret.
      rewrite manage_retention_returns by done. rewrite Hage.
      rewrite ceiling_phase_photo_files by (simpl; try lia; done).
      simpl. rewrite Hmax, HL. done. }
    split; [exact Hrest|].
    unfold get_user_photo_count. rewrite Hrest.
    simpl in Hlen0. lia.
Qed.

End ScenarioClaims.

Section ScenarioDaylightSaving.
Import UserManager Samples.
Local Existing Instance madrid.

(** C3, as stated: with 60 photos older than 90 days and 50 newer, one
    call leaves 51 photos.  It fails where the clocks went back between the
    creation of the old photos and the call.  The process runs in the zone
    [madrid]; the policy is (100, 90 days, 50).  Sixty photos were made the
    day before the clocks went back, and the call comes 90 days and half
    an hour after the first of them: each of the sixty is more than 90
    days old.  Fifty photos are a millisecond old.  On the wall clock the
    sixty are 89 days and 23.5 hours before the call, so the age loop
    keeps them; the ceiling loop then removes eleven of them and leaves
    100 photos, not 51. *)
Lemma retention_trim_fails_across_dst :
  let created := CLOCKS_BACK - US_PER_DAY in
  let called := created + 90 * US_PER_DAY + 30 * 60000000 in
  let old := photos_from created 0 60 in
  let recent := photos_from (called - 1000) 60 50 in
  let fs' := save_recognition_photo_and_manage_retention
               app_policy (store_of (old ++ recent)) "alice" "new"
               called (fromtimestamp called) in
  length old = 60%nat
  ∧ Forall (λ f, PHOTO_RETENTION_DAYS * US_PER_DAY < called - fctime f) old
  ∧ length recent = 50%nat
  ∧ Forall (λ f, called - fctime f < PHOTO_RETENTION_DAYS * US_PER_DAY) recent
  ∧ get_user_photo_files (store_of (old ++ recent)) "alice" = old ++ recent
  ∧ raises app_policy (fromtimestamp called) = false
  ∧ get_user_photo_count fs' "alice" = 100%nat
  ∧ get_user_photo_files fs' "alice"
      = drop 11 old ++ recent ++ [File (FileName.photo_name "new") called].
Proof. cbv zeta. repeat split; compute_done. Qed.

(** Why the amended C3 asks that the wall clock did not go back between
    the photos.  In the zone [madrid] the call comes 90 days after the
    middle of the hour the wall clock showed twice.  Ten photos were made
    well before that hour, fifty in the second half of its first showing
    and fifty in the first half of its second showing.  By the wall clock
    the first ten and the last fifty are more than 90 days old and the
    fifty between are not, yet they come before the last fifty in the
    list: the age loop removes eleven photos and 100 are left. *)
Lemma retention_trim_fails_at_fold :
  let called := CLOCKS_BACK + 30 * 60000000 + 90 * US_PER_DAY in
  let now := fromtimestamp called in
  let first := photos_from (CLOCKS_BACK - US_PER_DAY) 0 10 in
  let young := photos_from (CLOCKS_BACK - 1000) 10 50 in
  let last := photos_from CLOCKS_BACK 60 50 in
  let d := first ++ young ++ last in
  let fs' := save_recognition_photo_and_manage_retention
               app_policy (store_of d) "alice" "new" called now in
  Forall (λ f, PHOTO_RETENTION_DAYS * US_PER_DAY < now - fromtimestamp (fctime f))
         (first ++ last)
  ∧ Forall (λ f, now - fromtimestamp (fctime f) < PHOTO_RETENTION_DAYS * US_PER_DAY)
           young
  ∧ length (first ++ last) = 60%nat ∧ length young = 50%nat
  ∧ get_user_photo_files (store_of d) "alice" = d
  ∧ get_user_photo_count fs' "alice" = 100%nat.
Proof. cbv zeta. repeat split; compute_done. Qed.

End ScenarioDaylightSaving.
(** ** The recogniser *)

Section RecognizerFacts.
Import FaceRecognizer.
Context {face : Type}.
Implicit Types (r : recognizer face) (f : face).

Lemma Qlt_bool_iff (x y : Q) : Qlt_bool x y = true ↔ (x < y)%Q.
Proof.
  unfold Qlt_bool. rewrite negb_true_iff, <- not_true_iff_false, Qle_bool_iff.
  split; [apply Qnot_le_lt | apply Qlt_not_le].
Qed.

(** Indexing succeeds exactly on the indices from [-len] to [len - 1]. *)
Lemma py_index_is_Some {A} (l : list A) (i : Z) :
  is_Some (py_index l i) ↔ - Z.of_nat (length l) ≤ i < Z.of_nat (length l).
Proof.
  unfold py_index.
  destruct (Z.leb_spec 0 i) as [Hi|Hi].
  - rewrite lookup_lt_is_Some. lia.
  - destruct (Z.leb_spec (- Z.of_nat (length l)) i) as [Hi'|Hi'].
    + rewrite lookup_lt_is_Some. lia.
    + split; [by intros [? ?] | lia].
Qed.

Lemma recognize_face_no_model r f :
  user_list r = [] ∨ model_exists r = false →
  recognize_face r f = ((None, 0%Q), []).
Proof.
  intros H. unfold recognize_face.
  destruct H as [-> | ->]; [done|]. simpl. by rewrite orb_true_r.
Qed.

Lemma recognize_face_predicted r f label c :
  user_list r ≠ [] → model_exists r = true → predict r f = Predicted label c →
  recognize_face r f =
    if Qlt_bool c (confidence_threshold r)
       && (label <? Z.of_nat (length (user_list r))) then
      match py_index (user_list r) label with
      | Some username => ((Some username, c), [EvPredict])
      | None => ((None, 0%Q), [EvPredict; EvLogError])
      end
    else ((None, c), [EvPredict]).
Proof.
  intros Hl Hm Hp. unfold recognize_face.
  rewrite bool_decide_eq_false_2, Hm, Hp by done. done.
Qed.

End RecognizerFacts.

Section RecognizerClaims.
Import FaceRecognizer.

(** C7, as stated: a user name is returned iff the score is below the
    threshold.  It fails for a recogniser that knows one user when the
    model answers label 1 at distance 100, under the threshold 2000: no
    name is returned. *)
Lemma recognize_face_threshold_only_fails :
  let r := Samples.one_user_recognizer in
  user_list r ≠ [] ∧ model_exists r = true ∧
  predict r tt = Predicted 1 (100 # 1) ∧
  ¬ ((∃ u, (recognize_face r tt).1.1 = Some u) ↔
     (100 # 1 < confidence_threshold r)%Q).
Proof.
  simpl. repeat split; [done|].
  intros [_ H]. destruct H as [u Hu]; [done|]. vm_compute in Hu. discriminate.
Qed.

Lemma py_index_nonneg {A} (l : list A) (i : Z) :
  0 ≤ i → py_index l i = l !! Z.to_nat i.
Proof. intros Hi. unfold py_index. by destruct (Z.leb_spec 0 i); [|lia]. Qed.

(** C7, amended.  When the user list is not empty, the model file exists
    and the prediction yields [(label, score)]: a user name is returned only
    if the score is strictly below the threshold and the label is below the
    length of the user list; it is returned, as [user_list[label]] and with
    the score, whenever the score is below the threshold and the label is
    from 0 to the length less one; and when the score is not below the
    threshold or the label is not below the length, no identity is returned,
    together with the score. *)
Theorem recognize_face_match_iff {face} (r : recognizer face) (f : face)
    (label : Z) (c : Q) :
  user_list r ≠ [] →
  model_exists r = true →
  predict r f = Predicted label c →
  let len := Z.of_nat (length (user_list r)) in
  ((∃ u, (recognize_face r f).1.1 = Some u) →
     (c < confidence_threshold r)%Q ∧ label < len)
  ∧ ((c < confidence_threshold r)%Q → 0 ≤ label < len →
     ∃ u, user_list r !! Z.to_nat label = Some u
          ∧ (recognize_face r f).1 = (Some u, c))
  ∧ (¬ ((c < confidence_threshold r)%Q ∧ label < len) →
     (recognize_face r f).1 = (None, c)).
Proof.
  intros Hl Hm Hp len. subst len.
  rewrite (recognize_face_predicted r f label c Hl Hm Hp).
  pose proof (Qlt_bool_iff c (confidence_threshold r)) as Hq.
  destruct (Qlt_bool c (confidence_threshold r)) eqn:Hlt;
    destruct (Z.ltb_spec label (Z.of_nat (length (user_list r)))) as [Hlen|Hlen];
    simpl.
  - split; [intros _; split; [by apply Hq | done]|].
    split; [|intros Hn; exfalso; apply Hn; split; [by apply Hq | done]].
    intros _ [H0 _]. rewrite py_index_nonneg by done.
    destruct (user_list r !! Z.to_nat label) as [u|] eqn:Hu; [by exists u|].
    apply lookup_ge_None in Hu. lia.
  - split; [by intros [u Hu]|]. split; [intros; lia | done].
  - assert (¬ (c < confidence_threshold r)%Q) as Hnc
      by (intros H; apply Hq in H; congruence).
    split; [by intros [u Hu]|]. split; [by intros | done].
  - split; [by intros [u Hu]|]. split; [intros; lia | done].
Qed.

(** C10.  With an empty user list, or without the model file,
    [recognize_face] returns no identity and score 0 and calls nothing, in
    particular not the prediction.  When the predicted label is outside
    the index range of the user list (an index on which Python raises
    [IndexError]: at or above the length, or below its negation) no
    identity is returned, whatever the score. *)
Theorem recognize_face_guards {face} (r : recognizer face) (f : face) :
  (user_list r = [] ∨ model_exists r = false →
     recognize_face r f = ((None, 0%Q), []))
  ∧ (∀ label c,
       predict r f = Predicted label c →
       Z.of_nat (length (user_list r)) ≤ label
         ∨ label < - Z.of_nat (length (user_list r)) →
       (recognize_face r f).1.1 = None).
Proof.
  split; [apply recognize_face_no_model|].
  intros label c Hp Hout.
  destruct (decide (user_list r = [])) as [He|Hne];
    [by rewrite recognize_face_no_model by (by left)|].
  destruct (model_exists r) eqn:Hm;
    [|by rewrite recognize_face_no_model by (by right)].
  rewrite (recognize_face_predicted r f label c Hne Hm Hp).
  destruct (Qlt_bool c (confidence_threshold r)
            && (label <? Z.of_nat (length (user_list r)))); [|done].
  destruct (py_index (user_list r) label) as [u|] eqn:Hu; [|done].
  assert (is_Some (py_index (user_list r) label)) as Hs by eauto.
  apply py_index_is_Some in Hs. lia.
Qed.

End RecognizerClaims.

(** ** The trainer *)

Section TrainerFacts.
Import FaceTrainer.
Context {image model : Type}.
Variable imread : string → string → option image.
Variable fit : list (image * Z) → model.
Variable predict_label : model → image → Z.
Variable shuffle : list (image * Z) → list (image * Z).

(** A single sample cannot be split: the training set would be empty. *)
Lemma train_test_split_one data :
  length data = 1%nat → train_test_split shuffle data = None.
Proof. intros H. unfold train_test_split. by rewrite H. Qed.

Lemma train_test_split_some data :
  (2 ≤ length data)%nat →
  ∃ train_set test_set, train_test_split shuffle data = Some (train_set, test_set).
Proof.
  intros H. unfold train_test_split.
  assert ((length data + 4) / 5 < length data)%nat as Hlt
    by (apply Nat.Div0.div_lt_upper_bound; lia).
  destruct (Nat.eqb_spec (length data - (length data + 4) / 5) 0); [lia|].
  eauto.
Qed.

Lemma count_correct_le (m : model) test :
  (count_correct predict_label m test ≤ length test)%nat.
Proof. unfold count_correct. apply length_filter. Qed.

Lemma accuracy_bounds (correct total : nat) :
  (correct ≤ total)%nat → (0 < total)%nat →
  (0 <= inject_Z (Z.of_nat correct) / inject_Z (Z.of_nat total) <= 1)%Q.
Proof.
  intros Hle Hpos.
  assert (0 < inject_Z (Z.of_nat total))%Q as Ht
    by (rewrite <- (Zlt_Qlt 0); lia).
  split.
  - apply Qle_shift_div_l; [exact Ht|]. rewrite Qmult_0_l.
    rewrite <- (Zle_Qle 0). lia.
  - apply Qle_shift_div_r; [exact Ht|]. rewrite Qmult_1_l.
    rewrite <- Zle_Qle. lia.
Qed.

Lemma load_user_no_photos username (d : dir) label_id :
  Forall (λ f, ¬ UserManager.is_photo f) d →
  load_user imread username d label_id = [].
Proof.
  induction 1 as [|f d Hf _ IH]; [done|]. simpl.
  unfold UserManager.is_photo in Hf.
  destruct (FileName.is_photo_name (fname f)); [by destruct Hf | exact IH].
Qed.

(** Without photo files in any directory nothing is loaded. *)
Lemma load_training_data_no_photos (fs : store) :
  (∀ u d, fs !! u = Some d → Forall (λ f, ¬ UserManager.is_photo f) d) →
  load_training_data imread fs = [].
Proof.
  intros Hfs. unfold load_training_data.
  generalize 0. induction (sorted_users fs) as [|u us IH]; intros k; simpl; [done|].
  rewrite IH, app_nil_r. destruct (fs !! u) as [d|] eqn:Hu; simpl.
  - apply load_user_no_photos. by eapply Hfs.
  - done.
Qed.

Lemma train_raises_empty (fs : store) model_file :
  load_training_data imread fs = [] →
  train imread fit predict_label shuffle fs model_file = (TrainRaises, model_file).
Proof. intros H. unfold train. by rewrite H. Qed.

(** A single loaded image: the split raises, and so does [train()]. *)
Lemma train_raises_one (fs : store) model_file :
  length (load_training_data imread fs) = 1%nat →
  train imread fit predict_label shuffle fs model_file = (TrainRaises, model_file).
Proof.
  intros H. unfold train. rewrite H. simpl.
  by rewrite train_test_split_one.
Qed.

End TrainerFacts.

Section TrainerClaims.
Import FaceTrainer.

(** C9, as stated: with at least one image [train()] writes the model and
    returns an accuracy.  It fails on a store with a single readable photo:
    the split of one sample leaves no training image and raises, and no
    model is written. *)
Lemma train_single_image_raises :
  length (load_training_data Samples.read_any Samples.one_photo_store) = 1%nat ∧
  train Samples.read_any Samples.fit_unit Samples.predict_zero Samples.no_shuffle
        Samples.one_photo_store None = (TrainRaises, None).
Proof. split; vm_compute; reflexivity. Qed.

(** C9, amended.  When no training image is loaded across all users,
    [train()] raises and the model file is left as it was; with at least two
    loaded images it writes the model and returns an accuracy in [0, 1]. *)
Theorem train_contract {image model : Type}
    (imread : string → string → option image)
    (fit : list (image * Z) → model)
    (predict_label : model → image → Z)
    (shuffle : list (image * Z) → list (image * Z))
    (fs : store) (model_file : option model) :
  let data := load_training_data imread fs in
  let run := train imread fit predict_label shuffle fs model_file in
  (data = [] → run = (TrainRaises, model_file))
  ∧ ((2 ≤ length data)%nat →
     ∃ accuracy m, run = (TrainReturns accuracy, Some m)
                   ∧ (0 <= accuracy <= 1)%Q).
Proof.
  intros data run. split; [apply train_raises_empty|].
  intros Hlen. unfold run, train. fold data.
  destruct (Nat.eqb_spec (length data) 0) as [H0|_]; [lia|].
  destruct (train_test_split_some shuffle data Hlen) as (tr & te & ->).
  eexists _, _. split; [reflexivity|].
  destruct (Nat.ltb_spec 0 (length te)) as [Hpos|_].
  - apply accuracy_bounds; [apply count_correct_le | done].
  - done.
Qed.

End TrainerClaims.

(** ** Registration and recognition *)

Section AppFacts.
Import UserManager FaceRecognizer App.
Context `{tz : !TimeZone}.
Context {face : Type}.
Implicit Types (a : app face) (fr : frame face).

Lemma new_events_app a a' es : trace a' = trace a ++ es → new_events a a' = es.
Proof. intros H. unfold new_events. by rewrite H, drop_app_length. Qed.

(** The count [start_registration] takes from the directory listing is
    the count [get_user_photo_count] gives. *)
Lemma existing_photos_count_eq (s : store) username :
  existing_photos_count s username = Z.of_nat (get_user_photo_count s username).
Proof.
  unfold existing_photos_count, get_user_photo_count, get_user_photo_files.
  destruct (s !! username) as [d|]; [|done].
  unfold photo_files. by rewrite length_sort_by_ctime.
Qed.

End AppFacts.

(** Unfolds the state passing of the controllers. *)
Ltac run_app :=
  unfold App.start_registration, App.process_registration_frame,
    App.process_recognition_frame, App.after_session, App.take_photo,
    App.save_recognition_photo, App.stop_recognition,
    App.finish_without_capture, App.train_model, App.stop_camera,
    App.start_capture, App.read, App.andthen, App.when, App.skip,
    UserManager.create_user;
  simpl.

(** Lists the calls between two states, in a hypothesis or in the goal. *)
Ltac list_new_events H :=
  unfold App.new_events in H; simpl in H;
  rewrite <- ?app_assoc in H; rewrite ?drop_app_length, ?drop_all in H;
  simpl in H.

Ltac split_elem_of H :=
  apply list_elem_of_In in H; simpl in H;
  repeat match type of H with
         | _ ∨ _ => destruct H as [H|H]
         end;
  try discriminate H; try contradiction H.

Section RegistrationClaims.
Import UserManager FaceRecognizer App.
Context `{tz : !TimeZone}.
Context {face : Type}.
Implicit Types (a : app face) (fr : frame face).

(** The calls of [start_registration] when it asks for a name, gets one
    of a user who has photos, and the operator confirms. *)
Lemma start_registration_existing inp cpc a username :
  registration_active a = false →
  name_answer inp = Some username → username ≠ ""%string →
  0 < existing_photos_count (fs a) username →
  confirm_answer inp = true →
  let existing := existing_photos_count (fs a) username in
  let target := Z.min (existing + ADDITIONAL_PHOTOS_STEP) MAX_PHOTOS_PER_USER in
  let a' := start_registration inp cpc a in
  if target <=? existing then
    registration_active a' = false ∧
    frame_callback (camera_manager a') = frame_callback (camera_manager a) ∧
    new_events a a' =
      [AskString; AskConfirmation; ShowMessage] ++
      (if is_recording (camera_manager a) then [StopCamera] else []) ++
      [UpdateStatus; UpdateStatus; TrainModel true; UpdateUserList]
  else
    registration_active a' = true ∧
    new_events a a' =
      [AskString; AskConfirmation; UpdateStatus;
       StartCapture (RegistrationFrame (Some username) target)
                    (thread_alive (capture inp) || camera_ok (capture inp))].
Proof.
  intros Hact Hname Hne Hpos Hconf existing target a'.
  subst existing target a'. destruct a as [s r ra ga cu [rec cb] w tr].
  simpl in *. subst ga. apply String.eqb_neq in Hne.
  run_app. rewrite Hname, Hne. simpl.
  set (existing := existing_photos_count s username) in *.
  destruct (Z.eqb_spec existing 0) as [H0|_]; [lia|].
  rewrite Hconf.
  destruct (Z.min (existing + ADDITIONAL_PHOTOS_STEP) MAX_PHOTOS_PER_USER <=? existing).
  - destruct rec; simpl;
      (split; [done|]; split; [done|]); apply new_events_app; simpl;
      rewrite <- ?app_assoc; done.
  - destruct (thread_alive (capture inp)), (camera_ok (capture inp)); simpl;
      (split; [done|]); apply new_events_app; simpl;
      rewrite <- ?app_assoc; done.
Qed.

(** Whenever [start_registration] starts a capture, the target of the
    session is above the count it started from. *)
Lemma start_registration_capture_target inp cpc a u t ok :
  StartCapture (RegistrationFrame u t) ok ∈ new_events a (start_registration inp cpc a) →
  if registration_active a then cpc < t
  else ∃ username, u = Some username ∧ existing_photos_count (fs a) username < t.
Proof.
  destruct a as [s r ra ga cu [rec cb] w tr]. simpl. intros H.
  revert H. run_app. destruct ga; simpl.
  - destruct (Z.leb_spec (Z.min (cpc + ADDITIONAL_PHOTOS_STEP) MAX_PHOTOS_PER_USER) cpc)
      as [Hle|Hgt]; intros H.
    + destruct rec; list_new_events H; split_elem_of H.
    + destruct (thread_alive (capture inp)), (camera_ok (capture inp));
        list_new_events H; split_elem_of H; injection H as <- <- _; lia.
  - destruct (name_answer inp) as [username|]; simpl;
      [|intros H; list_new_events H; split_elem_of H].
    destruct (String.eqb username ""); simpl;
      [intros H; list_new_events H; split_elem_of H|].
    set (existing := existing_photos_count s username).
    destruct (Z.eqb_spec existing 0) as [H0|Hn0].
    + destruct (s !! username) as [d|] eqn:Hs; simpl; intros H;
        destruct (thread_alive (capture inp)), (camera_ok (capture inp));
        list_new_events H; split_elem_of H; injection H as <- <- _;
        (exists username; split; [done|]); fold existing; rewrite H0; done.
    + destruct (confirm_answer inp); simpl.
      * destruct (Z.leb_spec (Z.min (existing + ADDITIONAL_PHOTOS_STEP)
                                    MAX_PHOTOS_PER_USER) existing) as [Hle|Hgt];
          intros H.
        -- destruct rec; list_new_events H; split_elem_of H.
        -- destruct (thread_alive (capture inp)), (camera_ok (capture inp));
             list_new_events H; split_elem_of H; injection H as <- <- _;
             (exists username; split; [done|]); fold existing; lia.
      * intros H. destruct rec; list_new_events H; split_elem_of H.
Qed.

(** Session target of a registration that asks for the name.  When
    [start_registration] is given the name of a user who has photos and
    the operator confirms, the target of the session is
    [min(existing + ADDITIONAL_PHOTOS_STEP, MAX_PHOTOS_PER_USER)]; if it
    does not exceed the existing count no capture is started, the flag
    stays cleared and training is triggered; otherwise capture is started
    with that target.  On the branch of lines 283-306, taken when the flag
    is already set, the target is only known to be above the argument
    [current_photos_count], whatever the user holds. *)
Theorem registration_session_target :
  (∀ (inp : reg_input) (cpc : Z) (a : app face) (username : string),
     let existing := existing_photos_count (fs a) username in
     let target := Z.min (existing + ADDITIONAL_PHOTOS_STEP) MAX_PHOTOS_PER_USER in
     let a' := start_registration inp cpc a in
     registration_active a = false →
     name_answer inp = Some username → username ≠ ""%string →
     0 < existing →
     confirm_answer inp = true →
     (target ≤ existing →
        registration_active a' = false
        ∧ (∀ cb ok, StartCapture cb ok ∉ new_events a a')
        ∧ TrainModel true ∈ new_events a a')
     ∧ (existing < target →
        registration_active a' = true
        ∧ ∀ e, e ∈ new_events a a' →
               (∃ cb ok, e = StartCapture cb ok) ∨ e = TrainModel true →
               ∃ ok, e = StartCapture (RegistrationFrame (Some username) target) ok)
     ∧ (existing < target →
        ∃ ok, StartCapture (RegistrationFrame (Some username) target) ok
                ∈ new_events a a'))
  ∧
  (∀ (inp : reg_input) (cpc : Z) (a : app face) u t ok,
     StartCapture (RegistrationFrame u t) ok
       ∈ new_events a (start_registration inp cpc a) →
     if registration_active a then cpc < t
     else ∃ username,
            u = Some username ∧ existing_photos_count (fs a) username < t).
Proof.
  split; [|apply start_registration_capture_target].
  intros inp cpc a username existing target a' Hact Hname Hne Hpos Hconf.
  pose proof (start_registration_existing inp cpc a username
                Hact Hname Hne Hpos Hconf) as H.
  cbv zeta in H. fold existing target a' in H.
  destruct (Z.leb_spec target existing) as [Hle|Hgt].
  - destruct H as (Hflag & _ & Hev).
    split; [|split; intros; lia]. intros _. split; [done|].
    rewrite Hev. split.
    + intros cb ok Hin. destruct (is_recording (camera_manager a));
        split_elem_of Hin.
    + destruct (is_recording (camera_manager a)); simpl;
        repeat (apply elem_of_cons; ((by left) || right)).
  - destruct H as (Hflag & Hev).
    split; [intros; lia|]. split; intros _.
    + split; [done|]. rewrite Hev. intros e He Hkind.
      split_elem_of He; subst e;
        try (destruct Hkind as [(? & ? & [=]) | [=]]); eauto.
    + eexists. rewrite Hev. repeat (apply elem_of_cons; ((by left) || right)).
Qed.

End RegistrationClaims.

Section RegistrationRestart.
Import UserManager FaceRecognizer App Samples.

(** C5.  The target formula of lines 250-271 is as the claim has it, but a
    capture can start with a target below the photos the user holds.
    Alice holds 20 photos.  The operator presses Register, names her and
    confirms while no camera can be opened: the target is 25,
    [registration_active] is set at line 266 and [start_capture] fails,
    which [start_registration] does not look at.  Register is pressed
    again with a camera in place: the call, made by the button with
    [current_photos_count] at its default 0, finds the flag set, takes the
    branch of lines 283-306 and starts a capture for alice with target
    [min(0 + 5, 100) = 5], below the 20 photos she holds.  The first frame
    of that capture takes no photo and ends the session. *)
Theorem registration_restart_target_below_count :
  let a0 := sample_app (store_of (photos 0 20)) false false in
  let a1 := start_registration alice_confirms_no_camera 0 a0 in
  let a2 := start_registration register_pressed_again 0 a1 in
  let a3 := process_registration_frame one_face declines "alice" 5 a2 in
  photo_count "alice" a0 = 20
  ∧ new_events a0 a1 =
      [AskString; AskConfirmation; UpdateStatus;
       StartCapture (RegistrationFrame (Some "alice"%string) 25) false]
  ∧ registration_active a1 = true
  ∧ is_recording (camera_manager a1) = false
  ∧ new_events a1 a2 =
      [UpdateStatus; StartCapture (RegistrationFrame (Some "alice"%string) 5) true]
  ∧ frame_callback (camera_manager a2)
      = Some (RegistrationFrame (Some "alice"%string) 5)
  ∧ is_recording (camera_manager a2) = true
  ∧ photo_count "alice" a2 = 20
  ∧ ¬ (photo_count "alice" a2 < 5)
  ∧ fs a3 = fs a2
  ∧ registration_active a3 = false.
Proof. cbv zeta. repeat split; compute_done. Qed.

End RegistrationRestart.

Section RegistrationFrames.
Import UserManager FaceRecognizer App.
Context `{tz : !TimeZone}.
Context {face : Type}.
Implicit Types (a : app face) (fr : frame face).

Lemma get_user_photo_files_create (s : store) username v :
  s !! username = None →
  get_user_photo_files (<[username := []]> s) v = get_user_photo_files s v.
Proof.
  intros Hs. unfold get_user_photo_files.
  destruct (decide (username = v)) as [<-|Hne].
  - by rewrite lookup_insert_eq, Hs.
  - by rewrite lookup_insert_ne.
Qed.



Local Arguments start_registration : simpl never.



Lemma process_registration_frame_active fr ans username target a :
  registration_active a = true →
  process_registration_frame fr ans username target a =
    let a2 := after_capture fr username target a in
    let count := photo_count username a2 in
    if target <=? count then
      after_session ans target count
        (emit UpdateStatus (set_registration_active false (stop_camera a2)))
    else if negb (length (faces fr) =? 1)%nat then emit UpdateStatus a2
    else a2.
Proof.
  intros Hact. unfold process_registration_frame, read, andthen, after_capture.
  rewrite Hact. simpl.
  replace (takes_photo fr username target (emit ShowFrame a))
    with (takes_photo fr username target a) by (by destruct a).
  destruct (target <=? _); [done|]. by destruct (negb _).
Qed.

Lemma process_registration_frame_inactive fr ans username target a :
  registration_active a = false →
  process_registration_frame fr ans username target a = a.
Proof.
  intros Hact. unfold process_registration_frame, read. by rewrite Hact.
Qed.

End RegistrationFrames.

Section RegistrationCapture.
Import UserManager FaceRecognizer App.
Context `{tz : !TimeZone}.
Context {face : Type}.
Implicit Types (a : app face) (fr : frame face).

Local Arguments start_registration : simpl never.
Local Arguments after_session : simpl never.






End RegistrationCapture.

Section RecognitionClaims.
Import UserManager FaceRecognizer App.
Context `{tz : !TimeZone}.
Context {face : Type}.
Implicit Types (a : app face) (fr : frame face).

Local Arguments save_recognition_photo_and_manage_retention : simpl never.

Lemma process_recognition_frame_inactive fr a :
  recognition_active a = false → process_recognition_frame fr a = a.
Proof. intros H. unfold process_recognition_frame, read. by rewrite H. Qed.

Lemma unlock_attempts_app (es1 es2 : list event) :
  unlock_attempts (es1 ++ es2) = (unlock_attempts es1 + unlock_attempts es2)%nat.
Proof. unfold unlock_attempts. by rewrite filter_app, length_app. Qed.

(** What one frame does to the flag, the camera and the unlock attempts. *)
Lemma process_recognition_frame_spec fr a :
  let a' := process_recognition_frame fr a in
  ∃ es, trace a' = trace a ++ es ∧
    if recognition_active a && window_exists a
       && negb (bool_decide (process_frame (face_recognizer a) (faces fr) = []))
    then unlock_attempts es = 1%nat
         ∧ recognition_active a' = false
         ∧ is_recording (camera_manager a') = false
    else unlock_attempts es = 0%nat
         ∧ recognition_active a' = recognition_active a.
Proof.
  destruct a as [s r ra ga cu [rec cb] w tr]. run_app.
  destruct ra; simpl; [|exists []; by rewrite app_nil_r].
  destruct w; simpl; [|exists []; by rewrite app_nil_r].
  destruct (process_frame r (faces fr)) as [|[username confidence] rest]; simpl.
  - rewrite <- ?app_assoc. eexists. split; [reflexivity|]. done.
  - unfold photo_count. simpl.
    destruct (_ <? MAX_PHOTOS_PER_USER); simpl;
      [destruct (length (faces fr) =? 1)%nat; simpl|];
      rewrite <- ?app_assoc; (eexists; split; [reflexivity|]); done.
Qed.

Lemma process_recognition_frames_inactive frs a :
  recognition_active a = false → process_recognition_frames frs a = a.
Proof.
  unfold process_recognition_frames. revert a.
  induction frs as [|fr frs IH]; intros a Ha; simpl; [done|].
  rewrite process_recognition_frame_inactive by done. by apply IH.
Qed.

Lemma process_recognition_frames_unlocks frs a :
  ∃ es, trace (process_recognition_frames frs a) = trace a ++ es
        ∧ (unlock_attempts es ≤ 1)%nat.
Proof.
  revert a. induction frs as [|fr frs IH]; intros a.
  - exists []. split; [by rewrite app_nil_r|]. unfold unlock_attempts. simpl. lia.
  - change (process_recognition_frames (fr :: frs) a)
      with (process_recognition_frames frs (process_recognition_frame fr a)).
    destruct (process_recognition_frame_spec fr a) as (es & Htr & Hspec).
    cbv zeta in Hspec.
    destruct (recognition_active a && window_exists a
              && negb (bool_decide (process_frame (face_recognizer a) (faces fr) = []))).
    + destruct Hspec as (Hone & Hoff & _).
      rewrite process_recognition_frames_inactive by done.
      exists es. split; [done | lia].
    + destruct Hspec as (Hzero & _).
      destruct (IH (process_recognition_frame fr a)) as (es' & Htr' & Hle).
      exists (es ++ es'). split.
      * by rewrite Htr', Htr, app_assoc.
      * rewrite unlock_attempts_app. lia.
Qed.

(** C8. One unlock attempt per activation.  A frame that reaches the
    recogniser while recognition is active and yields a recognised user
    triggers exactly one unlock attempt, clears the flag and stops the
    camera before the callback returns.  A frame that comes while the flag
    is cleared changes nothing: no photo, no unlock attempt, no status
    line.  So the frames of one activation trigger at most one unlock
    attempt. *)
Theorem recognition_unlocks_once :
  (∀ (fr : frame face) (a : app face),
     let a' := process_recognition_frame fr a in
     recognition_active a = true →
     window_exists a = true →
     process_frame (face_recognizer a) (faces fr) ≠ [] →
     unlock_attempts (new_events a a') = 1%nat
     ∧ recognition_active a' = false
     ∧ is_recording (camera_manager a') = false)
  ∧ (∀ (fr : frame face) (a : app face),
       recognition_active a = false → process_recognition_frame fr a = a)
  ∧ (∀ (frs : list (frame face)) (a : app face),
       (unlock_attempts (new_events a (process_recognition_frames frs a)) ≤ 1)%nat).
Proof.
  split; [|split].
  - intros fr a a' Hact Hwin Hrec. subst a'.
    destruct (process_recognition_frame_spec fr a) as (es & Htr & Hspec).
    cbv zeta in Hspec. rewrite Hact, Hwin, bool_decide_eq_false_2 in Hspec by done.
    simpl in Hspec. by rewrite (new_events_app _ _ _ Htr).
  - apply process_recognition_frame_inactive.
  - intros frs a.
    destruct (process_recognition_frames_unlocks frs a) as (es & Htr & Hle).
    by rewrite (new_events_app _ _ _ Htr).
Qed.

End RecognitionClaims.

(** The scenario of a fresh user: registration of "alice" on an empty store
    starts a session with target 50; 49 frames with one face leave the
    session open with 49 photos and no training; the 50th closes it, stops
    the camera and triggers training. *)
Example fresh_user_fifty_frames :
  let a0 := App.start_registration Samples.alice_confirms 0
              (Samples.sample_app ∅ false false) in
  let after n := App.process_registration_frames (Samples.single_face_frames n)
                   Samples.declines "alice" MAX_INITIAL_PHOTOS a0 in
  App.frame_callback (App.camera_manager a0)
    = Some (App.RegistrationFrame (Some "alice"%string) 50)
  ∧ App.photo_count "alice" (after 49%nat) = 49
  ∧ App.registration_active (after 49%nat) = true
  ∧ (App.TrainModel true ∉ App.trace (after 49%nat))
  ∧ App.photo_count "alice" (after 50%nat) = 50
  ∧ App.registration_active (after 50%nat) = false
  ∧ App.is_recording (App.camera_manager (after 50%nat)) = false
  ∧ (App.TrainModel true ∈ App.trace (after 50%nat)).
Proof. cbv zeta. repeat split; compute_done. Qed.


(** ** The properties at sample data *)

Section Witnesses.
Import UserManager FaceRecognizer FaceTrainer App Samples.
Local Existing Instance Samples.utc.

Lemma wf_store_of (d : dir) : wf_dir d → wf_store (store_of d).
Proof.
  intros Hd u d' Hu. unfold store_of in Hu.
  apply lookup_singleton_Some in Hu as [_ <-]. exact Hd.
Defined.

Lemma retention_ceiling_witness :
  Z.of_nat (get_user_photo_count
              (run_calls small_policy (store_of (photos 2 2)) two_calls) "alice")
    ≤ max_photos_per_user small_policy
  ∧ Z.of_nat (get_user_photo_count
                (run_calls small_policy (store_of (photos 2 2))
                   (Call "alice" "a" (sample_now - 2) (sample_now - 1)
                    :: [Call "bob" "b" (sample_now - 1) sample_now])) "alice")
    ≤ max_photos_per_user small_policy
  ∧ Z.of_nat (get_user_photo_count (run_calls small_policy ∅ two_calls) "bob")
    ≤ max_photos_per_user small_policy
  ∧ run_call long_window_policy (store_of (photos 2 2))
             (Call "alice" "a" (sample_now - 2) (sample_now - 1))
    = add_photo_to_user (store_of (photos 2 2)) "alice" "a" (sample_now - 2).
Proof.
  assert (0 ≤ max_photos_per_user small_policy) as Hmax by compute_done.
  assert (0 ≤ max_photos_per_user long_window_policy) as Hlong by compute_done.
  destruct (retention_ceiling small_policy Hmax) as (Hlast & Hlater & Hempty & _).
  destruct (retention_ceiling long_window_policy Hlong) as (_ & _ & _ & Hraise).
  split; [|split; [|split]].
  - apply (Hlast (store_of (photos 2 2))
                 [Call "alice" "a" (sample_now - 2) (sample_now - 1)]
                 (Call "alice" "b" (sample_now - 1) sample_now)).
    + apply wf_store_of. compute_done.
    + compute_done.
    + compute_done.
  - apply (Hlater (store_of (photos 2 2)) []
                  [Call "bob" "b" (sample_now - 1) sample_now]
                  (Call "alice" "a" (sample_now - 2) (sample_now - 1))).
    + apply wf_store_of. compute_done.
    + compute_done.
    + compute_done.
    + compute_done.
  - apply (Hempty two_calls "bob"); compute_done.
  - apply (Hraise (store_of (photos 2 2))
                  (Call "alice" "a" (sample_now - 2) (sample_now - 1))).
    compute_done.
Defined.

Lemma age_phase_deletes_iff_witness :
  path_exists (fname (old_photo 0))
              (age_phase small_policy sample_now (photos 2 2)).1 = false
  ∧ sample_now - fromtimestamp (fctime (old_photo 0))
    = sample_now - fctime (old_photo 0).
Proof.
  destruct (age_phase_deletes_iff small_policy sample_now (photos 2 2) 0 (old_photo 0))
    as (Hiff & _ & _ & Hage); [compute_done| compute_done |].
  split.
  - apply Hiff; [compute_done|]. split; compute_done.
  - apply (Hage sample_now); reflexivity.
Defined.

Lemma retention_trim_scenario_witness :
  get_user_photo_count
    (save_recognition_photo_and_manage_retention
       app_policy (store_of (photos 60 50)) "alice" "new" sample_now sample_now)
    "alice" = 51%nat.
Proof.
  apply (retention_trim_scenario (store_of (photos 60 50)) "alice" "new"
           (photos 60 50) sample_now sample_now);
    [compute_done .. | intros f g _ _ Hfg; exact Hfg].
Defined.

End Witnesses.

Section MoreWitnesses.
Import UserManager FaceRecognizer FaceTrainer App Samples.
Local Existing Instance Samples.utc.

Lemma ceiling_phase_trims_oldest_witness :
  Z.of_nat (length (photo_files
              (ceiling_phase wide_policy
                 (age_phase wide_policy sample_now (photos 2 2)))))
    = max_photos_per_user wide_policy
  ∧ get_user_photo_count
      (save_recognition_photo_and_manage_retention
         app_policy (store_of (photos 0 100)) "alice" "new" sample_now sample_now)
      "alice" = 100%nat.
Proof.
  destruct ceiling_phase_trims_oldest as [Hgen Hscn]. split.
  - apply (Hgen wide_policy sample_now (photos 2 2)); compute_done.
  - assert (max_photos_per_user app_policy = 100) as H1 by compute_done.
    assert (store_of (photos 0 100) !! "alice"%string = Some (photos 0 100)) as H2
      by compute_done.
    assert (wf_dir (photos 0 100)) as H3 by compute_done.
    assert (length (photo_files (photos 0 100)) = 100%nat) as H4 by compute_done.
    assert (Forall (λ f, is_older_than_retention app_policy sample_now f = false)
                   (photo_files (photos 0 100))) as H5 by compute_done.
    assert (path_exists (FileName.photo_name "new") (photos 0 100) = false) as H6
      by compute_done.
    assert (is_older_than_retention app_policy sample_now
              (File (FileName.photo_name "new") sample_now) = false) as H7
      by compute_done.
    assert (raises app_policy sample_now = false) as H8 by compute_done.
    destruct (Hscn app_policy (store_of (photos 0 100)) "alice"%string "new"%string
                   (photos 0 100) sample_now sample_now H1 H8 H2 H3 H4 H5 H6 H7)
      as (_ & oldest & rest & _ & _ & _ & Hcount).
    exact Hcount.
Defined.

Lemma registration_session_target_witness :
  registration_active
    (start_registration alice_confirms 0 (sample_app (store_of (photos 0 3)) false false))
    = true
  ∧ 0 < 5.
Proof.
  destruct (registration_session_target (face:=unit)) as [Hexisting Hany]. split.
  - apply (Hexisting alice_confirms 0 (sample_app (store_of (photos 0 3)) false false)
                     "alice"%string); compute_done.
  - apply (Hany alice_confirms 0 (sample_app (store_of (photos 0 3)) true false)
                None 5 true).
    compute_done.
Defined.


Lemma recognize_face_match_iff_witness :
  ∃ u, user_list two_user_recognizer !! Z.to_nat 0 = Some u
       ∧ (recognize_face two_user_recognizer tt).1 = (Some u, 100 # 1).
Proof.
  apply (recognize_face_match_iff two_user_recognizer tt 0 (100 # 1));
    [done | reflexivity | reflexivity | reflexivity | simpl; lia].
Defined.

Lemma recognition_unlocks_once_witness :
  unlock_attempts
    (new_events (sample_app (store_of (photos 0 3)) false true)
       (process_recognition_frame one_face
          (sample_app (store_of (photos 0 3)) false true))) = 1%nat
  ∧ process_recognition_frame one_face (sample_app ∅ false false)
    = sample_app ∅ false false.
Proof.
  destruct (recognition_unlocks_once (face:=unit)) as (Hmatch & Hoff & _). split.
  - apply (Hmatch one_face (sample_app (store_of (photos 0 3)) false true));
      [reflexivity | reflexivity | compute_done].
  - apply (Hoff one_face (sample_app ∅ false false)). reflexivity.
Defined.

Lemma train_contract_witness :
  train read_any fit_unit predict_zero no_shuffle ∅ None = (TrainRaises, None)
  ∧ ∃ accuracy m,
      train read_any fit_unit predict_zero no_shuffle two_photo_store None
        = (TrainReturns accuracy, Some m)
      ∧ (0 <= accuracy <= 1)%Q.
Proof.
  split.
  - destruct (train_contract read_any fit_unit predict_zero no_shuffle ∅ None)
      as (H & _).
    apply H. compute_done.
  - destruct (train_contract read_any fit_unit predict_zero no_shuffle
                             two_photo_store None) as (_ & H).
    apply H. compute_done.
Defined.

Lemma recognize_face_guards_witness :
  recognize_face (Recognizer [] CONFIDENCE_THRESHOLD true (λ _ : unit, PredictRaises)) tt
    = ((None, 0%Q), [])
  ∧ (recognize_face one_user_recognizer tt).1.1 = None.
Proof.
  split.
  - apply (recognize_face_guards
             (Recognizer [] CONFIDENCE_THRESHOLD true (λ _ : unit, PredictRaises)) tt).
    by left.
  - apply (proj2 (recognize_face_guards one_user_recognizer tt) 1 (100 # 1));
      [reflexivity|]. left. simpl. lia.
Defined.

End MoreWitnesses.

(** * Further properties *)

(** ** Listing the photos of a user *)

Section ListingFacts.
Import UserManager UserRegistry.

Lemma insert_by_ctime_snoc x y l :
  fctime x ≤ fctime y →
  insert_by_ctime x (l ++ [y]) = insert_by_ctime x l ++ [y].
Proof.
  intros Hxy. induction l as [|z l IH]; simpl.
  - by destruct (Z.leb_spec (fctime x) (fctime y)); [|lia].
  - destruct (fctime x <=? fctime z); [done|]. by rewrite IH.
Qed.

(** An entry that is not earlier than the others and comes last in the
    listing comes last in the sorted list. *)
Lemma sort_by_ctime_snoc l y :
  Forall (λ x, fctime x ≤ fctime y) l →
  sort_by_ctime (l ++ [y]) = sort_by_ctime l ++ [y].
Proof.
  induction 1 as [|x l Hx _ IH]; simpl; [done|].
  by rewrite IH, insert_by_ctime_snoc.
Qed.

Lemma filter_cons_inv {A} (P : A → Prop) `{!∀ x, Decision (P x)} (l : list A) x rest :
  filter P l = x :: rest →
  ∃ l1 l2, l = l1 ++ x :: l2 ∧ filter P l2 = rest.
Proof.
  induction l as [|y l IH]; [done|].
  rewrite filter_cons. destruct (decide (P y)).
  - intros [= -> <-]. by exists [], l.
  - intros Hfl. destruct (IH Hfl) as (l1 & l2 & -> & Hr). by exists (y :: l1), l2.
Qed.

(** X1. [get_user_photo_files] gives the files of the user's directory
    whose names end in a photo extension, each as often as the directory
    has it, in ascending order of creation time; for an unknown user it
    gives nothing, and the count is 0. *)
Theorem get_user_photo_files_listing (fs : store) (u : string) :
  StronglySorted le_ctime (get_user_photo_files fs u)
  ∧ get_user_photo_files fs u ≡ₚ filter is_photo (default [] (fs !! u))
  ∧ (∀ f, f ∈ get_user_photo_files fs u ↔
          ∃ d, fs !! u = Some d ∧ f ∈ d ∧ FileName.is_photo_name (fname f) = true)
  ∧ (fs !! u = None →
     get_user_photo_files fs u = [] ∧ get_user_photo_count fs u = 0%nat).
Proof.
  unfold get_user_photo_count, get_user_photo_files.
  destruct (fs !! u) as [d|]; simpl.
  - split; [apply photo_files_sorted|].
    split; [apply sort_by_ctime_perm|]. split; [|done].
    intros f. rewrite elem_of_photo_files. unfold is_photo. split.
    + intros [Hp Hf]. exists d. by rewrite <- Is_true_true.
    + intros (d' & [= <-] & Hf & Hp). by rewrite Is_true_true.
  - split; [constructor|]. split; [done|]. split; [|done].
    intros f. split; [by intros H%elem_of_nil | by intros (d & ? & _)].
Qed.

(** X2. The sort is stable: of two photos of a directory, the one listed
    first comes first in [get_user_photo_files] unless the other was
    created strictly earlier. *)
Theorem photo_files_stable (d : dir) (a b : file) :
  wf_dir d →
  before d a b →
  is_photo a → is_photo b →
  fctime a ≤ fctime b →
  before (photo_files d) a b.
Proof.
  intros Hwf (l1 & l2 & l3 & ->) Ha Hb Hle.
  assert (NoDup (l1 ++ a :: l2 ++ b :: l3)) as Hnd.
  { eapply NoDup_fmap_1. exact Hwf. }
  set (P := λ f : file, f = a ∨ f = b).
  assert (filter P (photo_files (l1 ++ a :: l2 ++ b :: l3)) = [a; b]) as Hf.
  { rewrite <- photo_files_filter. unfold photo_files.
    assert (filter P (l1 ++ a :: l2 ++ b :: l3) = [a; b]) as ->.
    { apply NoDup_app in Hnd as (_ & H1 & Hnd).
      apply NoDup_cons in Hnd as [Ha' Hnd].
      apply NoDup_app in Hnd as (_ & H2 & Hnd).
      apply NoDup_cons in Hnd as [Hb' _].
      assert (∀ l : list file, a ∉ l → b ∉ l → filter P l = []) as Hnone.
      { intros l Hal Hbl. induction l as [|x l IH]; [done|].
        rewrite not_elem_of_cons in Hal, Hbl.
        rewrite filter_cons_False; [apply IH; tauto|].
        unfold P. intros [->| ->]; tauto. }
      rewrite filter_app, filter_cons_True by (by left).
      rewrite filter_app, filter_cons_True by (by right).
      rewrite (Hnone l1), (Hnone l2), (Hnone l3); [done|..].
      - intros H. apply Ha'. rewrite elem_of_app, elem_of_cons. tauto.
      - done.
      - intros H. apply Ha'. rewrite elem_of_app. tauto.
      - intros H. apply (H2 b); [done | by left].
      - intros H. apply (H1 a); [done | by left].
      - intros H. apply (H1 b); [done|].
        rewrite elem_of_cons, elem_of_app, elem_of_cons. tauto. }
    rewrite filter_cons_True by done. rewrite filter_cons_True by done.
    simpl. by destruct (Z.leb_spec (fctime a) (fctime b)); [|lia]. }
  apply filter_cons_inv in Hf as (r1 & r & Hl & Hf).
  apply filter_cons_inv in Hf as (r2 & r3 & -> & _).
  by exists r1, r2, r3.
Qed.

End ListingFacts.

(** ** Creating and deleting users, adding photos *)

Section RegistryFacts.
Import UserManager UserRegistry.

Lemma elem_of_get_users (fs : store) (u : string) :
  u ∈ get_users fs ↔ is_Some (fs !! u).
Proof.
  unfold get_users. rewrite list_elem_of_fmap. split.
  - intros ([v d] & -> & Hin). apply elem_of_map_to_list in Hin. eauto.
  - intros [d Hd]. exists (u, d). split; [done|]. by apply elem_of_map_to_list.
Qed.

(** X3. For a name that is a single path component, [create_user]
    answers [True] exactly when the name is that of no user; the name is a
    user afterwards, no photo of any user is added or lost, no other
    directory changes, and a second call answers [False] and changes
    nothing. *)
Theorem create_user_spec (fs : store) (u : string) :
  let fs' := (create_user fs u).1 in
  plain_name u = true →
  ((create_user fs u).2 = true ↔ u ∉ get_users fs)
  ∧ (u ∈ get_users fs')
  ∧ (∀ v, get_user_photo_files fs' v = get_user_photo_files fs v)
  ∧ (∀ v, v ≠ u → fs' !! v = fs !! v)
  ∧ create_user fs' u = (fs', false).
Proof.
  intros fs' _. subst fs'. unfold create_user. rewrite !elem_of_get_users.
  destruct (fs !! u) as [d|] eqn:Hu; simpl.
  - rewrite Hu. split; [split; [done | intros H; destruct H; eauto]|].
    repeat split; eauto.
  - rewrite lookup_insert_eq.
    split; [split; [by intros _ [? ?] | done]|].
    split; [eauto|]. split; [intros v; by apply get_user_photo_files_create|].
    split; [|done]. intros v Hv. by rewrite lookup_insert_ne.
Qed.

(** X4. For a name that is a single path component, [delete_user]
    answers whether the user existed; afterwards the name is no user and
    has no photos, and the other users keep their directories.  Deleting a
    user just created gives the store back. *)
Theorem delete_user_spec (fs : store) (u : string) :
  let fs' := (delete_user fs u).1 in
  plain_name u = true →
  ((delete_user fs u).2 = true ↔ u ∈ get_users fs)
  ∧ (u ∉ get_users fs')
  ∧ get_user_photo_count fs' u = 0%nat
  ∧ (∀ v, v ≠ u → fs' !! v = fs !! v)
  ∧ (u ∉ get_users fs → fs' = fs ∧ delete_user (create_user fs u).1 u = (fs, true)).
Proof.
  intros fs' _. subst fs'.
  unfold delete_user, create_user, get_user_photo_count, get_user_photo_files.
  rewrite !elem_of_get_users.
  destruct (fs !! u) as [d|] eqn:Hu; simpl.
  - rewrite lookup_delete_eq.
    split; [split; eauto|]. split; [by intros [? ?]|]. split; [done|].
    split; [intros v Hv; by rewrite lookup_delete_ne|].
    intros H. destruct H. eauto.
  - rewrite Hu. split; [split; [done | by intros [? ?]]|].
    split; [by intros [? ?]|]. split; [done|]. split; [done|].
    intros _. split; [done|]. rewrite lookup_insert_eq. simpl.
    by rewrite delete_insert_id.
Qed.

Lemma length_photo_files (d : dir) : length (photo_files d) = length (filter is_photo d).
Proof. unfold photo_files. apply length_sort_by_ctime. Qed.

Lemma length_filter_fmap_name (g : file → file) (d : dir) :
  (∀ f, fname (g f) = fname f) →
  length (filter is_photo (g <$> d)) = length (filter is_photo d).
Proof.
  intros Hg. induction d as [|f d IH]; [done|].
  rewrite fmap_cons, !filter_cons.
  assert (is_photo (g f) ↔ is_photo f) as Hiff by (unfold is_photo; by rewrite Hg).
  destruct (decide (is_photo (g f))), (decide (is_photo f)); simpl; try tauto; lia.
Qed.

Lemma length_photo_files_imwrite stamp t (d : dir) :
  length (photo_files (imwrite (FileName.photo_name stamp) t d)) =
    if path_exists (FileName.photo_name stamp) d then length (photo_files d)
    else S (length (photo_files d)).
Proof.
  rewrite !length_photo_files. unfold imwrite.
  destruct (path_exists (FileName.photo_name stamp) d) eqn:He.
  - apply length_filter_fmap_name.
    intros f. by destruct (decide (fname f = FileName.photo_name stamp)).
  - rewrite filter_app, length_app, filter_cons_True by apply is_photo_new.
    simpl. lia.
Qed.

(** X5. For a user name that is a single path component,
    [add_photo_to_user] makes the directory when it is missing and leaves
    the other users alone.  The photo it writes is listed afterwards; the
    count it returns is one more than before, or the same when a photo of
    that time stamp was there and is written over. *)
Theorem add_photo_to_user_spec (fs : store) (u stamp : string) (t : Z) :
  let d := default [] (fs !! u) in
  let p := FileName.photo_name stamp in
  let fs' := add_photo_to_user fs u stamp t in
  plain_name u = true →
  fs' !! u = Some (imwrite p t d)
  ∧ (∀ v, v ≠ u → fs' !! v = fs !! v)
  ∧ File p t ∈ get_user_photo_files fs' u
  ∧ add_photo_to_user_count fs u stamp t =
      (if path_exists p d then get_user_photo_count fs u
       else S (get_user_photo_count fs u)).
Proof.
  intros d p fs' _. subst fs'.
  split; [apply add_photo_to_user_lookup|].
  split; [intros v Hv; unfold add_photo_to_user; by rewrite lookup_insert_ne|].
  assert (get_user_photo_count fs u = length (filter is_photo d)) as Hcount.
  { unfold get_user_photo_count, get_user_photo_files, d.
    destruct (fs !! u); simpl; [apply length_photo_files | done]. }
  unfold add_photo_to_user_count. rewrite Hcount.
  unfold get_user_photo_count, get_user_photo_files.
  rewrite add_photo_to_user_lookup. fold d p.
  split.
  - apply elem_of_photo_files. split; [apply is_photo_new|].
    unfold imwrite. destruct (path_exists p d) eqn:He.
    + apply path_exists_true in He. unfold names in He.
      apply list_elem_of_fmap in He as (f & Hp & Hf).
      apply list_elem_of_fmap. exists f. split; [|done].
      by rewrite decide_True.
    + apply elem_of_app. right. by apply list_elem_of_singleton.
  - unfold p. rewrite length_photo_files_imwrite, length_photo_files. done.
Qed.

End RegistryFacts.

(** ** More on the retention pass *)

Section RetentionMore.
Import UserManager UserRegistry.
Context `{tz : !TimeZone}.
Variable pol : policy.
Variable now : Z.

Lemma filter_not_in_nil (d : dir) : filter (λ f, fname f ∉ @nil string) d = d.
Proof.
  induction d as [|f d IH]; [done|].
  rewrite filter_cons_True by apply not_elem_of_nil. by rewrite IH.
Qed.

(** The retention pass removes the files of a list of photo names. *)
Lemma manage_retention_filter (d : dir) :
  ∃ removed : list string,
    Forall (λ p, FileName.is_photo_name p) removed
    ∧ manage_retention pol now d = filter (λ f, fname f ∉ removed) d.
Proof.
  destruct (raises_cases pol now) as [Hgo|Hraise]; cycle 1.
  { exists []. split; [by apply Forall_nil|].
    by rewrite manage_retention_raises, filter_not_in_nil. }
  rewrite manage_retention_returns by done.
  set (elig := photos_eligible_for_deletion pol now (photo_files d)).
  assert (Forall (λ p, FileName.is_photo_name p) elig) as Helig
    by apply photos_eligible_are_photos.
  destruct (Z.lt_ge_cases (max_photos_per_user pol) (age_phase pol now d).2)
    as [Hgt|Hle].
  - rewrite ceiling_phase_dir by done.
    set (n := Z.to_nat ((age_phase pol now d).2 - max_photos_per_user pol)).
    set (trimmed := names (take n (photo_files (age_phase pol now d).1))).
    exists (trimmed ++ elig). split.
    + apply Forall_app. split; [|done]. apply Forall_forall. intros p Hp.
      unfold trimmed, names in Hp. apply list_elem_of_fmap in Hp as (f & -> & Hf).
      apply elem_of_take in Hf as (i & Hi & _).
      apply list_elem_of_lookup_2, elem_of_photo_files in Hi as [Hph _]. exact Hph.
    + rewrite age_phase_dir. fold elig. rewrite list_filter_filter.
      apply list_filter_iff. intros f. rewrite not_elem_of_app. tauto.
  - rewrite ceiling_phase_skip by done. exists elig. split; [done|].
    apply age_phase_dir.
Qed.

(** The retention pass only removes photo files: what it leaves is a
    sublist of the directory, in the same order, and every file whose name
    has no photo extension is still there. *)
Lemma manage_retention_only_removes_photos (d : dir) :
  manage_retention pol now d `sublist_of` d
  ∧ filter (λ f, ¬ is_photo f) (manage_retention pol now d)
    = filter (λ f, ¬ is_photo f) d.
Proof.
  destruct (manage_retention_filter d) as (removed & Hph & ->). split.
  - apply sublist_filter.
  - rewrite list_filter_filter. apply list_filter_iff. intros f.
    split; [tauto|]. intros Hf. split; [done|]. intros Hin.
    rewrite Forall_forall in Hph. apply Hf. unfold is_photo. by apply Hph.
Qed.

(** An entry of a selection has at most as many entries after it there as
    in the whole list. *)
Lemma filter_lookup_from_end {A} (P : A → Prop) `{!∀ x, Decision (P x)}
    (l : list A) (i : nat) (x : A) :
  filter P l !! i = Some x →
  ∃ j, l !! j = Some x
       ∧ Z.of_nat (length (filter P l)) - 1 - Z.of_nat i
         ≤ Z.of_nat (length l) - 1 - Z.of_nat j.
Proof.
  revert i. induction l as [|y l IH]; intros i; [done|].
  rewrite filter_cons. destruct (decide (P y)).
  - destruct i as [|i]; simpl.
    + intros [= ->]. exists 0%nat. split; [done|].
      pose proof (length_filter P l). lia.
    + intros Hi. destruct (IH i Hi) as (j & Hj & Hle).
      exists (S j). split; [done|]. lia.
  - intros Hi. destruct (IH i Hi) as (j & Hj & Hle).
    exists (S j). split; [done|]. simpl. lia.
Qed.

(** X6. A second retention pass at the same time removes nothing. *)
Theorem manage_retention_idempotent (d : dir) :
  wf_dir d →
  0 ≤ max_photos_per_user pol →
  manage_retention pol now (manage_retention pol now d) = manage_retention pol now d.
Proof.
  intros Hwf Hmax.
  destruct (raises_cases pol now) as [Hgo|Hraise]; cycle 1.
  { by rewrite !manage_retention_raises. }
  pose proof (manage_retention_count pol now d Hwf Hmax Hgo) as Hcount.
  destruct (manage_retention_filter d) as (removed & Hph & Hd2).
  set (d2 := manage_retention pol now d) in *.
  assert (photos_eligible_for_deletion pol now (photo_files d2) = []) as Hnil.
  { destruct (photos_eligible_for_deletion pol now (photo_files d2)) as [|p ps] eqn:He;
      [done|exfalso].
    assert (p ∈ photos_eligible_for_deletion pol now (photo_files d2)) as Hp
      by (rewrite He; apply elem_of_cons; by left).
    apply elem_of_photos_eligible in Hp as (i & ph & Hi & _ & Ho & Hr).
    assert (ph ∈ d2) as Hin2
      by (apply list_elem_of_lookup_2, elem_of_photo_files in Hi; tauto).
    rewrite Hd2, photo_files_filter in Hi.
    apply filter_lookup_from_end in Hi as (j & Hj & Hle).
    rewrite <- photo_files_filter, <- Hd2 in Hle.
    assert (fname ph ∈ photos_eligible_for_deletion pol now (photo_files d)) as Hel.
    { apply elem_of_photos_eligible. exists j, ph. repeat split; [done..|].
      unfold is_not_among_recent_n in *. apply Z.leb_le. apply Z.leb_le in Hr. lia. }
    assert (ph ∉ (age_phase pol now d).1) as Hout.
    { rewrite age_phase_dir. intros Hf. apply list_elem_of_filter in Hf as [Hf _]. done. }
    apply Hout. unfold d2 in Hin2.
    rewrite manage_retention_returns in Hin2 by done.
    destruct (Z.lt_ge_cases (max_photos_per_user pol) (age_phase pol now d).2)
      as [Hgt|Hle'].
    - rewrite ceiling_phase_dir in Hin2 by done.
      apply list_elem_of_filter in Hin2 as [_ Hin2]. exact Hin2.
    - by rewrite ceiling_phase_skip in Hin2. }
  rewrite (manage_retention_returns pol now d2) by done.
  unfold age_phase. rewrite Hnil. simpl.
  apply ceiling_phase_skip. simpl. exact Hcount.
Qed.

(** The tracked count only goes down in the age loop. *)
Lemma age_loop_count_le ps st : (foldl age_step st ps).2 ≤ st.2.
Proof.
  revert st. induction ps as [|p ps IH]; intros st; simpl; [lia|].
  etransitivity; [apply IH|]. unfold age_step.
  destruct (path_exists p st.1); simpl; lia.
Qed.

Lemma filter_not_photo_imwrite stamp t (d : dir) :
  filter (λ f, ¬ is_photo f) (imwrite (FileName.photo_name stamp) t d)
  = filter (λ f, ¬ is_photo f) d.
Proof.
  unfold imwrite. destruct (path_exists _ d).
  - induction d as [|f d IH]; [done|].
    rewrite fmap_cons, !filter_cons, IH.
    destruct (decide (fname f = FileName.photo_name stamp)) as [Heq|Hne]; [|done].
    rewrite decide_False by (intros H; apply H; apply is_photo_new).
    rewrite decide_False; [done|].
    intros H. apply H. unfold is_photo. rewrite Heq. exact (is_photo_new stamp 0).
  - rewrite filter_app, filter_cons_False, app_nil_r; [done|].
    intros H. apply H. apply is_photo_new.
Qed.

(** X7. A call of [save_recognition_photo_and_manage_retention] for a
    user whose name is a single path component touches the directory of
    that user only.  In the directory of its user a call writes the photo
    and then only removes photo files: what is left is a sublist of the
    directory with the photo written, and every file without a photo
    extension is still there. *)
Theorem save_only_prunes_own_photos (fs : store) (u stamp : string) (t : Z) :
  let fs' := save_recognition_photo_and_manage_retention pol fs u stamp t now in
  let d := default [] (fs !! u) in
  (plain_name u = true → ∀ v, v ≠ u → fs' !! v = fs !! v)
  ∧ ∃ d', fs' !! u = Some d'
          ∧ d' `sublist_of` imwrite (FileName.photo_name stamp) t d
          ∧ filter (λ f, ¬ is_photo f) d' = filter (λ f, ¬ is_photo f) d.
Proof.
  intros fs' d. split; [intros _ v Hv; by apply save_lookup_ne|].
  eexists. split; [apply save_lookup|]. fold d.
  destruct (manage_retention_only_removes_photos
              (imwrite (FileName.photo_name stamp) t d)) as [Hsub Hkeep].
  split; [done|]. by rewrite Hkeep, filter_not_photo_imwrite.
Qed.

(** The age loop is not reached in a pass that raises at line 153. *)
Lemma age_phase_raises (d : dir) :
  raises pol now = true → (age_phase pol now d).1 = d.
Proof.
  intros Hr. rewrite age_phase_nothing; [done|].
  apply Forall_forall. intros f _. unfold is_older_than_retention.
  apply raises_true in Hr. by rewrite Hr.
Qed.

Lemma save_below_ceiling (fs : store) (u stamp : string) (t : Z) :
  let d0 := imwrite (FileName.photo_name stamp) t (default [] (fs !! u)) in
  let fs' := save_recognition_photo_and_manage_retention pol fs u stamp t now in
  Z.of_nat (get_user_photo_count fs u) < max_photos_per_user pol →
  fs' !! u = Some (age_phase pol now d0).1
  ∧ (age_phase pol now d0).2 ≤ max_photos_per_user pol.
Proof.
  intros d0 fs' Hlt. unfold fs'. rewrite save_lookup. fold d0.
  assert ((age_phase pol now d0).2 ≤ max_photos_per_user pol) as Hle.
  { unfold age_phase. etransitivity; [apply age_loop_count_le|]. simpl.
    unfold d0. rewrite length_photo_files_imwrite.
    assert (get_user_photo_count fs u = length (photo_files (default [] (fs !! u))))
      as Hc.
    { unfold get_user_photo_count, get_user_photo_files. by destruct (fs !! u). }
    rewrite Hc in Hlt. destruct (path_exists _ _); lia. }
  split; [|done].
  destruct (raises_cases pol now) as [Hgo|Hraise].
  - rewrite manage_retention_returns by done. by rewrite ceiling_phase_skip.
  - rewrite manage_retention_raises by done. by rewrite age_phase_raises.
Qed.

Lemma get_user_photo_count_save_le (fs : store) (u stamp : string) (t : Z) :
  (get_user_photo_count
     (save_recognition_photo_and_manage_retention pol fs u stamp t now) u
   ≤ S (get_user_photo_count fs u))%nat.
Proof.
  unfold get_user_photo_count, get_user_photo_files. rewrite save_lookup.
  destruct (manage_retention_filter
              (imwrite (FileName.photo_name stamp) t (default [] (fs !! u))))
    as (removed & _ & ->).
  rewrite photo_files_filter.
  etransitivity; [apply length_filter|].
  rewrite length_photo_files_imwrite.
  assert (length (photo_files (default [] (fs !! u)))
          = length (match fs !! u with Some d => photo_files d | None => [] end))
    as -> by (by destruct (fs !! u)).
  destruct (path_exists _ _); lia.
Qed.

(** X8. When the user holds fewer than [max_photos_per_user] photos
    before the call, which is what the recognition callback checks, the
    hard-ceiling phase removes nothing: the directory afterwards is the one
    the age phase left, and the user holds at most [max_photos_per_user]
    photos. *)
Theorem save_below_ceiling_skips_trim (fs : store) (u stamp : string) (t : Z) :
  let d0 := imwrite (FileName.photo_name stamp) t (default [] (fs !! u)) in
  let fs' := save_recognition_photo_and_manage_retention pol fs u stamp t now in
  Z.of_nat (get_user_photo_count fs u) < max_photos_per_user pol →
  fs' !! u = Some (age_phase pol now d0).1
  ∧ (age_phase pol now d0).2 ≤ max_photos_per_user pol
  ∧ Z.of_nat (get_user_photo_count fs' u) ≤ max_photos_per_user pol.
Proof.
  intros d0 fs' Hlt. destruct (save_below_ceiling fs u stamp t Hlt) as [H1 H2].
  split; [done|]. split; [done|].
  pose proof (get_user_photo_count_save_le fs u stamp t). unfold fs'. lia.
Qed.

(** X9. Where no photo of the directory with the new one written is older
    than the retention window and their number does not exceed
    [max_photos_per_user], the call stores the photo as plain
    [add_photo_to_user] does. *)
Theorem save_is_add_without_pruning (fs : store) (u stamp : string) (t : Z) :
  let d0 := imwrite (FileName.photo_name stamp) t (default [] (fs !! u)) in
  Forall (λ f, is_older_than_retention pol now f = false) (photo_files d0) →
  Z.of_nat (length (photo_files d0)) ≤ max_photos_per_user pol →
  save_recognition_photo_and_manage_retention pol fs u stamp t now
  = add_photo_to_user fs u stamp t.
Proof.
  intros d0 Hyoung Hle.
  unfold save_recognition_photo_and_manage_retention.
  rewrite add_photo_to_user_lookup. fold d0.
  assert (manage_retention pol now d0 = d0) as ->.
  { destruct (raises_cases pol now) as [Hgo|Hraise].
    - rewrite manage_retention_returns, age_phase_nothing by done.
      by rewrite ceiling_phase_skip.
    - by rewrite manage_retention_raises. }
  apply insert_id, add_photo_to_user_lookup.
Qed.

(** In a sorted list an entry that is newer than every other entry is the
    last one. *)
Lemma sorted_newest_last (l : list file) (x : file) :
  StronglySorted le_ctime l →
  x ∈ l →
  (∀ y, y ∈ l → y ≠ x → fctime y < fctime x) →
  ∃ l', l = l' ++ [x].
Proof.
  induction 1 as [|a l Hs IH Ha]; intros Hx Hnew; [by apply elem_of_nil in Hx|].
  destruct (decide (x ∈ l)) as [Hin|Hout].
  - destruct IH as [l' ->]; [done| |by exists (a :: l')].
    intros y Hy. apply Hnew. apply elem_of_cons. by right.
  - apply elem_of_cons in Hx as [->|Hx]; [|done].
    destruct l as [|y l]; [by exists []|exfalso].
    assert (y ≠ a) as Hya by (intros ->; apply Hout, elem_of_cons; by left).
    assert (fctime y < fctime a) as Hlt.
    { apply Hnew; [|done]. apply elem_of_cons. right. apply elem_of_cons. by left. }
    apply Forall_cons in Ha as [Hay _]. unfold le_ctime in Hay. lia.
Qed.

(** The retention pass keeps a photo that is not older than the window and
    newer than every other photo of the directory, whatever the order in
    which the directory is listed. *)
Lemma manage_retention_keeps_newest (listing : dir) (new : file) :
  wf_dir listing →
  is_photo new → new ∈ listing →
  1 ≤ max_photos_per_user pol →
  is_older_than_retention pol now new = false →
  (∀ f, f ∈ photo_files listing → f ≠ new → fctime f < fctime new) →
  new ∈ photo_files (manage_retention pol now listing).
Proof.
  intros Hwf0 Hph Hin0 Hmax Hnew Hlast.
  destruct (raises_cases pol now) as [Hgo|Hraise]; cycle 1.
  { rewrite manage_retention_raises by done. by apply elem_of_photo_files. }
  rewrite manage_retention_returns by done.
  destruct (sorted_newest_last (photo_files listing) new) as [l0 HL0];
    [apply photo_files_sorted | by apply elem_of_photo_files | done |].
  set (elig := photos_eligible_for_deletion pol now (photo_files listing)).
  assert (fname new ∉ elig) as Hne.
  { intros Hin. apply elem_of_photos_eligible in Hin as (i & ph & Hi & Heq & Ho & _).
    apply list_elem_of_lookup_2, elem_of_photo_files in Hi as [_ Hi].
    assert (ph = new) as -> by (by apply (dir_name_inj listing)).
    congruence. }
  destruct (age_phase_count pol now listing Hwf0) as [Hwf1 Hc].
  assert (∃ l, photo_files (age_phase pol now listing).1 = l ++ [new])
    as [l HL1].
  { rewrite age_phase_dir. fold elig. rewrite photo_files_filter, HL0.
    rewrite filter_app, filter_cons_True, filter_nil by done. eauto. }
  destruct (Z.lt_ge_cases (max_photos_per_user pol) (age_phase pol now listing).2)
    as [Hgt|Hle].
  - rewrite ceiling_phase_photo_files, HL1 by done.
    rewrite HL1, length_app in Hc. simpl in Hc.
    rewrite drop_app_le by lia.
    apply elem_of_app. right. by apply list_elem_of_singleton.
  - rewrite ceiling_phase_skip, HL1 by done.
    apply elem_of_app. right. by apply list_elem_of_singleton.
Qed.

(** X10. The photo just saved is kept: when the ceiling is at least 1, the
    photo is written under a fresh name, is not older than the retention
    window and every photo the user had was created before it, it is
    listed after the call. *)
Theorem saved_photo_is_kept (fs : store) (u stamp : string) (t : Z) :
  let d := default [] (fs !! u) in
  let new := File (FileName.photo_name stamp) t in
  wf_dir d →
  path_exists (fname new) d = false →
  1 ≤ max_photos_per_user pol →
  is_older_than_retention pol now new = false →
  Forall (λ f, fctime f < t) (photo_files d) →
  new ∈ get_user_photo_files
          (save_recognition_photo_and_manage_retention pol fs u stamp t now) u.
Proof.
  intros d new Hwf Hfresh Hmax Hnew Hlast.
  unfold get_user_photo_files. rewrite save_lookup. fold d.
  rewrite (imwrite_fresh (FileName.photo_name stamp) t d Hfresh). fold new.
  assert (is_photo new) as Hph by apply is_photo_new.
  apply manage_retention_keeps_newest; [by apply wf_dir_snoc|done| |done..|].
  { apply elem_of_app. right. by apply list_elem_of_singleton. }
  intros f Hf Hne. rewrite (photo_files_snoc d new Hph) in Hf.
  apply elem_of_cons in Hf as [->|Hf]; [done|].
  rewrite Forall_forall in Hlast. by apply Hlast.
Qed.

End RetentionMore.

(** ** The recogniser on a frame, and the model it loads *)

Section UserListFacts.
Import UserManager UserRegistry FaceTrainer.

Lemma string_le_total : Total string_le.
Proof. intros a b. unfold string_le. apply String.leb_total. Qed.

Lemma sorted_users_perm (fs : store) : sorted_users fs ≡ₚ get_users fs.
Proof. unfold sorted_users, get_users. apply merge_sort_Permutation. Qed.

Lemma elem_of_sorted_users (fs : store) (u : string) :
  u ∈ sorted_users fs ↔ is_Some (fs !! u).
Proof. rewrite sorted_users_perm. apply elem_of_get_users. Qed.

Lemma NoDup_sorted_users (fs : store) : NoDup (sorted_users fs).
Proof.
  rewrite sorted_users_perm. unfold get_users. apply NoDup_fst_map_to_list.
Qed.

Lemma Sorted_sorted_users (fs : store) : Sorted string_le (sorted_users fs).
Proof. unfold sorted_users. apply Sorted_merge_sort. apply string_le_total. Qed.

End UserListFacts.

Section ProcessFrame.
Import FaceRecognizer.
Context {face : Type}.
Implicit Types (r : recognizer face) (f : face).

Lemma elem_of_py_index {A} (l : list A) (i : Z) (x : A) :
  py_index l i = Some x → x ∈ l.
Proof.
  unfold py_index. destruct (0 <=? i); [apply list_elem_of_lookup_2|].
  destruct (_ <=? i); [apply list_elem_of_lookup_2 | done].
Qed.

Lemma length_omap_le {A B} (g : A → option B) (l : list A) :
  (length (omap g l) ≤ length l)%nat.
Proof.
  induction l as [|x l IH]; [done|].
  change (omap g (x :: l))
    with (match g x with Some y => y :: omap g l | None => omap g l end).
  destruct (g x); simpl; lia.
Qed.

(** What it takes for [recognize_face] to name a user. *)
Lemma recognize_face_Some r f u c :
  (recognize_face r f).1 = (Some u, c) →
  u ∈ user_list r ∧ model_exists r = true ∧ (c < confidence_threshold r)%Q
  ∧ ∃ label, predict r f = Predicted label c
             ∧ label < Z.of_nat (length (user_list r))
             ∧ py_index (user_list r) label = Some u.
Proof.
  unfold recognize_face.
  destruct (bool_decide (user_list r = []) || negb (model_exists r)) eqn:Hg; [done|].
  apply orb_false_iff in Hg as [_ Hm]. apply negb_false_iff in Hm.
  destruct (predict r f) as [label c'|]; [|done].
  destruct (Qlt_bool c' (confidence_threshold r)) eqn:Hlt; [|done].
  destruct (Z.ltb_spec label (Z.of_nat (length (user_list r)))); [|done]. simpl.
  destruct (py_index (user_list r) label) as [u'|] eqn:Hu; [|done].
  intros [= -> ->]. split; [by eapply elem_of_py_index|]. split; [done|].
  split; [by apply Qlt_bool_iff|]. eauto.
Qed.

Lemma process_frame_elem r (faces : list face) u c :
  (u, c) ∈ process_frame r faces →
  u ≠ ""%string ∧ ∃ f, f ∈ faces ∧ (recognize_face r f).1 = (Some u, c).
Proof.
  intros Hin. unfold process_frame in Hin.
  apply list_elem_of_omap in Hin as (f & Hf & Hr).
  destruct (recognize_face r f).1 as [[u'|] c'] eqn:Hrec; [|done].
  simpl in Hr. destruct (String.eqb_spec u' ""); [done|].
  injection Hr as -> ->. eauto.
Qed.

(** X11. [process_frame] reports only known users, with a score strictly
    below the threshold, one at most for each face of the frame; without a
    known user or without the model file it reports nobody. *)
Theorem process_frame_sound r (faces : list face) :
  (∀ u c, (u, c) ∈ process_frame r faces →
          u ∈ user_list r ∧ u ≠ ""%string ∧ (c < confidence_threshold r)%Q
          ∧ ∃ f, f ∈ faces ∧ (recognize_face r f).1 = (Some u, c))
  ∧ (length (process_frame r faces) ≤ length faces)%nat
  ∧ (user_list r = [] ∨ model_exists r = false → process_frame r faces = []).
Proof.
  split; [|split].
  - intros u c Hin. destruct (process_frame_elem r faces u c Hin) as (Hne & f & Hf & Hrec).
    destruct (recognize_face_Some r f u c Hrec) as (Hu & _ & Hc & _).
    repeat split; eauto.
  - unfold process_frame. apply length_omap_le.
  - intros Hno. destruct (process_frame r faces) as [|[u c] rest] eqn:He; [done|].
    assert ((u, c) ∈ process_frame r faces) as Hin
      by (rewrite He; apply elem_of_cons; by left).
    destruct (process_frame_elem r faces u c Hin) as (_ & f & _ & Hrec).
    by rewrite (recognize_face_no_model r f Hno) in Hrec.
Qed.

End ProcessFrame.

Section LoadModel.
Import UserManager UserRegistry FaceRecognizer FaceTrainer ModelLoading.
Context {face model image : Type}.
Variable predict_of : model → face → prediction.

(** X12. A recogniser made while the model file is missing, or cannot be
    read, knows nobody: [recognize_face] answers [(None, 0.0)] on every
    face without a successful prediction and [process_frame] reports
    nobody.  Made from a readable model file, its user list is the list of
    the user directories, each once, in sorted order, and it predicts with
    the model of the file. *)
Theorem new_recognizer_spec (fs : store) (model_file : option model)
    (read_raises : bool) (threshold : Q) :
  let r := new_recognizer predict_of fs model_file read_raises threshold in
  confidence_threshold r = threshold
  ∧ (model_file = None ∨ read_raises = true →
     user_list r = []
     ∧ (∀ f, (recognize_face r f).1 = (None, 0%Q))
     ∧ ∀ faces, process_frame r faces = [])
  ∧ (∀ m, model_file = Some m → read_raises = false →
     user_list r = sorted_users fs
     ∧ Sorted string_le (user_list r)
     ∧ NoDup (user_list r)
     ∧ (∀ u, u ∈ user_list r ↔ u ∈ get_users fs)
     ∧ predict r = predict_of m
     ∧ model_exists r = true).
Proof.
  unfold new_recognizer, load_model.
  destruct model_file as [m|]; [destruct read_raises|]; simpl.
  - split; [done|]. split; [|by intros m' _ [=]].
    intros _. split; [done|]. split; [done|].
    intros faces. induction faces as [|f faces IH]; [done|]. simpl. by rewrite IH.
  - split; [done|]. split; [by intros [[=]|[=]]|].
    intros m' [= <-] _. split; [done|]. split; [apply Sorted_sorted_users|].
    split; [apply NoDup_sorted_users|]. split; [|done].
    intros u. by rewrite elem_of_sorted_users, elem_of_get_users.
  - split; [done|]. split; [|by intros m' [=]].
    intros _. split; [done|]. split; [done|].
    intros faces. induction faces as [|f faces IH]; [done|]. simpl. by rewrite IH.
Qed.

Variable imread : string → string → option image.

Lemma elem_of_load_user username (d : dir) label_id img k :
  (img, k) ∈ load_user imread username d label_id ↔
  k = label_id ∧ ∃ f, f ∈ d ∧ is_photo f ∧ imread username (fname f) = Some img.
Proof.
  unfold load_user. rewrite list_elem_of_omap. unfold is_photo. split.
  - intros (f & Hf & Hr).
    destruct (FileName.is_photo_name (fname f)) eqn:Hp; [|done].
    destruct (imread username (fname f)) as [img'|] eqn:Hi; [|done].
    simpl in Hr. injection Hr as <- <-. split; [done|]. exists f.
    rewrite Hp. eauto.
  - intros (-> & f & Hf & Hp & Hi). exists f. split; [done|].
    destruct (FileName.is_photo_name (fname f)); [|done]. by rewrite Hi.
Qed.

Lemma elem_of_load_users (fs : store) users label_id img k :
  (img, k) ∈ load_users imread fs users label_id →
  ∃ i u f, users !! i = Some u ∧ k = label_id + Z.of_nat i
           ∧ f ∈ default [] (fs !! u) ∧ is_photo f
           ∧ imread u (fname f) = Some img.
Proof.
  revert label_id. induction users as [|u users IH]; intros label_id; simpl.
  - by intros H%elem_of_nil.
  - rewrite elem_of_app. intros [Hin|Hin].
    + apply elem_of_load_user in Hin as (-> & f & Hf & Hp & Hi).
      exists 0%nat, u, f. repeat split; try done. lia.
    + destruct (IH _ Hin) as (i & v & f & Hv & -> & Hf & Hp & Hi).
      exists (S i), v, f. repeat split; try done. lia.
Qed.

(** X13. The labels of the training data are indices into the sorted list
    of users: a sample with label [k] is a readable photo file of the user
    at position [k].  So a recogniser loaded from a readable model file on
    the same store names that user for the label [k]. *)
Theorem training_labels_index_users (fs : store) (img : image) (k : Z) :
  (img, k) ∈ load_training_data imread fs →
  ∃ u d f,
    0 ≤ k < Z.of_nat (length (sorted_users fs))
    ∧ sorted_users fs !! Z.to_nat k = Some u
    ∧ fs !! u = Some d ∧ f ∈ d ∧ is_photo f
    ∧ imread u (fname f) = Some img
    ∧ ∀ (m : model) threshold,
        py_index (user_list (new_recognizer predict_of fs (Some m) false threshold)) k
        = Some u.
Proof.
  intros Hin. unfold load_training_data in Hin.
  apply elem_of_load_users in Hin as (i & u & f & Hu & -> & Hf & Hp & Hi).
  assert (is_Some (fs !! u)) as [d Hd]
    by (apply elem_of_sorted_users; by eapply list_elem_of_lookup_2).
  rewrite Hd in Hf. simpl in Hf. exists u, d, f.
  pose proof (lookup_lt_Some _ _ _ Hu) as Hlt.
  rewrite Z.add_0_l, Nat2Z.id.
  repeat split; try done; try lia.
  intros m threshold. unfold new_recognizer, load_model. simpl.
  unfold py_index. destruct (Z.leb_spec 0 (Z.of_nat i)); [|lia].
  by rewrite Nat2Z.id.
Qed.

End LoadModel.

(** ** More on the registration and recognition callbacks *)

Section CallbacksMore.
Import UserManager UserRegistry FaceRecognizer App.
Context `{tz : !TimeZone}.
Context {face : Type}.
Implicit Types (a : app face) (fr : frame face).

Local Arguments start_registration : simpl never.
Local Arguments after_session : simpl never.
Local Arguments save_recognition_photo_and_manage_retention : simpl never.

(** The store after a recognition frame. *)
Lemma process_recognition_frame_fs fr a :
  fs (process_recognition_frame fr a) =
    if recognition_active a && window_exists a then
      match process_frame (face_recognizer a) (faces fr) with
      | (username, _) :: _ =>
          if (photo_count username a <? MAX_PHOTOS_PER_USER)
             && (length (faces fr) =? 1)%nat
          then save_recognition_photo_and_manage_retention
                 app_policy (fs a) username (stamp fr) (ctime fr) (now fr)
          else fs a
      | [] => fs a
      end
    else fs a.
Proof.
  destruct a as [s r ra ga cu [rec cb] w tr]. run_app.
  destruct ra; simpl; [|done]. destruct w; simpl; [|done].
  destruct (process_frame r (faces fr)) as [|[username confidence] rest]; simpl;
    [done|].
  unfold photo_count. simpl.
  destruct (_ <? MAX_PHOTOS_PER_USER); simpl; [|done].
  by destruct (length (faces fr) =? 1)%nat.
Qed.

(** X14. The recognition callback changes the store only for the first
    recognised user of the frame, only when that user holds fewer than
    [MAX_PHOTOS_PER_USER] photos and the frame has exactly one face.  The
    change is one retention-aware save, in which the hard-ceiling phase
    removes nothing, and the user holds at most [MAX_PHOTOS_PER_USER]
    photos afterwards. *)
Theorem recognition_frame_store fr a :
  let a' := process_recognition_frame fr a in
  fs a' = fs a
  ∨ ∃ u c rest,
      recognition_active a = true ∧ window_exists a = true
      ∧ process_frame (face_recognizer a) (faces fr) = (u, c) :: rest
      ∧ photo_count u a < MAX_PHOTOS_PER_USER
      ∧ length (faces fr) = 1%nat
      ∧ fs a' = save_recognition_photo_and_manage_retention
                  app_policy (fs a) u (stamp fr) (ctime fr) (now fr)
      ∧ fs a' !! u =
          Some (age_phase app_policy (now fr)
                  (imwrite (FileName.photo_name (stamp fr)) (ctime fr)
                           (default [] (fs a !! u)))).1
      ∧ photo_count u a' ≤ MAX_PHOTOS_PER_USER
      ∧ ∀ v, v ≠ u → fs a' !! v = fs a !! v.
Proof.
  intros a'. pose proof (process_recognition_frame_fs fr a) as Hfs. fold a' in Hfs.
  destruct (recognition_active a) eqn:Hact; simpl in Hfs; [|by left].
  destruct (window_exists a) eqn:Hwin; simpl in Hfs; [|by left].
  destruct (process_frame (face_recognizer a) (faces fr)) as [|[u c] rest] eqn:Hp;
    [by left|].
  destruct (Z.ltb_spec (photo_count u a) MAX_PHOTOS_PER_USER) as [Hlt|Hge];
    simpl in Hfs; [|by left].
  destruct (Nat.eqb_spec (length (faces fr)) 1) as [Hone|Hne]; [|by left].
  right. exists u, c, rest. repeat split; try done.
  - rewrite Hfs. by apply (save_below_ceiling app_policy).
  - unfold photo_count in *. rewrite Hfs.
    pose proof (get_user_photo_count_save_le app_policy (now fr) (fs a) u
                  (stamp fr) (ctime fr)). lia.
  - intros v Hv. rewrite Hfs. by apply save_lookup_ne.
Qed.




End CallbacksMore.

(** ** Deleting a user, the capture loop and the recognition process *)

(** Lists the calls between two states in the goal, and settles a goal
    that tells a call is not among them. *)
Ltac events_goal :=
  unfold App.new_events; simpl;
  rewrite <- ?app_assoc; rewrite ?drop_app_length, ?drop_all; simpl;
  try done;
  try (let H := fresh "H" in intros H; split_elem_of H).

(** Settles a goal that tells a call is among the listed ones. *)
Ltac in_events := apply list_elem_of_In; simpl; tauto.

Section FlowsMore.
Import UserManager UserRegistry FaceRecognizer App AppFlows.
Context `{tz : !TimeZone}.
Context {face : Type}.
Implicit Types (a : app face) (fr : frame face) (dl : delivery face).

Local Arguments start_registration : simpl never.
Local Arguments after_session : simpl never.
Local Arguments save_recognition_photo_and_manage_retention : simpl never.
Local Arguments process_recognition_frame : simpl never.
Local Arguments process_registration_frame : simpl never.

(** X16. Deleting from the GUI.  The store changes only when the selected
    name is a user and the operator confirms; the user is then removed with
    all photos, the other users are untouched, and retraining is started
    with its message box.  In every other case the store is as before and
    no training is started. *)
Theorem app_delete_user_spec (selection : string) (confirm : bool) a :
  let a' := delete_user selection confirm a in
  (if bool_decide (selection ∈ get_users (fs a) ∧ selection ≠ ""%string) && confirm
   then fs a' = delete selection (fs a)
        ∧ (selection ∉ get_users (fs a'))
        ∧ get_user_photo_count (fs a') selection = 0%nat
        ∧ (∀ v, v ≠ selection → fs a' !! v = fs a !! v)
        ∧ new_events a a' =
            [AskConfirmation; ShowMessage; UpdateUserList; UpdateStatus; TrainModel true]
   else fs a' = fs a
        ∧ (∀ show, TrainModel show ∉ new_events a a')
        ∧ (UpdateUserList ∉ new_events a a'))
  ∧ face_recognizer a' = face_recognizer a
  ∧ recognition_active a' = recognition_active a
  ∧ registration_active a' = registration_active a
  ∧ camera_manager a' = camera_manager a.
Proof.
  intros a'. subst a'. destruct a as [s r ra ga cu cam w tr]. simpl.
  unfold delete_user, UserManager.delete_user, read. simpl.
  destruct (decide (get_users s = [])) as [Hnil|Hnil].
  { rewrite (bool_decide_eq_true_2 (get_users s = [])) by done.
    rewrite bool_decide_eq_false_2; [|rewrite Hnil; intros [H _]; by inversion H].
    simpl. repeat split; try done; intros; events_goal. }
  rewrite (bool_decide_eq_false_2 (get_users s = [])) by done.
  destruct (String.eqb_spec selection "") as [->|Hne].
  { rewrite bool_decide_eq_false_2 by (by intros [_ H]).
    simpl. repeat split; try done; intros; events_goal. }
  destruct (decide (selection ∈ get_users s)) as [Hin|Hin].
  - rewrite (bool_decide_eq_true_2 (selection ∈ get_users s)) by done.
    rewrite bool_decide_eq_true_2 by done. simpl.
    pose proof Hin as Hsome. apply elem_of_get_users in Hsome.
    destruct Hsome as [d Hd]. destruct confirm; simpl.
    + rewrite Hd. run_app. repeat split; try done.
      * rewrite elem_of_get_users, lookup_delete_eq. by intros [? ?].
      * unfold get_user_photo_count, get_user_photo_files.
        by rewrite lookup_delete_eq.
      * intros v Hv. by rewrite lookup_delete_ne.
      * events_goal.
    + run_app. repeat split; try done; intros; events_goal.
  - rewrite (bool_decide_eq_false_2 (selection ∈ get_users s)) by done.
    rewrite bool_decide_eq_false_2 by (by intros [H _]).
    simpl. repeat split; try done; intros; events_goal.
Qed.

(** *** The capture loop *)

Lemma capture_loop_off (turns : list (turn face)) n a :
  is_recording (camera_manager a) = false → capture_loop turns n a = a.
Proof. intros H. destruct turns; simpl; [done|]. unfold read. by rewrite H. Qed.

Lemma process_recognition_frame_no_match fr a :
  recognition_active a = true → window_exists a = true →
  process_frame (face_recognizer a) (faces fr) = [] →
  process_recognition_frame fr a =
    emit UpdateWelcomeMessage (emit UpdateStatus (emit ShowFrame a)).
Proof.
  intros Hact Hwin Hp. unfold process_recognition_frame, read, andthen.
  rewrite Hact. simpl. rewrite Hwin. simpl. by rewrite Hp.
Qed.

(** Frames without a match leave the loop as it was, but for the calls
    made. *)
Lemma capture_loop_no_match (pre : list (turn face)) a :
  camera_manager a = Camera true (Some RecognitionFrame) →
  recognition_active a = true → window_exists a = true →
  Forall (λ t, ∃ dl, reads t = ReadGives dl
                     ∧ process_frame (face_recognizer a) (faces (d_frame dl)) = [])
         pre →
  ∃ a1 es,
    camera_manager a1 = camera_manager a
    ∧ recognition_active a1 = true ∧ window_exists a1 = true
    ∧ face_recognizer a1 = face_recognizer a
    ∧ fs a1 = fs a
    ∧ trace a1 = trace a ++ es ∧ unlock_attempts es = 0%nat
    ∧ ∀ post, capture_loop (pre ++ post) 0 a = capture_loop post 0 a1.
Proof.
  intros Hcam Hact Hwin Hpre. revert a Hcam Hact Hwin Hpre.
  induction pre as [|t pre IH]; intros a Hcam Hact Hwin Hpre.
  - exists a, []. rewrite app_nil_r. by repeat split.
  - apply Forall_cons in Hpre as [(dl & Hread & Hno) Hpre].
    set (a0 := emit UpdateWelcomeMessage (emit UpdateStatus (emit ShowFrame a))).
    destruct (IH a0) as (a1 & es & H1 & H2 & H3 & H4 & H5 & H6 & H7 & H8);
      try done.
    exists a1, ([ShowFrame; UpdateStatus; UpdateWelcomeMessage] ++ es).
    rewrite H1, H4, H5, H6. repeat split; try done.
    + simpl. by rewrite <- !app_assoc.
    + intros post. rewrite <- H8. simpl. unfold read, callback_raises.
      rewrite Hcam, Hread. simpl. unfold andthen, run_callback, read.
      rewrite Hcam. simpl. by rewrite process_recognition_frame_no_match.
Qed.

(** X17. The first match ends the capture.  While recognition is active
    and the frames read so far gave no match, the first frame with a match
    triggers the one unlock attempt of the loop, clears the flag and stops
    the camera, and the turns after it reach no callback: the loop ends as
    if they had not been made. *)
Theorem capture_ends_at_first_match
    (pre post : list (turn face)) (dl : delivery face) (ri : bool) a :
  camera_manager a = Camera true (Some RecognitionFrame) →
  recognition_active a = true → window_exists a = true →
  Forall (λ t, ∃ dl', reads t = ReadGives dl'
                      ∧ process_frame (face_recognizer a) (faces (d_frame dl')) = [])
         pre →
  process_frame (face_recognizer a) (faces (d_frame dl)) ≠ [] →
  let a' := _capture_loop (pre ++ Turn (ReadGives dl) ri :: post) a in
  a' = _capture_loop (pre ++ [Turn (ReadGives dl) ri]) a
  ∧ unlock_attempts (new_events a a') = 1%nat
  ∧ recognition_active a' = false
  ∧ is_recording (camera_manager a') = false.
Proof.
  intros Hcam Hact Hwin Hpre Hmatch a'. subst a'. unfold _capture_loop.
  destruct (capture_loop_no_match pre a Hcam Hact Hwin Hpre)
    as (a1 & es & H1 & H2 & H3 & H4 & H5 & H6 & H7 & H8).
  rewrite !H8.
  destruct (process_recognition_frame_spec (d_frame dl) a1) as (es' & Htr & Hspec).
  cbv zeta in Hspec.
  rewrite H2, H3, H4, bool_decide_eq_false_2 in Hspec by done. simpl in Hspec.
  destruct Hspec as (Hone & Hoff & Hrec).
  assert (∀ rest, capture_loop (Turn (ReadGives dl) ri :: rest) 0 a1
                  = process_recognition_frame (d_frame dl) a1) as Hstep.
  { intros rest. simpl. unfold read, callback_raises. rewrite H1, Hcam. simpl.
    unfold andthen, run_callback, read. rewrite H1, Hcam. simpl.
    by apply capture_loop_off. }
  rewrite !Hstep. repeat split; try done.
  rewrite (new_events_app a _ (es ++ es')).
  - rewrite unlock_attempts_app. lia.
  - by rewrite Htr, H6, app_assoc.
Qed.

(** *** Registration inside the capture loop *)

(** Called while the capture thread is alive and the camera is off,
    [start_registration] leaves the camera as it is. *)
Lemma start_registration_camera inp cpc a :
  thread_alive (capture inp) = true →
  is_recording (camera_manager a) = false →
  camera_manager (start_registration inp cpc a) = camera_manager a.
Proof.
  intros Hth Hoff. destruct a as [s r ra ga cu [rec cb] w tr].
  simpl in Hoff. subst rec. unfold start_registration. run_app. rewrite Hth.
  destruct ga; simpl.
  - by destruct (_ <=? cpc).
  - destruct (name_answer inp) as [username|]; simpl; [|done].
    destruct (String.eqb username ""); simpl; [done|].
    destruct (existing_photos_count s username =? 0).
    + by destruct (s !! username).
    + destruct (confirm_answer inp); simpl; [|done].
      by destruct (_ <=? existing_photos_count s username).
Qed.

Lemma after_session_camera ans target count a :
  thread_alive (capture (restart ans)) = true →
  is_recording (camera_manager a) = false →
  camera_manager (after_session ans target count a) = camera_manager a.
Proof.
  intros Hth Hoff. unfold after_session, train_model, andthen.
  repeat match goal with
         | |- context [if ?b then _ else _] => destruct b
         end;
    try (by destruct a);
    rewrite start_registration_camera by (done || by destruct a);
    by destruct a.
Qed.

(** X18. The capture loop ends with the registration session.  The frame
    with which the count reaches the target of the session stops the
    camera; whatever the operator answers to the prompts that follow, the
    camera is off and the callback of the ended session is still installed
    when the callback returns, because [start_capture] does nothing while
    the capture thread, on which the callback runs, is alive.  The turns
    after that frame reach no callback. *)
Theorem capture_ends_with_session
    (dl : delivery face) (ri : bool) (post : list (turn face)) (n : nat)
    (u : string) (target : Z) a :
  camera_manager a = Camera true (Some (RegistrationFrame (Some u) target)) →
  registration_active a = true →
  target ≤ photo_count u (after_capture (d_frame dl) u target a) →
  thread_alive (capture (restart (d_answers dl))) = true →
  let a' := capture_loop (Turn (ReadGives dl) ri :: post) n a in
  a' = process_registration_frame (d_frame dl) (d_answers dl) u target a
  ∧ camera_manager a' = Camera false (Some (RegistrationFrame (Some u) target)).
Proof.
  intros Hcam Hact Hcount Hth a'.
  assert (camera_manager
            (process_registration_frame (d_frame dl) (d_answers dl) u target a)
          = Camera false (Some (RegistrationFrame (Some u) target))) as Hoff.
  { rewrite process_registration_frame_active by done. cbv zeta.
    destruct (Z.leb_spec target
                (photo_count u (after_capture (d_frame dl) u target a)));
      [|lia].
    rewrite after_session_camera; try done.
    all: unfold after_capture, read, andthen, when, take_photo;
      destruct (takes_photo (d_frame dl) u target a);
      destruct a; simpl in *; by rewrite ?Hcam. }
  subst a'. simpl. unfold read, callback_raises. rewrite Hcam. simpl.
  unfold andthen, run_callback, read. rewrite Hcam. simpl.
  rewrite capture_loop_off by (by rewrite Hoff). done.
Qed.

(** *** The recognition process *)

(** The calls of a registration make no unlock attempt and leave the
    recognition flag alone. *)
Lemma start_registration_quiet inp cpc a :
  recognition_active (start_registration inp cpc a) = recognition_active a
  ∧ ∃ es, trace (start_registration inp cpc a) = trace a ++ es
          ∧ unlock_attempts es = 0%nat.
Proof.
  destruct a as [s r ra ga cu [rec cb] w tr]. unfold start_registration. run_app.
  destruct ga; simpl.
  - destruct (_ <=? cpc); [destruct rec|
      destruct (thread_alive (capture inp)), (camera_ok (capture inp))];
      simpl; (split; [done|]); rewrite <- ?app_assoc; eauto.
  - destruct (name_answer inp) as [username|]; simpl; [|eauto].
    destruct (String.eqb username ""); simpl; [eauto|].
    destruct (existing_photos_count s username =? 0).
    + destruct (s !! username) as [d|] eqn:Hs; simpl;
        destruct (thread_alive (capture inp)), (camera_ok (capture inp));
        simpl; (split; [done|]); rewrite <- ?app_assoc; eauto.
    + destruct (confirm_answer inp); simpl;
        [destruct (_ <=? existing_photos_count s username);
         [destruct rec|
          destruct (thread_alive (capture inp)), (camera_ok (capture inp))]
        |destruct rec];
        simpl; (split; [done|]); rewrite <- ?app_assoc; eauto.
Qed.

Lemma after_session_quiet ans target count a :
  recognition_active (after_session ans target count a) = recognition_active a
  ∧ ∃ es, trace (after_session ans target count a) = trace a ++ es
          ∧ unlock_attempts es = 0%nat.
Proof.
  unfold after_session, train_model, andthen.
  repeat match goal with
         | |- context [if ?b then _ else _] => destruct b
         end;
    try (destruct a; simpl; split; [done|]; rewrite <- ?app_assoc; by eauto).
  all: match goal with
       | |- context [start_registration ?i ?c ?x] =>
           destruct (start_registration_quiet i c x) as [Hf (es & Ht & Hz)];
           split; [rewrite Hf; by destruct a|];
           rewrite Ht; destruct a; simpl; rewrite <- ?app_assoc;
           eexists; split; [reflexivity|]; by rewrite ?unlock_attempts_app, ?Hz
       end.
Qed.

Lemma process_registration_frame_quiet fr ans username target a :
  recognition_active (process_registration_frame fr ans username target a)
    = recognition_active a
  ∧ ∃ es, trace (process_registration_frame fr ans username target a) = trace a ++ es
          ∧ unlock_attempts es = 0%nat.
Proof.
  destruct (registration_active a) eqn:Hact.
  2:{ rewrite process_registration_frame_inactive by done.
      split; [done|]. exists []. by rewrite app_nil_r. }
  rewrite process_registration_frame_active by done. cbv zeta.
  assert (recognition_active (after_capture fr username target a) = recognition_active a
          ∧ ∃ es, trace (after_capture fr username target a) = trace a ++ es
                  ∧ unlock_attempts es = 0%nat) as (Hr & es1 & Ht1 & Hz1).
  { unfold after_capture, read, andthen, when, take_photo.
    destruct (takes_photo fr username target a); destruct a; simpl;
      (split; [done|]); rewrite <- ?app_assoc; eauto. }
  revert Hr Ht1. generalize (after_capture fr username target a). intros a2 Hr Ht1.
  destruct (target <=? photo_count username a2).
  - match goal with
    | |- context [after_session ?an ?t ?c ?x] =>
        destruct (after_session_quiet an t c x) as [Hf (es & Ht & Hz)]
    end.
    split.
    + rewrite Hf, <- Hr. by destruct a2.
    + rewrite Ht. unfold stop_camera, read, andthen. destruct a2; simpl in *.
      rewrite Ht1, <- ?app_assoc. eexists. split; [reflexivity|].
      by rewrite !unlock_attempts_app, Hz1, Hz.
  - destruct (negb (length (faces fr) =? 1)%nat).
    + split; [by destruct a2|]. destruct a2; simpl in *.
      rewrite Ht1, <- ?app_assoc. eexists. split; [reflexivity|].
      by rewrite !unlock_attempts_app, Hz1.
    + split; [done|]. eauto.
Qed.

(** Between two states: the calls made hold at most one unlock attempt,
    an unlock attempt comes with the flag cleared, and with the flag
    cleared at the start there is none. *)
Local Abbreviation one_unlock a a' :=
  (∃ es, trace a' = trace a ++ es
         ∧ (unlock_attempts es ≤ 1)%nat
         ∧ (unlock_attempts es = 1%nat → recognition_active a' = false)
         ∧ (recognition_active a = false →
            unlock_attempts es = 0%nat ∧ recognition_active a' = false)).

Lemma one_unlock_refl a : one_unlock a a.
Proof.
  exists []. rewrite app_nil_r. unfold unlock_attempts. simpl.
  repeat split; try done; lia.
Qed.

Lemma one_unlock_trans a a1 a2 : one_unlock a a1 → one_unlock a1 a2 → one_unlock a a2.
Proof.
  intros (es1 & Ht1 & Hle1 & Hone1 & Hoff1) (es2 & Ht2 & Hle2 & Hone2 & Hoff2).
  exists (es1 ++ es2). rewrite Ht2, Ht1, <- app_assoc, unlock_attempts_app.
  split; [done|].
  destruct (decide (unlock_attempts es1 = 1%nat)) as [H1|H1].
  - destruct (Hoff2 (Hone1 H1)) as [Hz Hf]. split; [lia|]. split; [done|].
    intros Ha. destruct (Hoff1 Ha). lia.
  - split; [lia|]. split.
    + intros H. apply Hone2. lia.
    + intros H. destruct (Hoff1 H) as [Hz Hf]. destruct (Hoff2 Hf). split; [lia|done].
Qed.

Lemma one_unlock_quiet a a' :
  recognition_active a' = recognition_active a →
  (∃ es, trace a' = trace a ++ es ∧ unlock_attempts es = 0%nat) →
  one_unlock a a'.
Proof.
  intros Hr (es & Ht & Hz). exists es. rewrite Hz, Hr.
  repeat split; try done; lia.
Qed.

Lemma one_unlock_recognition_frame fr a :
  one_unlock a (process_recognition_frame fr a).
Proof.
  destruct (process_recognition_frame_spec fr a) as (es & Htr & Hspec).
  cbv zeta in Hspec. exists es. split; [done|].
  destruct (recognition_active a) eqn:Hact; simpl in Hspec.
  - destruct (window_exists a && _).
    + destruct Hspec as (-> & Hoff & _). repeat split; try done; lia.
    + destruct Hspec as (-> & Hsame). repeat split; try done; lia.
  - destruct Hspec as (-> & Hsame). repeat split; try done; lia.
Qed.

Lemma one_unlock_run_callback dl a : one_unlock a (run_callback dl a).
Proof.
  unfold run_callback, read.
  destruct (frame_callback (camera_manager a)) as [[[username|] target|]|].
  - destruct (process_registration_frame_quiet
                (d_frame dl) (d_answers dl) username target a).
    by apply one_unlock_quiet.
  - apply one_unlock_quiet.
    + by destruct (registration_active a); destruct a.
    + destruct (registration_active a); destruct a; simpl.
      * by exists [ShowFrame].
      * exists []. by rewrite app_nil_r.
  - apply one_unlock_recognition_frame.
  - apply one_unlock_refl.
Qed.

Lemma one_unlock_camera_off a :
  one_unlock a (set_camera (Camera false (frame_callback (camera_manager a))) a).
Proof.
  apply one_unlock_quiet; [by destruct a|].
  exists []. destruct a; simpl. by rewrite app_nil_r.
Qed.

Lemma one_unlock_capture_loop (turns : list (turn face)) n a :
  one_unlock a (capture_loop turns n a).
Proof.
  revert n a. induction turns as [|t turns IH]; intros n a.
  - apply one_unlock_refl.
  - simpl. unfold read.
    destruct (is_recording (camera_manager a)); simpl; [|apply one_unlock_refl].
    assert (∀ k b, one_unlock b (on_failure t k (capture_loop turns) b)) as Hfail.
    { intros k b. unfold on_failure, read.
      destruct (MAX_FAILURES <=? S k)%nat; [|apply IH].
      destruct (reinit_ok t); [apply IH|apply one_unlock_camera_off]. }
    destruct (reads t) as [|dl]; [apply Hfail|].
    unfold andthen.
    eapply one_unlock_trans; [apply one_unlock_run_callback|].
    destruct (callback_raises a); [apply Hfail|apply IH].
Qed.

Lemma one_unlock_clear_flag a : one_unlock a (set_recognition_active false a).
Proof.
  exists []. destruct a; simpl. rewrite app_nil_r. unfold unlock_attempts. simpl.
  split; [done|]. split; [lia|]. by split.
Qed.

Lemma one_unlock_stop_camera a : one_unlock a (stop_camera a).
Proof.
  apply one_unlock_quiet; [by destruct a|].
  exists [StopCamera]. by destruct a.
Qed.

Lemma one_unlock_emit e a : e ≠ TryUnlock → one_unlock a (emit e a).
Proof.
  intros He. apply one_unlock_quiet; [by destruct a|].
  exists [e]. split; [by destruct a|].
  unfold unlock_attempts. rewrite filter_cons. by destruct (decide (e = TryUnlock)).
Qed.

Lemma one_unlock_start_capture e cb a : one_unlock a (start_capture e cb a).
Proof.
  apply one_unlock_quiet.
  - unfold start_capture, read, andthen.
    by destruct (thread_alive e), (camera_ok e); destruct a.
  - unfold start_capture, read, andthen.
    destruct (thread_alive e), (camera_ok e); destruct a; simpl;
      eexists; (split; [reflexivity|done]).
Qed.

Lemma run_recognition_process_inactive (cycles : list (cycle face)) a :
  recognition_active a = false →
  run_recognition_process cycles a = emit UpdateStatus (stop_camera a).
Proof. intros H. destruct cycles; simpl; unfold read; by rewrite H. Qed.

Lemma run_recognition_process_nil a :
  recognition_active a = true → run_recognition_process [] a = a.
Proof. intros H. simpl. unfold read. by rewrite H. Qed.

Lemma run_recognition_process_cons (cy : cycle face) rest a :
  recognition_active a = true →
  run_recognition_process (cy :: rest) a =
    let a1 := emit UpdateStatus (start_capture (cyc_capture cy) RecognitionFrame a) in
    if capture_starts (cyc_capture cy)
    then run_recognition_process rest
           (emit UpdateStatus
              (stop_camera (capture_loop (cyc_turns cy) (cyc_failures cy) a1)))
    else set_recognition_active false a1.
Proof.
  intros H. simpl. unfold read at 1. rewrite H. simpl. unfold andthen.
  by destruct (capture_starts (cyc_capture cy)).
Qed.

Lemma flag_cases a : recognition_active a = true ∨ recognition_active a = false.
Proof. destruct (recognition_active a); auto. Qed.

Lemma run_recognition_process_unlocks (cycles : list (cycle face)) a :
  one_unlock a (run_recognition_process cycles a)
  ∧ (recognition_active (run_recognition_process cycles a) = false ∨ cycles ≠ [] →
     is_recording (camera_manager (run_recognition_process cycles a)) = false).
Proof.
  revert a. induction cycles as [|cy rest IH]; intros a;
    destruct (flag_cases a) as [Hact|Hact].
  - rewrite run_recognition_process_nil by done.
    split; [apply one_unlock_refl|]. intros [H|H]; [congruence|done].
  - rewrite run_recognition_process_inactive by done.
    split; [|by destruct a].
    eapply one_unlock_trans; [apply one_unlock_stop_camera|].
    by apply one_unlock_emit.
  - rewrite run_recognition_process_cons by done. cbv zeta.
    destruct (capture_starts (cyc_capture cy)) eqn:Hst.
    + match goal with
      | |- context [run_recognition_process rest ?y] =>
          destruct (IH y) as [Hone Hoff];
          assert (is_recording (camera_manager y) = false) as Hx
            by (unfold stop_camera, read, andthen;
                by destruct (capture_loop _ _ _));
          assert (one_unlock a y) as Hax;
          [|revert Hone Hoff Hx Hax; generalize y; intros x Hone Hoff Hx Hax]
      end.
      { eapply one_unlock_trans; [apply one_unlock_start_capture|].
        eapply one_unlock_trans; [by apply (one_unlock_emit UpdateStatus)|].
        eapply one_unlock_trans; [apply one_unlock_capture_loop|].
        eapply one_unlock_trans; [apply one_unlock_stop_camera|].
        by apply one_unlock_emit. }
      split.
      * by eapply one_unlock_trans.
      * intros _. destruct rest as [|cy' rest']; [|apply Hoff; by right].
        destruct (flag_cases x) as [Hx'|Hx'].
        -- by rewrite run_recognition_process_nil.
        -- apply Hoff. left. rewrite run_recognition_process_inactive by done.
           by destruct x.
    + split.
      * eapply one_unlock_trans; [apply one_unlock_start_capture|].
        eapply one_unlock_trans; [by apply (one_unlock_emit UpdateStatus)|].
        apply one_unlock_clear_flag.
      * intros _. unfold capture_starts in Hst.
        apply orb_false_iff in Hst as [Hth Hok].
        unfold start_capture, read, andthen. rewrite Hth, Hok. by destruct a.
  - rewrite run_recognition_process_inactive by done.
    split; [|by destruct a].
    eapply one_unlock_trans; [apply one_unlock_stop_camera|].
    by apply one_unlock_emit.
Qed.

(** X19. The recognition process.  Over any number of its turns, with
    whatever the capture loop reads, it leads to at most one unlock
    attempt, and an unlock attempt leaves the flag cleared.  When it has
    made a turn or found the flag cleared, the camera is off at the end.
    A turn in which the camera cannot be started clears the flag and ends
    the process, after the call to [start_capture] and one status line.
    Started with the flag cleared, it only stops the camera. *)
Theorem recognition_process_spec (cycles : list (cycle face)) a :
  let a' := run_recognition_process cycles a in
  (unlock_attempts (new_events a a') ≤ 1)%nat
  ∧ (unlock_attempts (new_events a a') = 1%nat → recognition_active a' = false)
  ∧ (recognition_active a' = false ∨ cycles ≠ [] →
     is_recording (camera_manager a') = false)
  ∧ (∀ cy rest,
       cycles = cy :: rest → recognition_active a = true →
       capture_starts (cyc_capture cy) = false →
       recognition_active a' = false
       ∧ fs a' = fs a
       ∧ new_events a a' = [StartCapture RecognitionFrame false; UpdateStatus])
  ∧ (recognition_active a = false →
     fs a' = fs a ∧ new_events a a' = [StopCamera; UpdateStatus]).
Proof.
  intros a'. subst a'.
  destruct (run_recognition_process_unlocks cycles a)
    as [(es & Htr & Hle & Hone & _) Hoff].
  rewrite (new_events_app _ _ _ Htr). repeat split; try done.
  - subst cycles. rewrite run_recognition_process_cons by done. cbv zeta.
    rewrite H1. by destruct (start_capture _ _ _).
  - subst cycles. rewrite run_recognition_process_cons by done. cbv zeta.
    rewrite H1. unfold capture_starts in H1.
    apply orb_false_iff in H1 as [Hth Hok].
    unfold start_capture, read, andthen. rewrite Hth, Hok. by destruct a.
  - subst cycles. rewrite run_recognition_process_cons in Htr by done.
    cbv zeta in Htr. rewrite H1 in Htr. unfold capture_starts in H1.
    apply orb_false_iff in H1 as [Hth Hok].
    unfold start_capture, read, andthen in Htr. rewrite Hth, Hok in Htr.
    destruct a; simpl in *. rewrite <- app_assoc in Htr.
    by apply app_inv_head in Htr.
  - rewrite run_recognition_process_inactive by done. by destruct a.
  - rewrite run_recognition_process_inactive in Htr by done.
    destruct a; simpl in *. rewrite <- app_assoc in Htr.
    by apply app_inv_head in Htr.
Qed.

(** *** The failure count of the capture loop *)

Lemma capture_loop_failures_absorbed (fails rest : list (turn face)) n a :
  Forall (λ t, reads t = ReadFails) fails →
  (n + length fails < MAX_FAILURES)%nat →
  capture_loop (fails ++ rest) n a = capture_loop rest (n + length fails) a.
Proof.
  revert n. induction fails as [|t fails IH]; intros n Hf Hlt; simpl in *.
  - by rewrite Nat.add_0_r.
  - apply Forall_cons in Hf as [Ht Hf]. unfold read.
    destruct (is_recording (camera_manager a)) eqn:Hrec; simpl.
    + rewrite Ht. unfold on_failure.
      destruct (Nat.leb_spec MAX_FAILURES (S n)); [lia|].
      rewrite IH by (done || lia). f_equal. lia.
    + by rewrite capture_loop_off.
Qed.

(** X20. The failure count of the capture loop.  A turn that reads a frame
    starts the count over before the callback runs, so what the count was
    and whether the camera could be initialised again do not matter for
    it, even when the callback raises.  Failed reads in a row that stay
    below [max_failures] only raise the count.  The failed read that
    brings the count to [max_failures] initialises the camera again: when
    that succeeds the count starts over, when it fails the flag is cleared
    and the loop ends, with nothing else changed. *)
Theorem capture_loop_failure_budget :
  (∀ (dl : delivery face) ri ri' (rest : list (turn face)) n n' a,
     capture_loop (Turn (ReadGives dl) ri :: rest) n a
       = capture_loop (Turn (ReadGives dl) ri' :: rest) n' a)
  ∧ (∀ (fails rest : list (turn face)) n a,
       Forall (λ t, reads t = ReadFails) fails →
       (n + length fails < MAX_FAILURES)%nat →
       capture_loop (fails ++ rest) n a = capture_loop rest (n + length fails) a)
  ∧ (∀ (fails rest : list (turn face)) (t : turn face) n a,
       Forall (λ t, reads t = ReadFails) (fails ++ [t]) →
       (n + length (fails ++ [t]) = MAX_FAILURES)%nat →
       is_recording (camera_manager a) = true →
       capture_loop (fails ++ t :: rest) n a =
         if reinit_ok t then capture_loop rest 0 a
         else set_camera (Camera false (frame_callback (camera_manager a))) a).
Proof.
  split; [|split].
  - intros dl ri ri' rest n n' a. simpl. unfold read.
    destruct (is_recording (camera_manager a)); simpl; [|done].
    unfold andthen. by destruct (callback_raises a).
  - apply capture_loop_failures_absorbed.
  - intros fails rest t n a Hf Hn Hrec.
    apply Forall_app in Hf as [Hf Ht]. apply Forall_cons in Ht as [Ht _].
    rewrite length_app in Hn. simpl in Hn.
    rewrite capture_loop_failures_absorbed by (done || lia).
    simpl. unfold read. rewrite Hrec, Ht. simpl. unfold on_failure.
    destruct (Nat.leb_spec MAX_FAILURES (S (n + length fails))); [|lia].
    by destruct (reinit_ok t).
Qed.

End FlowsMore.
(** ** Starting recognition and the lock polling *)

Section ManagerMore.
Import UserManager FaceRecognizer App AppFlows.
Context `{tz : !TimeZone}.
Context {face : Type}.
Implicit Types (a : app face) (m : activation face) (p : poll face).

Lemma start_recognition_step (ready model_file_exists : bool) m :
  let m' := start_recognition ready model_file_exists m in
  (managers_started m' =
     if negb (recognition_active (act_app m)) && ready && model_file_exists
     then S (managers_started m) else managers_started m)
  ∧ recognition_active (act_app m') =
      recognition_active (act_app m) || (ready && model_file_exists)
  ∧ processes_started m' = processes_started m
  ∧ fs (act_app m') = fs (act_app m)
  ∧ camera_manager (act_app m') = camera_manager (act_app m).
Proof.
  destruct m as [a run ms ps e]. unfold start_recognition. simpl.
  destruct (recognition_active a) eqn:Hact; simpl; [by destruct a|].
  destruct ready; simpl; [|destruct a; simpl in *; by rewrite Hact].
  destruct model_file_exists; simpl; destruct a; simpl in *; by rewrite ?Hact.
Qed.

Lemma start_recognition_presses_eq (presses : list (bool * bool)) m :
  let m' := start_recognition_presses presses m in
  let pressed := existsb (λ press, press.1 && press.2) presses in
  (managers_started m' =
     if negb (recognition_active (act_app m)) && pressed
     then S (managers_started m) else managers_started m)
  ∧ recognition_active (act_app m') = recognition_active (act_app m) || pressed
  ∧ processes_started m' = processes_started m
  ∧ fs (act_app m') = fs (act_app m)
  ∧ camera_manager (act_app m') = camera_manager (act_app m).
Proof.
  unfold start_recognition_presses. revert m.
  induction presses as [|[ready mfe] presses IH]; intros m; simpl.
  - by rewrite andb_false_r, orb_false_r.
  - destruct (start_recognition_step ready mfe m) as (Hm & Hr & Hp & Hf & Hc).
    destruct (IH (start_recognition ready mfe m)) as (I1 & I2 & I3 & I4 & I5).
    cbv zeta in *. rewrite I1, I2, I3, I4, I5, Hm, Hr, Hp, Hf, Hc.
    repeat split.
    + by destruct (recognition_active (act_app m)), ready, mfe,
        (existsb (λ press, press.1 && press.2) presses).
    + by destruct (recognition_active (act_app m)), ready, mfe,
        (existsb (λ press, press.1 && press.2) presses).
Qed.

Lemma existsb_pressed (presses : list (bool * bool)) :
  existsb (λ press, press.1 && press.2) presses = true
  ↔ Exists (λ press, press.1 = true ∧ press.2 = true) presses.
Proof.
  induction presses as [|[r e] presses IH]; simpl.
  - split; [done|]. intros H. by apply Exists_nil in H.
  - rewrite Exists_cons, orb_true_iff, andb_true_iff, IH. done.
Qed.

(** X21. Pressing the start button.  A press starts a managing thread
    exactly when recognition is not active, the recogniser and the trainer
    are set and the model file exists, and it then raises the flag.  So
    presses that follow each other start at most one managing thread, and
    none when recognition was already active; they never touch the store
    or the camera. *)
Theorem start_recognition_presses_once (presses : list (bool * bool)) m :
  let m' := start_recognition_presses presses m in
  (managers_started m' ≤ S (managers_started m))%nat
  ∧ (recognition_active (act_app m) = true →
     managers_started m' = managers_started m)
  ∧ (managers_started m' = S (managers_started m) ↔
     recognition_active (act_app m) = false
     ∧ Exists (λ press, press.1 = true ∧ press.2 = true) presses)
  ∧ (recognition_active (act_app m') = true ↔
     recognition_active (act_app m) = true
     ∨ Exists (λ press, press.1 = true ∧ press.2 = true) presses)
  ∧ processes_started m' = processes_started m
  ∧ fs (act_app m') = fs (act_app m)
  ∧ camera_manager (act_app m') = camera_manager (act_app m).
Proof.
  intros m'. subst m'.
  destruct (start_recognition_presses_eq presses m) as (Hm & Hr & Hp & Hf & Hc).
  cbv zeta in *. rewrite Hm, Hr, Hp, Hf, Hc, <- existsb_pressed.
  destruct (recognition_active (act_app m)),
    (existsb (λ press, press.1 && press.2) presses); simpl;
    repeat split; try done; try lia; intuition (try done; try lia).
Qed.

(** *** The polling loop *)

Lemma manage_exit_spec m :
  recognition_active (act_app m) = false →
  let m' := manage_exit m in
  manager_ended m' = true
  ∧ recognition_active (act_app m') = false
  ∧ processes_started m' = processes_started m
  ∧ managers_started m' = managers_started m
  ∧ fs (act_app m') = fs (act_app m)
  ∧ camera_manager (act_app m') = camera_manager (act_app m).
Proof.
  intros Hoff. destruct m as [a run ms ps e]. simpl in *.
  unfold manage_exit, on_app, stop_recognition, read, andthen. simpl.
  destruct run; simpl; destruct a; simpl in *; by rewrite ?Hoff.
Qed.

(** With the flag cleared, and nobody raising it, the loop ends. *)
Lemma manage_recognition_state_inactive (polls : list (poll face)) m :
  Forall (λ p, ∀ a, recognition_active a = false →
                    recognition_active (meanwhile p a) = false) polls →
  recognition_active (act_app m) = false →
  let m' := manage_recognition_state polls m in
  manager_ended m' = true
  ∧ recognition_active (act_app m') = false
  ∧ processes_started m' = processes_started m
  ∧ managers_started m' = managers_started m.
Proof.
  intros Hq Hoff. destruct polls as [|p rest]; simpl.
  - rewrite Hoff.
    destruct (manage_exit_spec m Hoff) as (? & ? & ? & ? & _). done.
  - apply Forall_cons in Hq as [Hp _]. specialize (Hp _ Hoff).
    destruct m as [a run ms ps e]. simpl in *. rewrite Hp.
    destruct (manage_exit_spec (Activation (meanwhile p a) run ms ps e) Hp)
      as (? & ? & ? & ? & _). done.
Qed.

Lemma manage_turn_spec p m :
  let m' := manage_turn p m in
  managers_started m' = managers_started m
  ∧ manager_ended m' = manager_ended m
  ∧ (if process_running m
     then processes_started m' = processes_started m
          ∧ (if locked p then process_running m' = true
             else process_running m' = false
                  ∧ recognition_active (act_app m') = false)
     else if process_running m'
          then processes_started m' = S (processes_started m)
          else processes_started m' = processes_started m).
Proof.
  destruct m as [a run ms ps e]. unfold manage_turn, on_app. simpl.
  destruct (locked p), run; simpl; try done.
  - by destruct (process_alive p).
  - repeat split; try done.
    unfold stop_recognition, read, andthen, emit. simpl.
    by destruct (recognition_active a).
Qed.

Lemma manage_recognition_state_cons p (rest : list (poll face)) m :
  manage_recognition_state (p :: rest) m =
    if recognition_active (act_app (on_app (meanwhile p) m))
    then manage_recognition_state rest (manage_turn p (on_app (meanwhile p) m))
    else manage_exit (on_app (meanwhile p) m).
Proof. done. Qed.

Lemma manage_recognition_state_counts (polls : list (poll face)) m :
  Forall (λ p, ∀ a, recognition_active a = false →
                    recognition_active (meanwhile p a) = false) polls →
  let m' := manage_recognition_state polls m in
  (processes_started m' ≤
     processes_started m + (if process_running m then 0 else 1))%nat
  ∧ managers_started m' = managers_started m
  ∧ (manager_ended m = false → manager_ended m' = true →
     recognition_active (act_app m') = false).
Proof.
  revert m. induction polls as [|p rest IH]; intros m Hq.
  - simpl. destruct (flag_cases (act_app m)) as [Hact|Hact]; rewrite Hact; cbv zeta iota.
    + split; [lia|]. split; [done|]. congruence.
    + pose proof (manage_exit_spec m Hact) as Hx. cbv zeta in Hx.
      destruct Hx as (Q1 & Q2 & Q3 & Q4 & _). rewrite Q3, Q4.
      split; [lia|]. done.
  - apply Forall_cons in Hq as [Hp Hq]. rewrite manage_recognition_state_cons.
    set (m0 := on_app (meanwhile p) m).
    assert (processes_started m0 = processes_started m
            ∧ managers_started m0 = managers_started m
            ∧ process_running m0 = process_running m
            ∧ manager_ended m0 = manager_ended m) as (E1 & E2 & E3 & E4)
      by (by destruct m).
    rewrite <- E1, <- E2, <- E3, <- E4.
    destruct (flag_cases (act_app m0)) as [Hact|Hact]; rewrite Hact; cbv zeta iota.
    2:{ pose proof (manage_exit_spec m0 Hact) as Hx. cbv zeta in Hx.
        destruct Hx as (Q1 & Q2 & Q3 & Q4 & _). rewrite Q3, Q4.
        split; [lia|]. done. }
    destruct (manage_turn_spec p m0) as (T1 & T2 & T3). cbv zeta in *.
    destruct (process_running m0) eqn:Hrun.
    + destruct T3 as [T3 T4]. destruct (locked p).
      * destruct (IH (manage_turn p m0) Hq) as (I1 & I2 & I3).
        cbv zeta in *. rewrite T4 in I1. rewrite <- T1, <- T2, <- T3.
        split; [lia|]. done.
      * destruct T4 as [T4 T5].
        destruct (manage_recognition_state_inactive rest (manage_turn p m0) Hq T5)
          as (J1 & J2 & J3 & J4). cbv zeta in *.
        rewrite J3, J4, T3, T1. split; [lia|]. done.
    + destruct (IH (manage_turn p m0) Hq) as (I1 & I2 & I3). cbv zeta in *.
      rewrite <- T1, <- T2. split; [|done].
      destruct (process_running (manage_turn p m0)); lia.
Qed.

(** X22. The polling loop.  As long as no other thread raises the flag
    again, one run of the loop starts at most one recognition thread, and
    none when it already counts one as running; it starts no managing
    thread; and when it has ended the flag is cleared.  A poll that finds
    the session unlocked while a recognition thread counts as running
    stops recognition, and the loop ends with it: it does not go back to
    waiting for the next lock. *)
Theorem manage_recognition_state_spec (polls : list (poll face)) m :
  Forall (λ p, ∀ a, recognition_active a = false →
                    recognition_active (meanwhile p a) = false) polls →
  let m' := manage_recognition_state polls m in
  (processes_started m' ≤
     processes_started m + (if process_running m then 0 else 1))%nat
  ∧ managers_started m' = managers_started m
  ∧ (manager_ended m = false → manager_ended m' = true →
     recognition_active (act_app m') = false)
  ∧ (∀ p rest,
       polls = p :: rest →
       recognition_active (meanwhile p (act_app m)) = true →
       locked p = false → process_running m = true →
       manager_ended m' = true
       ∧ recognition_active (act_app m') = false
       ∧ processes_started m' = processes_started m).
Proof.
  intros Hq m'. subst m'.
  destruct (manage_recognition_state_counts polls m Hq) as (H1 & H2 & H3).
  cbv zeta in *. split; [done|]. split; [done|]. split; [done|].
  intros p rest -> Hact Hunl Hrun.
  apply Forall_cons in Hq as [_ Hq]. rewrite manage_recognition_state_cons.
  set (m0 := on_app (meanwhile p) m).
  assert (recognition_active (act_app m0) = true) as Hact0 by (by destruct m).
  assert (process_running m0 = true) as Hrun0 by (by destruct m).
  rewrite Hact0. cbv iota.
  destruct (manage_turn_spec p m0) as (T1 & T2 & T3). cbv zeta in T3.
  rewrite Hrun0, Hunl in T3. destruct T3 as (T3 & T4 & T5).
  destruct (manage_recognition_state_inactive rest (manage_turn p m0) Hq T5)
    as (J1 & J2 & J3 & J4).
  cbv zeta in *. split; [done|]. split; [done|].
  rewrite J3, T3. by destruct m.
Qed.

End ManagerMore.
(** ** The training task *)

Section TrainingMore.
Import UserManager UserRegistry FaceRecognizer FaceTrainer ModelLoading App AppFlows.
Context `{tz : !TimeZone}.
Context {face model : Type}.
Variable imread : string → string → option face.
Variable fit : list (face * Z) → model.
Variable predict_label : model → face → Z.
Variable shuffle : list (face * Z) → list (face * Z).
Variable predict_of : model → face → prediction.
Implicit Types (a : app face) (model_file : option model).

Local Abbreviation task show read_raises a model_file :=
  (perform_training_task imread fit predict_label shuffle predict_of
     show read_raises (a, model_file)).

Lemma train_raises_few (s : store) model_file :
  (length (load_training_data imread s) ≤ 1)%nat →
  train imread fit predict_label shuffle s model_file = (TrainRaises, model_file).
Proof.
  intros H. destruct (load_training_data imread s) as [|x [|y l]] eqn:Hd.
  - by apply train_raises_empty.
  - apply train_raises_one. by rewrite Hd.
  - simpl in H. lia.
Qed.

Lemma train_returns_many (s : store) model_file :
  (2 ≤ length (load_training_data imread s))%nat →
  ∃ accuracy m,
    train imread fit predict_label shuffle s model_file
      = (TrainReturns accuracy, Some m).
Proof.
  intros H. unfold train.
  destruct (Nat.eqb_spec (length (load_training_data imread s)) 0); [lia|].
  destruct (train_test_split_some shuffle _ H) as (tr & te & ->). eauto.
Qed.

Lemma perform_training_task_raises show read_raises a model_file :
  (length (load_training_data imread (fs a)) ≤ 1)%nat →
  task show read_raises a model_file
    = (emit UpdateStatus (emit ShowMessage a), model_file).
Proof.
  intros H. unfold perform_training_task. simpl.
  by rewrite train_raises_few.
Qed.

(** X23. The training task.  It never touches the store, the flags or the
    camera.  With at most one training image [train()] raises: the
    recogniser and the model file stay as they were, and the error is shown
    whether or not a message box was asked for.  With two or more images
    the model file is written and the recogniser is made anew from it and
    from the store; when the file can be read, its user list is the sorted
    list of the user directories and it predicts with the written model. *)
Theorem perform_training_task_spec (show read_raises : bool) a model_file :
  let data := load_training_data imread (fs a) in
  let sys' := task show read_raises a model_file in
  (fs sys'.1 = fs a
   ∧ recognition_active sys'.1 = recognition_active a
   ∧ registration_active sys'.1 = registration_active a
   ∧ camera_manager sys'.1 = camera_manager a)
  ∧ ((length data ≤ 1)%nat →
     face_recognizer sys'.1 = face_recognizer a
     ∧ sys'.2 = model_file
     ∧ new_events a sys'.1 = [ShowMessage; UpdateStatus])
  ∧ ((2 ≤ length data)%nat →
     ∃ m, sys'.2 = Some m
          ∧ face_recognizer sys'.1
              = new_recognizer predict_of (fs a) (Some m) read_raises
                               CONFIDENCE_THRESHOLD
          ∧ (read_raises = false →
             user_list (face_recognizer sys'.1) = sorted_users (fs a)
             ∧ predict (face_recognizer sys'.1) = predict_of m)
          ∧ new_events a sys'.1
              = (if show then [ShowMessage] else []) ++ [UpdateStatus]).
Proof.
  intros data sys'. subst data sys'. split; [|split].
  - unfold perform_training_task. simpl.
    destruct (train _ _ _ _ _ _) as [[acc|] mf]; simpl;
      destruct show; by destruct a.
  - intros H. rewrite perform_training_task_raises by done. simpl.
    repeat split; try by destruct a.
    destruct a; events_goal.
  - intros H. destruct (train_returns_many (fs a) model_file H) as (acc & m & Ht).
    exists m. unfold perform_training_task. simpl. rewrite Ht. simpl.
    split; [done|].
    split; [by destruct show; destruct a|].
    split; [intros ->; split; by destruct show; destruct a|].
    destruct show; destruct a; events_goal.
Qed.

(** X24. Deleting the last trained user.  When a user is deleted from the
    GUI and the photos left in the store give at most one training image,
    the retraining that follows raises: the user is gone from the store,
    but the recogniser and the model file are those from before the
    deletion, so the recogniser still names the deleted user on every face
    on which it did. *)
Theorem delete_user_keeps_recognizer
    (selection : string) (show read_raises : bool) a model_file :
  selection ∈ get_users (fs a) → selection ≠ ""%string →
  (length (load_training_data imread (delete selection (fs a))) ≤ 1)%nat →
  let a1 := delete_user selection true a in
  let sys' := task show read_raises a1 model_file in
  (selection ∉ get_users (fs sys'.1))
  ∧ TrainModel true ∈ new_events a a1
  ∧ face_recognizer sys'.1 = face_recognizer a
  ∧ sys'.2 = model_file
  ∧ ∀ faces, process_frame (face_recognizer sys'.1) faces
             = process_frame (face_recognizer a) faces.
Proof.
  intros Hin Hne Hfew a1 sys'.
  assert (fs a1 = delete selection (fs a)
          ∧ face_recognizer a1 = face_recognizer a
          ∧ TrainModel true ∈ new_events a a1) as (Hfs & Hrec & Htrain).
  { subst a1. destruct a as [s r ra ga cu cam w tr]. simpl in *.
    unfold delete_user, UserManager.delete_user, read. simpl.
    rewrite (bool_decide_eq_false_2 (get_users s = []))
      by (intros E; rewrite E in Hin; by apply elem_of_nil in Hin).
    apply String.eqb_neq in Hne. rewrite Hne.
    rewrite (bool_decide_eq_true_2 (selection ∈ get_users s)) by done. simpl.
    apply elem_of_get_users in Hin as [d Hd]. rewrite Hd. run_app.
    repeat split; try done. events_goal. in_events. }
  subst sys'. rewrite perform_training_task_raises by (by rewrite Hfs).
  simpl.
  replace (fs (emit UpdateStatus (emit ShowMessage a1))) with (fs a1)
    by (by destruct a1).
  replace (face_recognizer (emit UpdateStatus (emit ShowMessage a1)))
    with (face_recognizer a1) by (by destruct a1).
  rewrite Hfs, Hrec. repeat split; try done.
  rewrite elem_of_get_users, lookup_delete_eq. by intros [? ?].
Qed.

End TrainingMore.

(** ** The set-up after the GUI starts *)

Section SetupMore.
Import UserManager UserRegistry FaceRecognizer FaceTrainer ModelLoading App AppFlows.
Context `{tz : !TimeZone}.
Context {face model : Type}.
Variable predict_of : model → face → prediction.
Implicit Types (a : app face).

Lemma process_frame_nobody (r : recognizer face) (faces : list face) :
  user_list r = [] ∨ model_exists r = false → process_frame r faces = [].
Proof.
  intros H. unfold process_frame.
  induction faces as [|f faces IH]; [done|].
  change (omap ?g (f :: faces))
    with (match g f with Some y => y :: omap g faces | None => omap g faces end).
  rewrite IH. unfold recognize_face.
  destruct H as [-> | ->]; simpl; [done|].
  by rewrite orb_true_r.
Qed.

(** X25. The set-up after the GUI starts.  The recogniser is made from the
    model file and the store, which stays as it is.  No warning is shown
    exactly when the model file exists and can be read and there is a user
    directory; the recogniser then has the sorted user list.  Whenever the
    warning is shown the recogniser names nobody, on any frame. *)
Theorem post_gui_setup_tasks_spec (model_file : option model) (read_raises : bool) a :
  let a' := _post_gui_setup_tasks predict_of model_file read_raises a in
  fs a' = fs a
  ∧ face_recognizer a'
      = new_recognizer predict_of (fs a) model_file read_raises CONFIDENCE_THRESHOLD
  ∧ ((ShowMessage ∉ new_events a a') ↔
     is_Some model_file ∧ read_raises = false ∧ get_users (fs a) ≠ [])
  ∧ ((ShowMessage ∉ new_events a a') →
     user_list (face_recognizer a') = sorted_users (fs a)
     ∧ model_exists (face_recognizer a') = true)
  ∧ (ShowMessage ∈ new_events a a' →
     ∀ faces, process_frame (face_recognizer a') faces = []).
Proof.
  intros a'. subst a'.
  assert (sorted_users (fs a) = [] ↔ get_users (fs a) = []) as Hnil.
  { split; intros H.
    - apply Permutation_nil_r. by rewrite <- sorted_users_perm, H.
    - apply Permutation_nil_r. by rewrite sorted_users_perm, H. }
  unfold _post_gui_setup_tasks, reload_recognizer_model, new_recognizer,
    load_model, read, andthen.
  destruct a as [s r ra ga cu cam w tr]. simpl in *.
  destruct model_file as [m|]; [destruct read_raises|]; simpl.
  - split; [done|]. split; [done|]. split; [|split].
    + events_goal. split; [intros H; exfalso; apply H; in_events|].
      by intros (_ & ? & _).
    + events_goal; intros H; exfalso; apply H; in_events.
    + intros _ faces. by apply process_frame_nobody; left.
  - destruct (decide (sorted_users s = [])) as [He|He].
    + rewrite (bool_decide_eq_true_2 _ He). simpl.
      split; [done|]. split; [done|]. split; [|split].
      * events_goal. split; [intros H; exfalso; apply H; in_events|].
        intros (_ & _ & H). by apply Hnil in He.
      * events_goal; intros H; exfalso; apply H; in_events.
      * intros _ faces. apply process_frame_nobody. by left.
    + rewrite (bool_decide_eq_false_2 _ He). simpl.
      split; [done|]. split; [done|]. split; [|split].
      * events_goal. split; [|intros _ H; split_elem_of H].
        intros _. split; [eauto|]. split; [done|]. by rewrite <- Hnil.
      * done.
      * events_goal.
  - split; [done|]. split; [done|]. split; [|split].
    + events_goal. split; [intros H; exfalso; apply H; in_events|].
      by intros ([? ?] & _).
    + events_goal; intros H; exfalso; apply H; in_events.
    + intros _ faces. by apply process_frame_nobody; right.
Qed.

End SetupMore.
(** ** The lock check *)

Section LockCheckFacts.
Import FileName LockCheck.

Lemma startswith_spec s p :
  startswith s p = true ↔ ∃ post, s = String.append p post.
Proof.
  revert s. induction p as [|c p IH]; intros s; simpl.
  - split; [intros _; by exists s | done].
  - destruct s as [|d s].
    + split; [done | by intros [post [=]]].
    + rewrite andb_true_iff, IH, Ascii.eqb_eq. split.
      * intros [-> [post ->]]. by exists post.
      * intros [post [= -> ->]]. eauto.
Qed.

Lemma contains_spec s needle :
  contains s needle = true
  ↔ ∃ pre post, s = String.append pre (String.append needle post).
Proof.
  induction s as [|d s IH].
  - simpl. rewrite orb_false_r, startswith_spec. split.
    + intros [post ->]. by exists EmptyString, post.
    + intros (pre & post & H). destruct pre as [|c pre]; [by exists post|done].
  - change (contains (String d s) needle)
      with (startswith (String d s) needle || contains s needle).
    rewrite orb_true_iff, startswith_spec, IH. split.
    + intros [[post ->]|(pre & post & ->)].
      * by exists EmptyString, post.
      * by exists (String d pre), post.
    + intros (pre & post & H). destruct pre as [|c pre].
      * left. by exists post.
      * right. rewrite append_cons in H. injection H as -> ->. eauto.
Qed.

Lemma lower_split s a b :
  lower s = String.append a b →
  ∃ a' b', s = String.append a' b' ∧ lower a' = a ∧ lower b' = b.
Proof.
  revert s. induction a as [|c a IH]; intros s H.
  - by exists EmptyString, s.
  - destruct s as [|d s]; [done|]. rewrite append_cons in H. simpl in H.
    injection H as Hc Hs. destruct (IH s Hs) as (a' & b' & -> & Ha & Hb).
    exists (String d a'), b'. simpl. by rewrite Hc, Ha.
Qed.

(** X26. The lock check.  [is_locked] answers yes exactly when the output
    of [loginctl] holds the letters y, e, s in a row, in any mix of upper
    and lower case, anywhere in it; when the command could not be run it
    answers no. *)
Theorem is_locked_spec (stdout : option string) :
  is_locked stdout = true
  ↔ ∃ pre word post,
      stdout = Some (String.append pre (String.append word post))
      ∧ lower word = "yes"%string.
Proof.
  destruct stdout as [out|]; simpl; [|split; [done | by intros (? & ? & ? & [=] & _)]].
  rewrite contains_spec. split.
  - intros (p & q & H).
    apply lower_split in H as (pre & rest & -> & _ & H).
    apply lower_split in H as (word & post & -> & Hw & _).
    by exists pre, word, post.
  - intros (pre & word & post & [= ->] & Hw).
    exists (lower pre), (lower post). by rewrite !lower_app, Hw.
Qed.

End LockCheckFacts.

(** ** Initialising the camera *)

Section CameraInit.
Import CameraManager.
Implicit Types (probe : nat → nat → attempt) (cap : option device).

(** An attempt succeeds when the device opens and gives a frame. *)
Local Abbreviation succeeds probe ia :=
  (∃ k, probe ia.1 ia.2 = Opened (S k)).

Lemma try_attempts_cap probe (todo : list (nat * nat)) cap :
  todo ≠ [] → try_attempts probe todo cap = try_attempts probe todo None.
Proof. by destruct todo as [|[i j] rest]. Qed.

Lemma try_attempts_spec probe (todo : list (nat * nat)) cap :
  match try_attempts probe todo cap with
  | (true, cap') =>
      ∃ pre ia post,
        todo = pre ++ ia :: post
        ∧ Forall (λ x, ¬ succeeds probe x) pre
        ∧ succeeds probe ia
        ∧ cap' = Some (Device ia.1 true)
  | (false, cap') =>
      Forall (λ x, ¬ succeeds probe x) todo
      ∧ cap' = match last todo with
               | None => cap
               | Some ia =>
                   match probe ia.1 ia.2 with
                   | NotOpened => Some (Device ia.1 false)
                   | _ => None
                   end
               end
  end.
Proof.
  revert cap. induction todo as [|[i j] todo IH]; intros cap; simpl.
  - by split.
  - assert (∀ c,
      ¬ succeeds probe (i, j) →
      c = match probe i j with NotOpened => Some (Device i false) | _ => None end →
      match try_attempts probe todo c with
      | (true, cap') =>
          ∃ pre ia post,
            (i, j) :: todo = pre ++ ia :: post
            ∧ Forall (λ x, ¬ succeeds probe x) pre
            ∧ succeeds probe ia
            ∧ cap' = Some (Device ia.1 true)
      | (false, cap') =>
          Forall (λ x, ¬ succeeds probe x) ((i, j) :: todo)
          ∧ cap' = match last ((i, j) :: todo) with
                   | None => cap
                   | Some ia =>
                       match probe ia.1 ia.2 with
                       | NotOpened => Some (Device ia.1 false)
                       | _ => None
                       end
                   end
      end) as Hnext.
    { intros c Hno Hc. specialize (IH c).
      destruct (try_attempts probe todo c) as [[|] cap'].
      - destruct IH as (pre & ia & post & -> & Hpre & Hia & ->).
        exists ((i, j) :: pre), ia, post. repeat split; try done.
        by apply Forall_cons.
      - destruct IH as [Hall ->]. split; [by apply Forall_cons|].
        destruct todo as [|x todo]; [done|].
        rewrite last_cons_cons.
        destruct (last (x :: todo)) eqn:Hl; [done|]. by apply last_None in Hl. }
    destruct (probe i j) as [| |[|k]] eqn:Hp; simpl.
    + apply Hnext; [|done]. simpl. rewrite Hp. by intros [? ?].
    + apply Hnext; [|done]. simpl. rewrite Hp. by intros [? ?].
    + apply Hnext; [|done]. simpl. rewrite Hp. by intros [? ?].
    + exists [], (i, j), todo. repeat split; try done. simpl. eauto.
Qed.

(** X27. Initialising the camera.  [initialize_camera] tries the indices
    0, 1, 2, three times each, in this order, and returns at the first
    attempt in which the device opens and gives a frame, holding that
    device; it succeeds exactly when one of the nine attempts does.  When
    all fail it holds no open device: nothing, or the device of index 2
    that did not open.  What was held before the call plays no part. *)
Theorem initialize_camera_spec probe cap :
  let r := initialize_camera probe cap in
  (r.1 = true ↔ ∃ index attempt,
                  (index < 3)%nat ∧ (attempt < 3)%nat
                  ∧ succeeds probe (index, attempt))
  ∧ (r.1 = true →
     ∃ pre ia post,
       schedule = pre ++ ia :: post
       ∧ Forall (λ x, ¬ succeeds probe x) pre
       ∧ succeeds probe ia
       ∧ r.2 = Some (Device ia.1 true))
  ∧ (r.1 = false →
     r.2 = match probe 2%nat 2%nat with
           | NotOpened => Some (Device 2 false)
           | _ => None
           end)
  ∧ initialize_camera probe None = r.
Proof.
  intros r. subst r. unfold initialize_camera.
  rewrite (try_attempts_cap probe schedule cap) by done.
  pose proof (try_attempts_spec probe schedule None) as H.
  assert (∀ ia, ia ∈ schedule ↔ (ia.1 < 3)%nat ∧ (ia.2 < 3)%nat) as Hsched.
  { intros [i j]. simpl. split.
    - intros Hin. vm_compute in Hin. split_elem_of Hin;
        injection Hin as <- <-; lia.
    - intros [Hi Hj].
      assert (i = 0 ∨ i = 1 ∨ i = 2)%nat as Hi' by lia.
      assert (j = 0 ∨ j = 1 ∨ j = 2)%nat as Hj' by lia.
      apply list_elem_of_In.
      destruct Hi' as [->|[->| ->]]; destruct Hj' as [->|[->| ->]];
        vm_compute; tauto. }
  destruct (try_attempts probe schedule None) as [[|] cap']; simpl.
  - destruct H as (pre & ia & post & Hs & Hpre & Hia & ->).
    split; [|split; [|split]]; try done.
    + split; [|done]. intros _. exists ia.1, ia.2.
      assert (ia ∈ schedule) as Hin
        by (rewrite Hs, elem_of_app, elem_of_cons; auto).
      apply Hsched in Hin as [? ?]. by repeat split.
    + intros _. by exists pre, ia, post.
  - destruct H as [Hall ->]. split; [|split; [|split]]; try done.
    split; [done|]. intros (i & j & Hi & Hj & Hs).
    rewrite Forall_forall in Hall. exfalso. apply (Hall (i, j)); [|done].
    by apply Hsched.
Qed.

End CameraInit.
(** ** Further properties at sample data *)

Section ListingWitnesses.
Import UserManager UserRegistry FaceRecognizer FaceTrainer App Samples.
Local Existing Instance Samples.utc.

Lemma get_user_photo_files_listing_witness :
  get_user_photo_files (store_of (photos 1 1)) "bob" = []
  ∧ get_user_photo_count (store_of (photos 1 1)) "bob" = 0%nat.
Proof.
  destruct (get_user_photo_files_listing (store_of (photos 1 1)) "bob")
    as (_ & _ & _ & H).
  apply H. reflexivity.
Defined.

Lemma photo_files_stable_witness :
  before (photo_files [File "b.jpg" 5; File "notes.txt" 1; File "a.jpg" 5])
         (File "b.jpg" 5) (File "a.jpg" 5).
Proof.
  apply (photo_files_stable [File "b.jpg" 5; File "notes.txt" 1; File "a.jpg" 5]
           (File "b.jpg" 5) (File "a.jpg" 5)).
  - compute_done.
  - by exists [], [File "notes.txt" 1], [].
  - compute_done.
  - compute_done.
  - simpl. lia.
Defined.

Lemma create_user_spec_witness :
  (create_user (store_of (photos 1 1)) "bob").2 = true
  ∧ (create_user (store_of (photos 1 1)) "bob").1 !! "alice"%string
    = store_of (photos 1 1) !! "alice"%string.
Proof.
  destruct (create_user_spec (store_of (photos 1 1)) "bob")
    as (Hnew & _ & _ & H & _); [compute_done|].
  split; [apply Hnew; compute_done | apply H; discriminate].
Defined.

Lemma delete_user_spec_witness :
  (delete_user (store_of (photos 1 1)) "bob").1 = store_of (photos 1 1)
  ∧ delete_user (create_user (store_of (photos 1 1)) "bob").1 "bob"
    = (store_of (photos 1 1), true).
Proof.
  destruct (delete_user_spec (store_of (photos 1 1)) "bob")
    as (_ & _ & _ & _ & H); [compute_done|].
  apply H. compute_done.
Defined.

Lemma add_photo_to_user_spec_witness :
  add_photo_to_user (store_of (photos 1 1)) "bob" "new" sample_now !! "alice"%string
  = store_of (photos 1 1) !! "alice"%string.
Proof.
  destruct (add_photo_to_user_spec (store_of (photos 1 1)) "bob" "new" sample_now)
    as (_ & H & _); [compute_done|].
  apply H. discriminate.
Defined.

End ListingWitnesses.

Section RetentionWitnesses.
Import UserManager UserRegistry FaceRecognizer FaceTrainer App Samples.
Local Existing Instance Samples.utc.

Lemma save_only_prunes_own_photos_witness :
  save_recognition_photo_and_manage_retention
    small_policy (store_of (photos 2 2)) "bob" "new" sample_now sample_now
    !! "alice"%string
  = store_of (photos 2 2) !! "alice"%string.
Proof.
  destruct (save_only_prunes_own_photos small_policy sample_now
              (store_of (photos 2 2)) "bob" "new" sample_now) as (H & _).
  apply H; [compute_done | discriminate].
Defined.

Lemma manage_retention_idempotent_witness :
  manage_retention small_policy sample_now
    (manage_retention small_policy sample_now (photos 2 2))
  = manage_retention small_policy sample_now (photos 2 2).
Proof.
  apply (manage_retention_idempotent small_policy sample_now (photos 2 2));
    compute_done.
Defined.

Lemma save_is_add_without_pruning_witness :
  save_recognition_photo_and_manage_retention
    app_policy (store_of (photos 0 3)) "alice" "new" sample_now sample_now
  = add_photo_to_user (store_of (photos 0 3)) "alice" "new" sample_now.
Proof.
  apply (save_is_add_without_pruning app_policy sample_now
           (store_of (photos 0 3)) "alice" "new" sample_now); compute_done.
Defined.

Lemma saved_photo_is_kept_witness :
  File (FileName.photo_name "new") sample_now
    ∈ get_user_photo_files
        (save_recognition_photo_and_manage_retention
           small_policy (store_of (photos 2 2)) "alice" "new" sample_now sample_now)
        "alice".
Proof.
  apply (saved_photo_is_kept small_policy sample_now
           (store_of (photos 2 2)) "alice" "new" sample_now); compute_done.
Defined.

Lemma save_below_ceiling_skips_trim_witness :
  Z.of_nat (get_user_photo_count
              (save_recognition_photo_and_manage_retention
                 app_policy (store_of (photos 0 3)) "alice" "new" sample_now sample_now)
              "alice")
  ≤ max_photos_per_user app_policy.
Proof.
  destruct (save_below_ceiling_skips_trim app_policy sample_now
              (store_of (photos 0 3)) "alice" "new" sample_now) as (_ & _ & H).
  - compute_done.
  - exact H.
Defined.

End RetentionWitnesses.

Section RecognizerWitnesses.
Import UserManager UserRegistry FaceRecognizer FaceTrainer ModelLoading App Samples.
Import FlowSamples.
Local Existing Instance Samples.utc.

Lemma process_frame_sound_witness :
  "alice"%string ∈ user_list two_user_recognizer
  ∧ (100 # 1 < confidence_threshold two_user_recognizer)%Q.
Proof.
  destruct (process_frame_sound two_user_recognizer [tt]) as (H & _).
  destruct (H "alice"%string (100 # 1)) as (H1 & _ & H2 & _).
  - apply list_elem_of_here.
  - by split.
Defined.

Lemma new_recognizer_spec_witness :
  process_frame
    (new_recognizer predict_of_unit one_photo_store None false CONFIDENCE_THRESHOLD)
    [tt] = [].
Proof.
  destruct (new_recognizer_spec predict_of_unit one_photo_store None false
              CONFIDENCE_THRESHOLD) as (_ & H & _).
  destruct H as (_ & _ & H); [by left | apply H].
Defined.

Lemma training_labels_index_users_witness :
  ∃ u, sorted_users one_photo_store !! Z.to_nat 0 = Some u
       ∧ py_index
           (user_list (new_recognizer predict_of_unit one_photo_store (Some tt) false
                         CONFIDENCE_THRESHOLD)) 0
         = Some u.
Proof.
  destruct (training_labels_index_users predict_of_unit read_any one_photo_store tt 0)
    as (u & d & f & _ & Hu & _ & _ & _ & _ & Hr).
  - apply list_elem_of_here.
  - exists u. split; [exact Hu|]. apply Hr.
Defined.

End RecognizerWitnesses.

Section CallbackWitnesses.
Import UserManager UserRegistry FaceRecognizer FaceTrainer App AppFlows Samples.
Import FlowSamples.
Local Existing Instance Samples.utc.

Lemma recognition_frame_store_witness :
  fs (process_recognition_frame one_face recognizing_app) !! "bob"%string
  = fs recognizing_app !! "bob"%string.
Proof.
  destruct (recognition_frame_store one_face recognizing_app)
    as [H|(u & c & rest & _ & _ & Hp & _ & _ & _ & _ & _ & H)].
  - by rewrite H.
  - apply H. injection Hp as <- _ _. discriminate.
Defined.


Lemma app_delete_user_spec_witness :
  fs (delete_user "alice" true (sample_app (store_of (photos 0 3)) false false))
  = delete "alice"%string (store_of (photos 0 3))
  ∧ fs (delete_user "alice" true (sample_app (store_of (photos 0 3)) false false))
      !! "bob"%string
    = store_of (photos 0 3) !! "bob"%string.
Proof.
  destruct (app_delete_user_spec "alice" true
              (sample_app (store_of (photos 0 3)) false false)) as [H _].
  rewrite bool_decide_eq_true_2 in H by (split; [compute_done | discriminate]).
  destruct H as (H1 & _ & _ & H2 & _). split; [exact H1|].
  apply H2. discriminate.
Defined.

Lemma capture_ends_at_first_match_witness :
  unlock_attempts
    (new_events recognizing_app
       (_capture_loop ([empty_turn] ++ face_turn :: [face_turn; failed_turn])
          recognizing_app)) = 1%nat
  ∧ is_recording
      (camera_manager
         (_capture_loop ([empty_turn] ++ face_turn :: [face_turn; failed_turn])
            recognizing_app)) = false.
Proof.
  destruct (capture_ends_at_first_match [empty_turn] [face_turn; failed_turn]
              (Delivery one_face declines) false recognizing_app)
    as (_ & H1 & _ & H2).
  - reflexivity.
  - reflexivity.
  - reflexivity.
  - apply Forall_cons. split; [|by apply Forall_nil].
    exists (Delivery no_face declines). split; reflexivity.
  - compute_done.
  - by split.
Defined.

Lemma capture_ends_with_session_witness :
  camera_manager
    (capture_loop (Turn (ReadGives (Delivery one_face goes_on)) false :: [face_turn])
       0 registering_app)
  = Camera false (Some (RegistrationFrame (Some "alice"%string) 4))
  ∧ registration_active
      (capture_loop (Turn (ReadGives (Delivery one_face goes_on)) false :: [face_turn])
         0 registering_app) = true.
Proof.
  destruct (capture_ends_with_session (Delivery one_face goes_on) false [face_turn] 0%nat
              "alice" 4 registering_app) as (H1 & H2).
  - reflexivity.
  - reflexivity.
  - vm_compute. discriminate.
  - reflexivity.
  - split; [exact H2|]. rewrite H1. vm_compute. reflexivity.
Defined.

Lemma recognition_process_spec_witness :
  recognition_active (run_recognition_process [no_camera_cycle] recognizing_app) = false
  ∧ new_events recognizing_app
      (run_recognition_process [no_camera_cycle] recognizing_app)
    = [StartCapture RecognitionFrame false; UpdateStatus].
Proof.
  destruct (recognition_process_spec [no_camera_cycle] recognizing_app)
    as (_ & _ & _ & H & _).
  destruct (H no_camera_cycle []) as (H1 & _ & H2); try reflexivity.
  by split.
Defined.

Lemma capture_loop_failure_budget_witness :
  capture_loop (replicate 4 failed_turn ++ failed_turn :: [face_turn]) 0 recognizing_app
  = set_camera (Camera false (Some RecognitionFrame)) recognizing_app.
Proof.
  destruct (capture_loop_failure_budget (face:=unit)) as (_ & _ & H).
  apply (H (replicate 4 failed_turn) [face_turn] failed_turn 0%nat recognizing_app).
  - repeat constructor.
  - reflexivity.
  - reflexivity.
Defined.

End CallbackWitnesses.

Section ManagerWitnesses.
Import UserManager UserRegistry FaceRecognizer FaceTrainer App AppFlows Samples.
Import FlowSamples.
Local Existing Instance Samples.utc.

Lemma start_recognition_presses_once_witness :
  managers_started
    (start_recognition_presses [(true, true); (true, true)] running_activation)
  = managers_started running_activation.
Proof.
  destruct (start_recognition_presses_once [(true, true); (true, true)]
              running_activation) as (_ & H & _).
  apply H. reflexivity.
Defined.

Lemma manage_recognition_state_spec_witness :
  manager_ended
    (manage_recognition_state [unlocked_poll; unlocked_poll] running_activation) = true
  ∧ recognition_active
      (act_app
         (manage_recognition_state [unlocked_poll; unlocked_poll] running_activation))
    = false.
Proof.
  destruct (manage_recognition_state_spec [unlocked_poll; unlocked_poll]
              running_activation) as (_ & _ & _ & H).
  - repeat (apply Forall_cons; split; [by intros a Ha|]). by apply Forall_nil.
  - destruct (H unlocked_poll [unlocked_poll]) as (H1 & H2 & _); try reflexivity.
    by split.
Defined.

End ManagerWitnesses.

Section TrainingWitnesses.
Import UserManager UserRegistry FaceRecognizer FaceTrainer ModelLoading App AppFlows.
Import Samples FlowSamples.
Local Existing Instance Samples.utc.

Lemma perform_training_task_spec_witness :
  face_recognizer
    (perform_training_task read_any fit_unit predict_zero no_shuffle predict_of_unit
       false false (sample_app one_photo_store false false, None)).1
  = two_user_recognizer.
Proof.
  destruct (perform_training_task_spec read_any fit_unit predict_zero no_shuffle
              predict_of_unit false false (sample_app one_photo_store false false) None)
    as (_ & H & _).
  destruct H as (H & _); [compute_done | exact H].
Defined.

Lemma delete_user_keeps_recognizer_witness :
  face_recognizer
    (perform_training_task read_any fit_unit predict_zero no_shuffle predict_of_unit
       true false
       (delete_user "alice" true (sample_app one_photo_store false false), Some tt)).1
  = two_user_recognizer.
Proof.
  destruct (delete_user_keeps_recognizer read_any fit_unit predict_zero no_shuffle
              predict_of_unit "alice" true false
              (sample_app one_photo_store false false) (Some tt))
    as (_ & _ & H & _).
  - compute_done.
  - discriminate.
  - compute_done.
  - exact H.
Defined.

Lemma post_gui_setup_tasks_spec_witness :
  process_frame
    (face_recognizer
       (_post_gui_setup_tasks predict_of_unit (None : option unit) false
          (sample_app one_photo_store false false)))
    [tt] = [].
Proof.
  destruct (post_gui_setup_tasks_spec predict_of_unit (None : option unit) false
              (sample_app one_photo_store false false)) as (_ & _ & _ & _ & H).
  apply H. apply list_elem_of_In. vm_compute. tauto.
Defined.

End TrainingWitnesses.

Section SystemWitnesses.
Import LockCheck CameraManager FlowSamples.
Local Existing Instance Samples.utc.

Lemma is_locked_spec_witness : is_locked (Some "LockedHint=Yes"%string) = true.
Proof.
  apply (proj2 (is_locked_spec (Some "LockedHint=Yes"%string))).
  exists "LockedHint="%string, "Yes"%string, ""%string. by split.
Defined.

Lemma initialize_camera_spec_witness :
  ∃ index attempt,
    (index < 3)%nat ∧ (attempt < 3)%nat
    ∧ ∃ k, second_camera index attempt = Opened (S k).
Proof.
  destruct (initialize_camera_spec second_camera None) as (H & _).
  apply (proj1 H). reflexivity.
Defined.

End SystemWitnesses.
